(** * dupont-com-documentation: the HAR link extractor, downloader and PDF sweep

    A shallow embedding of [main.py] and of the library calls it makes.

    Text is [str], a list of 8-bit characters read as the code points
    U+0000..U+00FF; the character tables of Python ([str.isspace],
    [str.lower], [str.isupper], the line boundaries of [str.splitlines])
    are embedded exactly for that range.  File names and paths are [ustr],
    lists of arbitrary code points, because [urllib.parse.unquote] decodes
    UTF-8 and leaves that range.

    Effects (file system, network, console) are threaded through an
    exception-and-state monad [M]; the network, the PDF parser and the
    tables missing from the sources are parameters of the relevant
    sections.

    What the model takes from the libraries, which are not part of the
    sources:
    - [re]: a backtracking matcher for the constructs of the one pattern
      ([^] in multi-line mode, [\s], [.], a greedy and a lazy star), and
      [findall] scanning from the left without overlap;
    - [urllib.parse]: [urlparse] as CPython 3.11 has it, its check of a
      bracketed host being a parameter; [unquote] with UTF-8 and
      [errors='replace'];
    - [os] and [open]: files live under absolute paths, a path is resolved
      one component at a time ([.], [..], empty components), there are no
      links, permissions or length limits; a text file holds the text
      written to it;
    - [requests]: a GET raises a [RequestException] or gives a response
      whose status and chunks the network decides; [raise_for_status]
      raises for 400 to 599;
    - [fitz]: [open] raises one of its [RuntimeError]s for a missing,
      empty or unreadable file;
    - [set]: the order in which a set is listed is some order, here that
      of [elements]. *)

From Stdlib Require Import Ascii String.
From stdpp Require Import base tactics option list gmap sets countable strings.

Local Open Scope N_scope.
Local Open Scope list_scope.

(** ** Characters and strings *)

Definition str := list ascii.
Definition ustr := list N.

Definition lit (s : string) : str := list_ascii_of_string s.
Definition code (c : ascii) : N := N_of_ascii c.
Definition widen (s : str) : ustr := map code s.
Definition ulit (s : string) : ustr := widen (lit s).

Definition dq : ascii := "034"%char.
Definition nl : ascii := "010"%char.
Definition cr : ascii := "013"%char.

(** [qlit] reads a literal in which the apostrophe stands for the double
    quote. *)
Definition qlit (s : string) : str :=
  map (fun c => if Ascii.eqb c "'"%char then dq else c) (lit s).

Definition in_range (lo hi : N) (c : ascii) : bool :=
  (lo <=? code c) && (code c <=? hi).

(** [str.isspace] on U+0000..U+00FF; also the class [\s] of [re]. *)
Definition isspace (c : ascii) : bool :=
  in_range 9 13 c || in_range 28 32 c || (code c =? 133) || (code c =? 160).

(** The line boundaries of [str.splitlines] on U+0000..U+00FF. *)
Definition is_linebreak (c : ascii) : bool :=
  in_range 10 13 c || in_range 28 30 c || (code c =? 133).

(** Characters with the Uppercase property on U+0000..U+00FF. *)
Definition isupper (c : ascii) : bool :=
  in_range 65 90 c || (in_range 192 222 c && negb (code c =? 215)).

Definition lower_char (c : ascii) : ascii :=
  if isupper c then ascii_of_N (code c + 32) else c.

Definition lower (s : str) : str := map lower_char s.

Fixpoint drop_while {A} (f : A -> bool) (s : list A) : list A :=
  match s with
  | c :: s' => if f c then drop_while f s' else s
  | [] => []
  end.

Fixpoint take_while {A} (f : A -> bool) (s : list A) : list A :=
  match s with
  | c :: s' => if f c then c :: take_while f s' else []
  | [] => []
  end.

(** [str.strip()] with no argument: whitespace is removed at both ends. *)
Definition lstrip (s : str) : str := drop_while isspace s.
Definition rstrip (s : str) : str := rev (drop_while isspace (rev s)).
Definition strip (s : str) : str := rstrip (lstrip s).

Definition is_empty {A} (s : list A) : bool :=
  match s with [] => true | _ => false end.

Definition ascii_eqb (a b : ascii) : bool := Ascii.eqb a b.

Fixpoint starts_with {A} (eqb : A -> A -> bool) (p s : list A) : bool :=
  match p, s with
  | [], _ => true
  | a :: p', b :: s' => eqb a b && starts_with eqb p' s'
  | _ :: _, [] => false
  end.

Definition ends_with {A} (eqb : A -> A -> bool) (p s : list A) : bool :=
  starts_with eqb (rev p) (rev s).

(** [needle in s] *)
Fixpoint contains (needle s : str) : bool :=
  starts_with ascii_eqb needle s ||
  match s with
  | _ :: s' => contains needle s'
  | [] => false
  end.

(** [s.removeprefix(p)] and [s.removesuffix(p)] *)
Definition removeprefix (p s : str) : str :=
  if starts_with ascii_eqb p s then drop (length p) s else s.

Definition removesuffix (p s : str) : str :=
  if ends_with ascii_eqb p s then take (length s - length p) s else s.

(** [sep.join(parts)] *)
Fixpoint join {A} (sep : list A) (parts : list (list A)) : list A :=
  match parts with
  | [] => []
  | [x] => x
  | x :: rest => x ++ sep ++ join sep rest
  end.

(** [s.split(sep)] for a one-character separator: never an empty list. *)
Fixpoint split_on {A} (is_sep : A -> bool) (s : list A) : list (list A) :=
  match s with
  | [] => [[]]
  | c :: s' =>
      if is_sep c then [] :: split_on is_sep s'
      else match split_on is_sep s' with
           | x :: rest => (c :: x) :: rest
           | [] => [[c]]
           end
  end.

(** [s.splitlines()]: a line ends at a line boundary, [\r\n] counts as one
    boundary, and text after the last boundary is a line only when it is
    not empty.  [cur] is the current line, reversed. *)
Fixpoint splitlines_from (cur : str) (s : str) : list str :=
  match s with
  | [] => if is_empty cur then [] else [rev cur]
  | c :: s' =>
      if is_linebreak c then
        rev cur ::
        match s' with
        | d :: s'' =>
            if ascii_eqb c cr && ascii_eqb d nl
            then splitlines_from [] s''
            else splitlines_from [] s'
        | [] => []
        end
      else splitlines_from (c :: cur) s'
  end.

Definition splitlines (s : str) : list str := splitlines_from [] s.

(** ** The regular expression of [extract_url_lines]

    A backtracking matcher, as [re] is, for the fragment the pattern
    needs: [^] in MULTILINE mode, single characters and classes, and the
    greedy and lazy stars of a single character or class. *)

Inductive atom : Type :=
  | ALit (c : ascii)     (* a literal character *)
  | ASpace               (* \s *)
  | ADot.                (* . without DOTALL: anything but \n *)

Inductive node : Type :=
  | NBol                 (* ^ with re.MULTILINE *)
  | NOne (a : atom)
  | NStar (a : atom)     (* a* *)
  | NLazy (a : atom).    (* a*? *)

Definition atom_ok (a : atom) (c : ascii) : bool :=
  match a with
  | ALit d => ascii_eqb d c
  | ASpace => isspace c
  | ADot => negb (ascii_eqb c nl)
  end.

Definition is_nl (c : ascii) : bool := ascii_eqb c nl.

Definition consume (c : ascii) (r : option (str * str)) : option (str * str) :=
  match r with
  | Some (m, rest) => Some (c :: m, rest)
  | None => None
  end.

(** [rmatch p bol s] matches [p] at the start of [s]; [bol] tells whether
    that position is the start of the text or follows a newline.  The
    result is the matched text and what follows it. *)
Fixpoint rmatch (p : list node) (bol : bool) (s : str) {struct p}
  : option (str * str) :=
  match p with
  | [] => Some ([], s)
  | NBol :: p' => if bol then rmatch p' bol s else None
  | NOne a :: p' =>
      match s with
      | c :: s' => if atom_ok a c then consume c (rmatch p' (is_nl c) s') else None
      | [] => None
      end
  | NStar a :: p' =>
      (fix greedy (bol : bool) (s : str) {struct s} : option (str * str) :=
         match s with
         | c :: s' =>
             if atom_ok a c then
               match greedy (is_nl c) s' with
               | Some (m, rest) => Some (c :: m, rest)
               | None => rmatch p' bol s
               end
             else rmatch p' bol s
         | [] => rmatch p' bol []
         end) bol s
  | NLazy a :: p' =>
      (fix lazy (bol : bool) (s : str) {struct s} : option (str * str) :=
         match rmatch p' bol s with
         | Some r => Some r
         | None =>
             match s with
             | c :: s' => if atom_ok a c then consume c (lazy (is_nl c) s') else None
             | [] => None
             end
         end) bol s
  end.

(** [pattern.findall(text)] for a pattern without groups: scan from the
    left, and after a match go on where it ended.  [skip] counts the
    characters of the last match still to be passed.  (After an empty
    match the scan moves one character on; the pattern below never matches
    the empty text.) *)
Fixpoint findall_from (p : list node) (skip : nat) (bol : bool) (s : str)
  : list str :=
  match skip with
  | S k =>
      match s with
      | c :: s' => findall_from p k (is_nl c) s'
      | [] => []
      end
  | O =>
      match rmatch p bol s with
      | Some (m, _) =>
          m :: match s with
               | c :: s' => findall_from p (length m - 1) (is_nl c) s'
               | [] => []
               end
      | None =>
          match s with
          | c :: s' => findall_from p 0 (is_nl c) s'
          | [] => []
          end
      end
  end.

Definition findall (p : list node) (text : str) : list str :=
  findall_from p 0 true text.

Definition lits (s : str) : list node := map (fun c => NOne (ALit c)) s.

(** [re.compile(r'^\s*"url":\s*".*?"', re.MULTILINE)] *)
Definition url_pattern : list node :=
  NBol :: NStar ASpace :: lits (qlit "'url':")
  ++ NStar ASpace :: NOne (ALit dq) :: NLazy ADot :: NOne (ALit dq) :: [].

(** ** The text pipeline of [main.py] *)

Definition extract_url_lines (text : str) : list str :=
  findall url_pattern text.

(** [list(set(provided_slice.splitlines()))]: the lines of the text, each
    once, in the order the set happens to give. *)
Definition remove_duplicates_from_slice (provided_slice : str) : list str :=
  elements (list_to_set (splitlines provided_slice) : gset str).

Definition remove_whitespace_from_slice (provided_slice : list str) : list str :=
  map strip (filter (fun line => negb (is_empty (strip line))) provided_slice).

Definition convert_uppercase_to_lowercase (provided_slice : list str) : list str :=
  map lower provided_slice.

(** Lines 202 to 211 of [main]. *)
Definition normalize (url_lines : list str) : list str :=
  let url_lines := remove_whitespace_from_slice url_lines in
  let url_lines := convert_uppercase_to_lowercase url_lines in
  remove_duplicates_from_slice (join [nl] url_lines).

Definition selected (line : str) : bool :=
  contains (lit ".pdf") line || contains (lit ".docx") line.

Definition url_prefix : str := qlit "'url': '".
Definition thumb_suffix : str := qlit ".thumb.319.319.png'".

(** Lines 221 and 223 of [main]. *)
Definition trim_line (line : str) : str :=
  removesuffix thumb_suffix (removeprefix url_prefix line).

(** ** Exceptions *)

Inductive request_error : Type :=
  | ConnectionError          (* no response: DNS, refused, timeout, bad URL *)
  | HTTPError (status : N)   (* raised by raise_for_status *)
  | StreamError.             (* the body broke off while it was read *)

Inductive exn : Type :=
  | ValueError
  | OSError
  | RequestException (e : request_error)
  | RuntimeError
  | FileDataError            (* fitz: subclass of RuntimeError *)
  | EmptyFileError           (* fitz: subclass of FileDataError *)
  | FitzFileNotFoundError.   (* fitz: subclass of RuntimeError *)

Inductive result (A : Type) : Type :=
  | Ok (a : A)
  | Raise (e : exn).
Arguments Ok {A} a.
Arguments Raise {A} e.

Definition is_RequestException (e : exn) : bool :=
  match e with RequestException _ => true | _ => false end.

Definition is_RuntimeError (e : exn) : bool :=
  match e with
  | RuntimeError | FileDataError | EmptyFileError | FitzFileNotFoundError => true
  | _ => false
  end.

(** ** Paths *)

(** The text after the last character satisfying [f], if there is one. *)
Fixpoint after_last {A} (f : A -> bool) (s : list A) : option (list A) :=
  match s with
  | [] => None
  | c :: s' =>
      match after_last f s' with
      | Some r => Some r
      | None => if f c then Some s' else None
      end
  end.

(** [posixpath.basename]: [p[p.rfind('/') + 1:]] *)
Definition basename {A} (is_slash : A -> bool) (p : list A) : list A :=
  match after_last is_slash p with
  | Some r => r
  | None => p
  end.

Definition is_slash (c : ascii) : bool := ascii_eqb c "/"%char.
Definition is_uslash (c : N) : bool := c =? 47.

(** [posixpath.join(a, b)] *)
Definition path_join (a b : ustr) : ustr :=
  if starts_with N.eqb [47] b then b
  else if is_empty a || ends_with N.eqb [47] a then a ++ b
  else a ++ [47] ++ b.

(** ** [urllib.parse] *)

Definition char_in (set : str) (c : ascii) : bool := existsb (ascii_eqb c) set.

Definition is_ascii_alpha (c : ascii) : bool :=
  in_range 65 90 c || in_range 97 122 c.

(** [scheme_chars]: letters, digits and [+-.] *)
Definition is_scheme_char (c : ascii) : bool :=
  is_ascii_alpha c || in_range 48 57 c || char_in (lit "+-.") c.

(** [_WHATWG_C0_CONTROL_OR_SPACE] and [_UNSAFE_URL_BYTES_TO_REMOVE] *)
Definition is_c0_or_space (c : ascii) : bool := code c <=? 32.
Definition is_unsafe_url_char (c : ascii) : bool :=
  (code c =? 9) || (code c =? 10) || (code c =? 13).

Definition str_eqb (a b : str) : bool := bool_decide (a = b).

Definition uses_params : list str :=
  map lit [""; "ftp"; "hdl"; "prospero"; "http"; "imap"; "https"; "shttp";
           "rtsp"; "rtspu"; "sip"; "sips"; "mms"; "sftp"; "tel"]%string.

(** The scheme, lowercased, and what follows its colon; no scheme when the
    text before the first colon is empty, does not start with a letter or
    holds a character that is no scheme character. *)
Definition split_scheme (url : str) : str * str :=
  let head := take_while (fun c => negb (ascii_eqb c ":"%char)) url in
  if char_in url ":"%char
     && match head with c :: _ => is_ascii_alpha c | [] => false end
     && forallb is_scheme_char head
  then (lower head, drop (S (length head)) url)
  else ([], url).

(** [_splitparams]: the parameters start at the first [;] of the last path
    segment. *)
Definition splitparams (url : str) : str :=
  let seg := basename is_slash url in
  take (length url - length seg) url
  ++ take_while (fun c => negb (ascii_eqb c ";"%char)) seg.

Section UrlParse.

(** The check of a network location that holds both brackets
    ([_check_bracketed_host], through [ipaddress]): it is not part of
    the sources and is taken as given. *)
Variable bracketed_host_ok : str -> bool.

Definition check_brackets (netloc : str) : bool :=
  let l := char_in netloc "["%char in
  let r := char_in netloc "]"%char in
  if l && r then bracketed_host_ok netloc
  else negb (l || r).

(** [urlparse(url).path].  [ValueError] is what [urlsplit] raises for a
    network location with unbalanced or ill-filled brackets.  (Its other
    check, on the NFKC form of a non-ASCII network location, never fires
    below U+0100.) *)
Definition urlparse_path (url : str) : result str :=
  let url := drop_while is_c0_or_space url in
  let url := filter (fun c => negb (is_unsafe_url_char c)) url in
  let '(scheme, url) := split_scheme url in
  let is_delim := char_in (lit "/?#") in
  let has_netloc := starts_with ascii_eqb (lit "//") url in
  let netloc :=
    if has_netloc then take_while (fun c => negb (is_delim c)) (drop 2 url)
    else [] in
  let url :=
    if has_netloc then drop_while (fun c => negb (is_delim c)) (drop 2 url)
    else url in
  if negb (check_brackets netloc) then Raise ValueError
  else
    let url := take_while (fun c => negb (ascii_eqb c "#"%char)) url in
    let url := take_while (fun c => negb (ascii_eqb c "?"%char)) url in
    let url :=
      if existsb (str_eqb scheme) uses_params && char_in url ";"%char
      then splitparams url else url in
    Ok url.

End UrlParse.

(** *** [unquote] *)

Definition is_hexdig (c : ascii) : bool :=
  in_range 48 57 c || in_range 65 70 c || in_range 97 102 c.

Definition hexval (c : ascii) : N :=
  if in_range 48 57 c then code c - 48
  else if in_range 65 70 c then code c - 55
  else code c - 87.

(** One piece after a [%] in [_unquote_impl]: two hex digits give a byte,
    anything else keeps its [%]. *)
Definition unquote_item (item : str) : list N :=
  match item with
  | a :: b :: rest =>
      if is_hexdig a && is_hexdig b
      then (16 * hexval a + hexval b) :: widen rest
      else 37 :: widen item
  | _ => 37 :: widen item
  end.

(** [_unquote_impl] on ASCII text: the bytes after percent-decoding. *)
Definition unquote_to_bytes (s : str) : list N :=
  match split_on (fun c => ascii_eqb c "%"%char) s with
  | first :: items => widen first ++ flat_map unquote_item items
  | [] => []
  end.

Definition replacement : N := 65533.   (* U+FFFD *)

Definition is_cont (b : N) : bool := (128 <=? b) && (b <=? 191).

(** The second byte allowed after the lead byte [b0] of a sequence of
    three or four bytes. *)
Definition second_ok (b0 b1 : N) : bool :=
  if b0 =? 224 then (160 <=? b1) && (b1 <=? 191)
  else if b0 =? 237 then (128 <=? b1) && (b1 <=? 159)
  else if b0 =? 240 then (144 <=? b1) && (b1 <=? 191)
  else if b0 =? 244 then (128 <=? b1) && (b1 <=? 143)
  else is_cont b1.

(** [bytes.decode('utf-8', 'replace')]: every maximal ill-formed piece
    becomes one U+FFFD. *)
Fixpoint utf8_decode (bs : list N) : ustr :=
  match bs with
  | [] => []
  | b0 :: r0 =>
      if b0 <? 128 then b0 :: utf8_decode r0
      else if (b0 <? 194) || (244 <? b0) then replacement :: utf8_decode r0
      else if b0 <? 224 then
        match r0 with
        | b1 :: r1 =>
            if is_cont b1
            then ((b0 - 192) * 64 + (b1 - 128)) :: utf8_decode r1
            else replacement :: utf8_decode r0
        | [] => [replacement]
        end
      else if b0 <? 240 then
        match r0 with
        | b1 :: r1 =>
            if second_ok b0 b1 then
              match r1 with
              | b2 :: r2 =>
                  if is_cont b2
                  then ((b0 - 224) * 4096 + (b1 - 128) * 64 + (b2 - 128))
                       :: utf8_decode r2
                  else replacement :: utf8_decode r1
              | [] => [replacement]
              end
            else replacement :: utf8_decode r0
        | [] => [replacement]
        end
      else
        match r0 with
        | b1 :: r1 =>
            if second_ok b0 b1 then
              match r1 with
              | b2 :: r2 =>
                  if is_cont b2 then
                    match r2 with
                    | b3 :: r3 =>
                        if is_cont b3
                        then ((b0 - 240) * 262144 + (b1 - 128) * 4096
                              + (b2 - 128) * 64 + (b3 - 128))
                             :: utf8_decode r3
                        else replacement :: utf8_decode r2
                    | [] => [replacement]
                    end
                  else replacement :: utf8_decode r1
              | [] => [replacement]
              end
            else replacement :: utf8_decode r0
        | [] => [replacement]
        end
  end.

(** An ASCII run (held reversed) is percent-decoded and then UTF-8
    decoded. *)
Definition unquote_run (run : str) : ustr :=
  utf8_decode (unquote_to_bytes (rev run)).

(** [_generate_unquoted_parts]: characters from U+0080 on pass unchanged
    between the ASCII runs. *)
Fixpoint unquote_parts (run : str) (s : str) : ustr :=
  match s with
  | [] => unquote_run run
  | c :: s' =>
      if code c <? 128 then unquote_parts (c :: run) s'
      else unquote_run run ++ code c :: unquote_parts [] s'
  end.

(** [urllib.parse.unquote(string)] *)
Definition unquote (s : str) : ustr :=
  if negb (char_in s "%"%char) then widen s
  else unquote_parts [] s.

Section Filename.

Variable bracketed_host_ok : str -> bool.

Definition url_to_filename (url : str) : result ustr :=
  match urlparse_path bracketed_host_ok url with
  | Ok path =>
      let filename := basename is_slash path in
      Ok (unquote filename)
  | Raise e => Raise e
  end.

End Filename.

(** ** The world: files, requests made, console *)

Inductive entry : Type :=
  | File (content : str)
  | Dir.

Inductive msg : Type :=
  | MExists (path : ustr)               (* File already exists: ... *)
  | MDownloaded (path : ustr)           (* Downloaded: ... *)
  | MFailed (url : str) (e : exn)       (* Failed to download ...: ... *)
  | MNoPages (path : ustr)              (* ... is corrupt or invalid: No pages *)
  | MError (e : exn)                    (* the message of a caught exception *)
  | MInvalid (path : ustr)              (* Invalid PDF detected: .... Deleting file. *)
  | MUppercase (path : ustr).           (* Uppercase letter found in filename: ... *)

(** The files are kept under their absolute path, a list of names from the
    root; [cwd] is the working directory, which exists with all the
    directories above it.  There are no links and no permissions.
    [requests] lists the URLs of the GET requests sent, [stdout] what was
    printed, both oldest first. *)
Record world : Type := World {
  cwd : list ustr;
  fs : gmap (list ustr) entry;
  requests : list str;
  stdout : list msg
}.

Definition M (A : Type) : Type := world -> result A * world.

Definition ret {A} (a : A) : M A := fun w => (Ok a, w).
Definition raise {A} (e : exn) : M A := fun w => (Raise e, w).
Definition lift {A} (r : result A) : M A := fun w => (r, w).

Definition bind {A B} (m : M A) (k : A -> M B) : M B :=
  fun w =>
    match m w with
    | (Ok a, w') => k a w'
    | (Raise e, w') => (Raise e, w')
    end.

Notation "x <- m ;; k" := (bind m (fun x => k))
  (at level 100, m at level 99, k at level 100, right associativity).
Notation "m ;;; k" := (bind m (fun _ => k))
  (at level 100, k at level 100, right associativity).

(** [try: body  except C as e: handler e], where [catches] decides
    [isinstance(e, C)]. *)
Definition try_except {A} (body : M A) (catches : exn -> bool)
    (handler : exn -> M A) : M A :=
  fun w =>
    match body w with
    | (Raise e, w') => if catches e then handler e w' else (Raise e, w')
    | r => r
    end.

Definition print (m : msg) : M unit :=
  fun w => (Ok tt, World (cwd w) (fs w) (requests w) (stdout w ++ [m])).

Definition set_fs (f : gmap (list ustr) entry) : M unit :=
  fun w => (Ok tt, World (cwd w) f (requests w) (stdout w)).

Definition get_world : M world := fun w => (Ok w, w).

(** Every loop of the program: the body runs on each element in turn, and
    an exception ends the loop. *)
Fixpoint for_each {A} (l : list A) (body : A -> M unit) : M unit :=
  match l with
  | [] => ret tt
  | x :: l' => body x ;;; for_each l' body
  end.

(** *** Path resolution *)

Definition components (p : ustr) : list ustr := split_on is_uslash p.

(** One component applied to the directory reached so far, held with its
    last name first. *)
Definition step (st : list ustr) (c : ustr) : list ustr :=
  if is_empty c || bool_decide (c = ulit ".") then st
  else if bool_decide (c = ulit "..") then tail st
  else c :: st.

Definition base_of (cwd : list ustr) (p : ustr) : list ustr :=
  if starts_with N.eqb [47] p then [] else rev cwd.

(** The absolute path a spelling stands for. *)
Definition resolve (cwd : list ustr) (p : ustr) : list ustr :=
  rev (fold_left step (components p) (base_of cwd p)).

Definition entry_at (cwd : list ustr) (f : gmap (list ustr) entry)
    (k : list ustr) : option entry :=
  if bool_decide (k `prefix_of` cwd) then Some Dir else f !! k.

(** Every component but the last leads into a directory. *)
Fixpoint walkable (cwd : list ustr) (f : gmap (list ustr) entry)
    (st : list ustr) (cs : list ustr) : bool :=
  match cs with
  | [] => true
  | c :: cs' =>
      if is_empty cs' then true
      else
        match entry_at cwd f (rev (step st c)) with
        | Some Dir => walkable cwd f (step st c) cs'
        | _ => false
        end
  end.

Definition has_nul (p : ustr) : bool := existsb (N.eqb 0) p.

Definition reachable (w : world) (p : ustr) : bool :=
  negb (is_empty p) && negb (has_nul p)
  && walkable (cwd w) (fs w) (base_of (cwd w) p) (components p).

(** What a path names, if anything. *)
Definition stat (w : world) (p : ustr) : option entry :=
  if reachable w p then entry_at (cwd w) (fs w) (resolve (cwd w) p) else None.

(** A path whose last component is empty, [.] or [..] can only name a
    directory. *)
Definition names_directory (p : ustr) : bool :=
  let b := basename is_uslash p in
  is_empty b || bool_decide (b = ulit ".") || bool_decide (b = ulit "..").

(** *** File system calls *)

(** [os.path.isfile]: false, never an exception, when there is no regular
    file. *)
Definition isfile (w : world) (p : ustr) : bool :=
  match stat w p with
  | Some (File _) => true
  | _ => false
  end.

Definition put (p : ustr) (e : entry) : M unit :=
  fun w => set_fs (<[resolve (cwd w) p := e]> (fs w)) w.

Definition unlink (p : ustr) : M unit :=
  fun w => set_fs (delete (resolve (cwd w) p) (fs w)) w.

(** A file can be created under the path. *)
Definition creatable (w : world) (p : ustr) : bool :=
  reachable w p && negb (names_directory p).

(** [os.makedirs(name, exist_ok=True)] for a name of one component. *)
Definition makedirs_exist_ok (name : ustr) : M unit :=
  w <- get_world ;;
  match stat w name with
  | Some (File _) => raise OSError
  | Some Dir => ret tt
  | None => put name Dir
  end.

(** [open(file, "wb")]: the file is created, or emptied. *)
Definition open_wb (p : ustr) : M unit :=
  w <- get_world ;;
  if has_nul p then raise ValueError
  else match stat w p with
       | Some Dir => raise OSError
       | Some (File _) => put p (File [])
       | None => if creatable w p then put p (File []) else raise OSError
       end.

(** [file.write(data)] on a file that is open for writing. *)
Definition write_to (p : ustr) (data : str) : M unit :=
  w <- get_world ;;
  match fs w !! resolve (cwd w) p with
  | Some (File old) => put p (File (old ++ data))
  | _ => raise OSError
  end.

(** [open(file, "a")]: the file is created if it is missing, and kept as
    it is otherwise. *)
Definition open_a (p : ustr) : M unit :=
  w <- get_world ;;
  if has_nul p then raise ValueError
  else match stat w p with
       | Some Dir => raise OSError
       | Some (File _) => ret tt
       | None => if creatable w p then put p (File []) else raise OSError
       end.

(** [os.remove] *)
Definition os_remove (p : ustr) : M unit :=
  w <- get_world ;;
  if has_nul p then raise ValueError
  else if isfile w p then unlink p
  else raise OSError.

(** Reading in text mode: [\r\n] and a lone [\r] come out as [\n]. *)
Fixpoint universal_newlines (s : str) : str :=
  match s with
  | [] => []
  | c :: s' =>
      if ascii_eqb c cr then
        nl :: match s' with
              | d :: s'' =>
                  if ascii_eqb d nl then universal_newlines s''
                  else universal_newlines s'
              | [] => []
              end
      else c :: universal_newlines s'
  end.

Section Reading.

(** The text the bytes of a file stand for in the encoding of the locale;
    [None] when they are no text in it. *)
Variable decode : str -> option str.

(** [open(file, "r").read()]: the bytes of the file are decoded, which
    raises [UnicodeDecodeError], a [ValueError], when they are no text,
    and the line ends are translated. *)
Definition read_a_file (system_path : ustr) : M str :=
  w <- get_world ;;
  if has_nul system_path then raise ValueError
  else match stat w system_path with
       | Some (File content) =>
           match decode content with
           | Some text => ret (universal_newlines text)
           | None => raise ValueError
           end
       | _ => raise OSError
       end.

End Reading.

Definition append_write_to_file (system_path : ustr) (content : str) : M unit :=
  open_a system_path ;;;
  write_to system_path content.

Definition check_file_exists (system_path : ustr) : M bool :=
  w <- get_world ;; ret (isfile w system_path).

Definition remove_system_file (system_path : ustr) : M unit :=
  os_remove system_path.

Definition get_filename_and_extension (path : ustr) : ustr :=
  basename is_uslash path.

(** ** The downloader *)

(** What [requests.get(url, stream=True)] comes to: a request exception,
    a response with its status and the chunks [iter_content] yields
    ([broken] tells that the stream raises after the last of them), or an
    exception that [requests] lets through as it is, such as the
    [LocationParseError] of [urllib3], a [ValueError], for a host name with
    an empty label. *)
Inductive http_result : Type :=
  | GetRaises (e : request_error)
  | Response (status : N) (chunks : list str) (broken : bool)
  | GetRaisesOther (e : exn).

Definition save_folder : ustr := ulit "PDFs".
Definition new_file_name : ustr := ulit "extracted_urls.txt".

Section Download.

Variable bracketed_host_ok : str -> bool.

(** The network: the answer to a GET may depend on the requests made
    before it. *)
Variable net : list str -> str -> http_result.

Definition requests_get (url : str) : M http_result :=
  fun w => (Ok (net (requests w) url),
            World (cwd w) (fs w) (requests w ++ [url]) (stdout w)).

(** [response.raise_for_status()] *)
Definition raise_for_status (status : N) : M unit :=
  if (400 <=? status) && (status <? 600)
  then raise (RequestException (HTTPError status))
  else ret tt.

Definition download_pdf (pdf_url : str) (local_file_path : ustr) : M unit :=
  try_except
    (makedirs_exist_ok save_folder ;;;
     filename <- lift (url_to_filename bracketed_host_ok pdf_url) ;;
     let local_file_path := path_join save_folder filename in
     exists_ <- check_file_exists local_file_path ;;
     if exists_ then print (MExists local_file_path)
     else
       response <- requests_get pdf_url ;;
       match response with
       | GetRaises e => raise (RequestException e)
       | GetRaisesOther e => raise e
       | Response status chunks broken =>
           raise_for_status status ;;;
           open_wb local_file_path ;;;
           for_each chunks (fun chunk =>
             if negb (is_empty chunk) then write_to local_file_path chunk
             else ret tt) ;;;
           (if broken then raise (RequestException StreamError) else ret tt) ;;;
           print (MDownloaded local_file_path)
       end)
    is_RequestException
    (fun error => print (MFailed pdf_url error)).

(** The body of the loop of [main], lines 217 to 229. *)
Definition process_line (line : str) : M unit :=
  if selected line then
    let line := removeprefix url_prefix line in
    let line := removesuffix thumb_suffix line in
    filename <- lift (url_to_filename bracketed_host_ok line) ;;
    download_pdf line filename ;;;
    append_write_to_file new_file_name (line ++ [nl])
  else ret tt.

Definition process_lines (url_lines : list str) : M unit :=
  for_each url_lines process_line.

(** [main] from the text of the HAR file to the end of the download
    loop, lines 202 to 229. *)
Definition main_download (file_content : str) : M unit :=
  let url_lines := extract_url_lines file_content in
  let url_lines := remove_whitespace_from_slice url_lines in
  let url_lines := convert_uppercase_to_lowercase url_lines in
  let url_lines := remove_duplicates_from_slice (join [nl] url_lines) in
  process_lines url_lines.

End Download.

(** ** The validator *)

Section Validate.

(** The PDF parser behind [fitz.open]: the number of pages of a
    non-empty file, or [None] when the file cannot be opened. *)
Variable pdf_pages : ustr -> str -> option N.

(** The Uppercase property from U+0100 on. *)
Variable isupper_wide : N -> bool.

(** [fitz.open(file_path).page_count]; the three exceptions are the ones
    PyMuPDF raises for a path, each a [RuntimeError]. *)
Definition fitz_page_count (file_path : ustr) : M N :=
  w <- get_world ;;
  if is_empty file_path then ret 0       (* a new, empty document *)
  else match stat w file_path with
       | None => raise FitzFileNotFoundError
       | Some Dir => raise FileDataError
       | Some (File []) => raise EmptyFileError
       | Some (File content) =>
           match pdf_pages file_path content with
           | Some n => ret n
           | None => raise FileDataError
           end
       end.

Definition validate_pdf_file (file_path : ustr) : M bool :=
  try_except
    (page_count <- fitz_page_count file_path ;;
     if page_count =? 0 then
       print (MNoPages file_path) ;;;
       ret false
     else ret true)
    is_RuntimeError
    (fun e => print (MError e) ;;; ret false).

Definition uisupper (c : N) : bool :=
  if c <? 256 then isupper (ascii_of_N c) else isupper_wide c.

Definition check_upper_case_letter (content : ustr) : bool :=
  existsb uisupper content.

(** The body of the second loop of [main], lines 236 to 248. *)
Definition sweep_file (pdf_file : ustr) : M unit :=
  valid <- validate_pdf_file pdf_file ;;
  (if negb valid then
     print (MInvalid pdf_file) ;;;
     remove_system_file pdf_file
   else ret tt) ;;;
  if check_upper_case_letter (get_filename_and_extension pdf_file)
  then print (MUppercase pdf_file)
  else ret tt.

Definition sweep (files : list ustr) : M unit :=
  for_each files sweep_file.

End Validate.


(** ** Listing the folder, and [main] *)

(** [os.path.abspath] of a file found under its absolute path. *)
Definition abspath_of (k : list ustr) : ustr :=
  concat (map (fun name => 47 :: name) k).

(** [os.walk] reaches the file under [k] from [root], and its name ends
    with the extension. *)
Definition listed (w : world) (root : list ustr) (extension : ustr)
    (k : list ustr) : bool :=
  bool_decide (root `prefix_of` k) && negb (bool_decide (k = root))
  && ends_with N.eqb extension (default [] (last k))
  && isfile w (abspath_of k)
  && bool_decide (resolve (cwd w) (abspath_of k) = k).

(** [posixpath.normpath] keeps two leading slashes, and only two. *)
Definition two_slashes (p : ustr) : bool :=
  starts_with N.eqb [47; 47] p && negb (starts_with N.eqb [47; 47; 47] p).

(** [os.path.abspath(os.path.join(root, file))] for the file under [k],
    found by a walk from [top]. *)
Definition spelled (top : ustr) (k : list ustr) : ustr :=
  if two_slashes top then 47 :: abspath_of k else abspath_of k.

(** The files under [system_path] whose name ends with [extension], by
    their absolute paths.  [os.walk] raises [ValueError] for a path with a
    NUL character, and lists nothing when the path does not lead to a
    directory (the [OSError] of [scandir] is dropped).  The order is the
    one the file system gives; the model takes that of the map. *)
Definition walk_directory_and_extract_given_file_extension
    (system_path extension : ustr) : M (list ustr) :=
  w <- get_world ;;
  if has_nul system_path then raise ValueError
  else match stat w system_path with
       | Some Dir =>
           ret (map (spelled system_path)
                  (filter (fun k => listed w (resolve (cwd w) system_path)
                                      extension k)
                          (map fst (map_to_list (fs w)))))
       | _ => ret []
       end.

Definition har_file_path : ustr := ulit "www.dupont.com.har".

Section Main.

Variable bracketed_host_ok : str -> bool.
Variable net : list str -> str -> http_result.
Variable pdf_pages : ustr -> str -> option N.
Variable isupper_wide : N -> bool.
Variable decode : str -> option str.

Definition main : M unit :=
  file_content <- read_a_file decode har_file_path ;;
  main_download bracketed_host_ok net file_content ;;;
  files <- walk_directory_and_extract_given_file_extension
             (ulit "./PDFs") (ulit ".pdf") ;;
  sweep pdf_pages isupper_wide files.

End Main.

(** ** Vocabulary of the statements *)

(** Where [download_pdf] saves the file of a URL whose file name is [f]. *)
Definition target (f : ustr) : ustr := path_join save_folder f.

(** [os.makedirs("PDFs", exist_ok=True)] does not raise: no regular file
    is in the way. *)
Definition folder_ok (w : world) : bool :=
  match stat w save_folder with
  | Some (File _) => false
  | _ => true
  end.

(** The world once that call has returned. *)
Definition after_makedirs (w : world) : world :=
  match stat w save_folder with
  | None => World (cwd w) (<[resolve (cwd w) save_folder := Dir]> (fs w))
                  (requests w) (stdout w)
  | Some _ => w
  end.

(** [open(p, "wb")] does not raise. *)
Definition can_open (w : world) (p : ustr) : bool :=
  negb (has_nul p) &&
  match stat w p with
  | Some Dir => false
  | Some (File _) => true
  | None => creatable w p
  end.

Definition is_http_error (status : N) : bool :=
  (400 <=? status) && (status <? 600).

(** The request error a GET ends in, if it does: a request exception, or
    a status from 400 to 599. *)
Definition request_failure (r : http_result) : option request_error :=
  match r with
  | GetRaises e => Some e
  | Response status _ _ =>
      if is_http_error status then Some (HTTPError status) else None
  | GetRaisesOther (RequestException e) => Some e
  | GetRaisesOther _ => None
  end.

Definition is_2xx (status : N) : bool := (200 <=? status) && (status <? 300).

(** The paths reported for an uppercase letter, and those reported as
    invalid, in the order of the reports. *)
Definition flagged (log : list msg) : list ustr :=
  omap (fun m => match m with MUppercase p => Some p | _ => None end) log.

Definition reported_invalid (log : list msg) : list ustr :=
  omap (fun m => match m with MInvalid p => Some p | _ => None end) log.

(** The file under [p] opens and has a page. *)
Definition valid_in (pdf_pages : ustr -> str -> option N) (w : world)
    (p : ustr) : bool :=
  match stat w p with
  | Some (File (c :: content)) =>
      match pdf_pages p (c :: content) with
      | Some n => negb (n =? 0)
      | None => false
      end
  | _ => false
  end.

(** What [fitz.open(p).page_count] gives: the number of pages, or the
    exception. *)
Definition opened (pdf_pages : ustr -> str -> option N) (w : world)
    (p : ustr) : result N :=
  (fitz_page_count pdf_pages p w).1.

(** A plain name: one component that is not empty, [.] or [..]. *)
Definition plain_name (n : ustr) : bool :=
  bool_decide (components n = [n]) && negb (has_nul n)
  && negb (is_empty n) && negb (bool_decide (n = ulit "."))
  && negb (bool_decide (n = ulit "..")).

(** The manifest, as far as it is a regular file. *)
Definition manifest (w : world) : str :=
  match fs w !! (cwd w ++ [new_file_name]) with
  | Some (File c) => c
  | _ => []
  end.

(** The URLs the loop of [main] is to download, in its order. *)
Definition selected_urls (url_lines : list str) : list str :=
  map trim_line (filter (fun line => selected line) url_lines).

(** What the loop writes for them: each URL and a newline.  [xs] holds,
    for each URL, what its download put under the manifest path before the
    URL was written (nothing, unless the download was aimed there). *)
Definition manifest_growth (xs urls : list str) : str :=
  concat (zip_with (fun x u => x ++ u ++ [nl]) xs urls).

(** No download of the run is aimed at the manifest itself. *)
Definition spares_manifest (bracketed_host_ok : str -> bool)
    (w : world) (url_lines : list str) : Prop :=
  forall line f,
    line ∈ url_lines -> selected line = true ->
    url_to_filename bracketed_host_ok (trim_line line) = Ok f ->
    resolve (cwd w) (target f) ≠ cwd w ++ [new_file_name].

(** The same, as a check that can be run. *)
Definition spares_manifest_b (bracketed_host_ok : str -> bool)
    (w : world) (url_lines : list str) : bool :=
  forallb (fun line =>
    negb (selected line) ||
    match url_to_filename bracketed_host_ok (trim_line line) with
    | Ok f => negb (bool_decide
                (resolve (cwd w) (target f) = cwd w ++ [new_file_name]))
    | Raise _ => true
    end) url_lines.

(** *** Sample data *)

(** A working directory [/srv/job] with no files. *)
Definition w_empty : world := World [ulit "srv"; ulit "job"] ∅ [] [].

Definition any_brackets : str -> bool := fun _ => true.

Definition net_pdf : list str -> str -> http_result :=
  fun _ _ => Response 200 [lit "%PDF"; []; lit "-1.4"] false.

Definition net_down : list str -> str -> http_result :=
  fun _ _ => GetRaises ConnectionError.


Definition net_status (status : N) : list str -> str -> http_result :=
  fun _ _ => Response status [lit "<html>"] false.

Definition url_a : str := lit "https://example.com/a.pdf".

(** A parser that opens what starts with [%PDF], and finds one page. *)
Definition pages_sample : ustr -> str -> option N :=
  fun _ content =>
    if starts_with ascii_eqb (lit "%PDF") content then Some 1 else None.

Definition no_wide_upper : N -> bool := fun _ => false.

(** Bytes below 128 stand for themselves; others are taken as no text. *)
Definition as_written : str -> option str :=
  fun content =>
    if forallb (fun c => code c <? 128) content then Some content else None.

(** [/srv/job/PDFs] with two sound files and an empty one. *)
Definition w_three : world :=
  World [ulit "srv"; ulit "job"]
        {[ [ulit "srv"; ulit "job"; ulit "PDFs"] := Dir;
           [ulit "srv"; ulit "job"; ulit "PDFs"; ulit "Report.pdf"]
             := File (lit "%PDF-1.4");
           [ulit "srv"; ulit "job"; ulit "PDFs"; ulit "report.pdf"]
             := File (lit "%PDF-1.7");
           [ulit "srv"; ulit "job"; ulit "PDFs"; ulit "Empty.pdf"]
             := File [] ]}
        [] [].

Definition three_files : list ustr :=
  [ulit "/srv/job/PDFs/Report.pdf"; ulit "/srv/job/PDFs/Empty.pdf";
   ulit "/srv/job/PDFs/report.pdf"].

(** Lines as the text pipeline hands them to the loop. *)
Definition line_a : str := qlit "'url': 'https://example.com/a.pdf.thumb.319.319.png'".
Definition line_png : str := qlit "'url': 'https://example.com/logo.png'".
Definition line_docx : str := qlit "'url': 'https://example.com/c.docx'".
Definition line_bracket : str := qlit "'url': 'http://[.pdf'".

(** The scenario line, and a HAR excerpt around it. *)
Definition thumb_line : str :=
  qlit "  'url': 'https://example.com/a%20b.pdf.thumb.319.319.png'".

Definition har_excerpt : str :=
  qlit "{" ++ nl ::
  qlit "  'method': 'GET'," ++ nl ::
  thumb_line ++ qlit "," ++ nl ::
  qlit "  'httpVersion': 'HTTP/1.1'" ++ nl ::
  qlit "}".

(** *** The shape of a match *)

Definition url_key : str := qlit "'url':".

(** A character of the quoted value: no double quote, no newline. *)
Definition is_value_char (c : ascii) : bool :=
  negb (ascii_eqb dq c) && negb (ascii_eqb c nl).

(** [m] is: blanks, the quoted key [url] and a colon, blanks, and a value
    in double quotes that holds neither a double quote nor a newline. *)
Definition url_shape (m : str) : Prop :=
  exists ws1 ws2 v : str,
    m = ws1 ++ url_key ++ ws2 ++ [dq] ++ v ++ [dq] /\
    forallb isspace ws1 = true /\
    forallb isspace ws2 = true /\
    forallb is_value_char v = true.

(** The pattern matches at the start of [s]. *)
Definition matches_here (s : str) : Prop :=
  exists m rest, s = m ++ rest /\ url_shape m.

Definition prepend (p : str) (r : option (str * str)) : option (str * str) :=
  match r with
  | Some (m, rest) => Some (p ++ m, rest)
  | None => None
  end.

(** The quoted value at the start of [s], and what follows it. *)
Definition quoted_value (s : str) : option (str * str) :=
  match s with
  | c :: s1 =>
      if ascii_eqb dq c then
        match drop_while is_value_char s1 with
        | d :: rest =>
            if ascii_eqb dq d
            then Some (dq :: take_while is_value_char s1 ++ [dq], rest)
            else None
        | [] => None
        end
      else None
  | [] => None
  end.

(** The match at the start of [s], found by cutting [s] at the first
    character that is no blank, and so on. *)
Definition shape_prefix (s : str) : option (str * str) :=
  let s1 := drop_while isspace s in
  prepend (take_while isspace s)
    (if starts_with ascii_eqb url_key s1 then
       let s2 := drop (length url_key) s1 in
       prepend url_key
         (prepend (take_while isspace s2)
            (quoted_value (drop_while isspace s2)))
     else None).

(** [scan bol s ms]: [ms] are the matches met when [s] is read from the
    left, [bol] telling whether [s] starts a line.  A match is taken where
    a line starts and the pattern matches; reading goes on after it. *)
Inductive scan : bool -> str -> list str -> Prop :=
  | scan_end (bol : bool) : scan bol [] []
  | scan_match (m rest : str) (ms : list str) :
      url_shape m ->
      scan false rest ms ->
      scan true (m ++ rest) (m :: ms)
  | scan_skip (bol : bool) (c : ascii) (s : str) (ms : list str) :
      (bol = false \/ ~ matches_here (c :: s)) ->
      scan (is_nl c) s ms ->
      scan bol (c :: s) ms.

Definition no_bol (p : list node) : bool :=
  forallb (fun n => match n with NBol => false | _ => true end) p.

(** Whether the position after [x] starts a line, [bol] telling it for the
    position before [x]. *)
Definition end_bol (bol : bool) (x : str) : bool :=
  match last x with
  | Some c => is_nl c
  | None => bol
  end.





(** A text without a line boundary. *)
Definition single_line (s : str) : bool :=
  forallb (fun c => negb (is_linebreak c)) s.

(** Lines 205 and 208 of [main]: the lines before they are joined. *)
Definition cleaned (url_lines : list str) : list str :=
  convert_uppercase_to_lowercase (remove_whitespace_from_slice url_lines).

(** A match of the extractor that runs over two lines: the whitespace
    after the colon holds the newline. *)
Definition two_line_match : str :=
  qlit "'url':" ++ nl :: qlit "  'a.pdf'".

(** The last piece of a path cut at its slashes. *)
Definition final_segment (path : str) : str :=
  default [] (last (split_on is_slash path)).

(** What the cleaned lines look like: stripped, folded, not empty. *)
Definition is_clean (e : str) : Prop :=
  strip e = e /\ lower e = e /\ e ≠ [] /\ single_line e = true.

(** [touches P m]: running [m] keeps the working directory and changes no
    file but those whose absolute path satisfies [P]. *)
Definition touches {A} (P : list ustr -> list ustr -> Prop) (m : M A) : Prop :=
  forall w,
    cwd (m w).2 = cwd w /\
    forall k, ~ P (cwd w) k -> fs (m w).2 !! k = fs w !! k.

(** Every way a call of [download_pdf] can go. *)
Inductive outcome (bracketed_host_ok : str -> bool)
    (net : list str -> str -> http_result) (url : str) (w : world)
  : result unit * world -> Prop :=
  | out_no_folder :
      folder_ok w = false ->
      outcome bracketed_host_ok net url w (Raise OSError, w)
  | out_bad_name :
      folder_ok w = true ->
      url_to_filename bracketed_host_ok url = Raise ValueError ->
      outcome bracketed_host_ok net url w (Raise ValueError, after_makedirs w)
  | out_existing (f : ustr) :
      folder_ok w = true ->
      url_to_filename bracketed_host_ok url = Ok f ->
      isfile (after_makedirs w) (target f) = true ->
      outcome bracketed_host_ok net url w
        (Ok tt, World (cwd w) (fs (after_makedirs w)) (requests w)
                      (stdout w ++ [MExists (target f)]))
  | out_failed (f : ustr) (e : request_error) :
      folder_ok w = true ->
      url_to_filename bracketed_host_ok url = Ok f ->
      isfile (after_makedirs w) (target f) = false ->
      request_failure (net (requests w) url) = Some e ->
      outcome bracketed_host_ok net url w
        (Ok tt, World (cwd w) (fs (after_makedirs w)) (requests w ++ [url])
                      (stdout w ++ [MFailed url (RequestException e)]))
  | out_written (f : ustr) (status : N) (chunks : list str) (broken : bool) :
      folder_ok w = true ->
      url_to_filename bracketed_host_ok url = Ok f ->
      isfile (after_makedirs w) (target f) = false ->
      net (requests w) url = Response status chunks broken ->
      is_http_error status = false ->
      can_open (after_makedirs w) (target f) = true ->
      outcome bracketed_host_ok net url w
        (Ok tt, World (cwd w)
                      (<[resolve (cwd w) (target f) := File (concat chunks)]>
                         (fs (after_makedirs w)))
                      (requests w ++ [url])
                      (stdout w ++ [if broken
                                    then MFailed url (RequestException StreamError)
                                    else MDownloaded (target f)]))
  | out_cannot_open (f : ustr) (status : N) (chunks : list str) (broken : bool)
      (e : exn) :
      folder_ok w = true ->
      url_to_filename bracketed_host_ok url = Ok f ->
      isfile (after_makedirs w) (target f) = false ->
      net (requests w) url = Response status chunks broken ->
      is_http_error status = false ->
      can_open (after_makedirs w) (target f) = false ->
      e = (if has_nul (target f) then ValueError else OSError) ->
      outcome bracketed_host_ok net url w
        (Raise e, World (cwd w) (fs (after_makedirs w)) (requests w ++ [url])
                        (stdout w))
  | out_escaped (f : ustr) (e : exn) :
      folder_ok w = true ->
      url_to_filename bracketed_host_ok url = Ok f ->
      isfile (after_makedirs w) (target f) = false ->
      net (requests w) url = GetRaisesOther e ->
      is_RequestException e = false ->
      outcome bracketed_host_ok net url w
        (Raise e, World (cwd w) (fs (after_makedirs w)) (requests w ++ [url])
                        (stdout w)).

(** * Properties *)

(** ** The monad and the file system calls *)

Lemma world_eta (w : world) :
  World (cwd w) (fs w) (requests w) (stdout w) = w.
Proof. by destruct w. Qed.

Lemma makedirs_ok (w : world) :
  folder_ok w = true ->
  makedirs_exist_ok save_folder w = (Ok tt, after_makedirs w).
Proof.
  intros Hok. unfold makedirs_exist_ok, folder_ok, after_makedirs in *.
  unfold bind, get_world.
  destruct (stat w save_folder) as [[c|]|] eqn:E; try done.
Qed.

Lemma after_makedirs_cwd (w : world) : cwd (after_makedirs w) = cwd w.
Proof. unfold after_makedirs. by destruct (stat w save_folder). Qed.

Lemma after_makedirs_requests (w : world) :
  requests (after_makedirs w) = requests w.
Proof. unfold after_makedirs. by destruct (stat w save_folder). Qed.

Lemma after_makedirs_stdout (w : world) :
  stdout (after_makedirs w) = stdout w.
Proof. unfold after_makedirs. by destruct (stat w save_folder). Qed.

(** What the file system calls see is the working directory and the
    files. *)
Lemma stat_ext (w w' : world) (p : ustr) :
  cwd w = cwd w' -> fs w = fs w' -> stat w p = stat w' p.
Proof.
  destruct w as [c f r o], w' as [c' f' r' o']. simpl.
  intros -> ->. reflexivity.
Qed.

Lemma can_open_ext (w w' : world) (p : ustr) :
  cwd w = cwd w' -> fs w = fs w' -> can_open w p = can_open w' p.
Proof.
  destruct w as [c f r o], w' as [c' f' r' o']. simpl.
  intros -> ->. reflexivity.
Qed.

(** The chunk loop of [download_pdf] on an open file. *)
Lemma write_chunks (p : ustr) (chunks : list str) (w : world) (c : str) :
  fs w !! resolve (cwd w) p = Some (File c) ->
  for_each chunks
    (fun chunk => if negb (is_empty chunk) then write_to p chunk else ret tt) w
  = (Ok tt, World (cwd w) (<[resolve (cwd w) p := File (c ++ concat chunks)]> (fs w))
                  (requests w) (stdout w)).
Proof.
  revert w c. induction chunks as [|chunk chunks IH]; intros w c Hp; simpl.
  - rewrite app_nil_r, insert_id by done. unfold ret. by rewrite world_eta.
  - unfold bind at 1. destruct chunk as [|x chunk]; simpl.
    + unfold ret at 1. by apply IH.
    + unfold write_to, bind, get_world. rewrite Hp.
      unfold put, set_fs. cbn [cwd fs requests stdout].
      rewrite (IH _ (c ++ x :: chunk)) by (simpl; apply lookup_insert_eq).
      cbn [cwd fs requests stdout]. rewrite insert_insert_eq.
      by rewrite <- app_assoc.
Qed.

(** ** What [download_pdf] does, case by case *)

Section DownloadFacts.

Variable bracketed_host_ok : str -> bool.
Variable net : list str -> str -> http_result.

Local Abbreviation download := (download_pdf bracketed_host_ok net).
Local Abbreviation filename_of := (url_to_filename bracketed_host_ok).

Ltac run_download Hok Hname :=
  unfold download_pdf, try_except;
  unfold bind at 1; rewrite (makedirs_ok _ Hok);
  unfold bind at 1; unfold lift at 1; rewrite Hname;
  unfold bind at 1; unfold check_file_exists; unfold bind at 1;
  unfold get_world, ret at 1;
  match goal with |- context [path_join save_folder ?f] => fold (target f) end.

Lemma download_no_folder (url : str) (lfp : ustr) (w : world) :
  folder_ok w = false ->
  download url lfp w = (Raise OSError, w).
Proof.
  intros Hok. unfold download_pdf, try_except.
  unfold bind at 1. unfold makedirs_exist_ok, bind at 1, get_world.
  unfold folder_ok in Hok.
  destruct (stat w save_folder) as [[c|]|]; done.
Qed.

Lemma download_bad_name (url : str) (lfp : ustr) (w : world) (e : exn) :
  folder_ok w = true ->
  filename_of url = Raise e ->
  is_RequestException e = false ->
  download url lfp w = (Raise e, after_makedirs w).
Proof.
  intros Hok Hname He. unfold download_pdf, try_except.
  unfold bind at 1. rewrite (makedirs_ok _ Hok).
  unfold bind at 1. unfold lift at 1. rewrite Hname. by rewrite He.
Qed.

Lemma download_existing (url : str) (lfp f : ustr) (w : world) :
  folder_ok w = true ->
  filename_of url = Ok f ->
  isfile (after_makedirs w) (target f) = true ->
  download url lfp w
  = (Ok tt, World (cwd w) (fs (after_makedirs w)) (requests w)
                  (stdout w ++ [MExists (target f)])).
Proof.
  intros Hok Hname Hex. run_download Hok Hname.
  rewrite Hex. unfold print.
  by rewrite after_makedirs_cwd, after_makedirs_requests, after_makedirs_stdout.
Qed.

Lemma download_get_raises (url : str) (lfp f : ustr) (w : world)
    (e : request_error) :
  folder_ok w = true ->
  filename_of url = Ok f ->
  isfile (after_makedirs w) (target f) = false ->
  net (requests w) url = GetRaises e ->
  download url lfp w
  = (Ok tt, World (cwd w) (fs (after_makedirs w)) (requests w ++ [url])
                  (stdout w ++ [MFailed url (RequestException e)])).
Proof.
  intros Hok Hname Hex Hnet. run_download Hok Hname.
  rewrite Hex. unfold bind, requests_get.
  rewrite after_makedirs_cwd, after_makedirs_requests, after_makedirs_stdout.
  rewrite Hnet. reflexivity.
Qed.

(** An exception of the GET that is no request exception passes through
    [download_pdf]; one that is, is caught like any other. *)
Lemma download_get_raises_other (url : str) (lfp f : ustr) (w : world)
    (e : exn) :
  folder_ok w = true ->
  filename_of url = Ok f ->
  isfile (after_makedirs w) (target f) = false ->
  net (requests w) url = GetRaisesOther e ->
  download url lfp w
  = if is_RequestException e
    then (Ok tt, World (cwd w) (fs (after_makedirs w)) (requests w ++ [url])
                       (stdout w ++ [MFailed url e]))
    else (Raise e, World (cwd w) (fs (after_makedirs w)) (requests w ++ [url])
                         (stdout w)).
Proof.
  intros Hok Hname Hex Hnet. run_download Hok Hname.
  rewrite Hex. unfold bind, requests_get.
  rewrite after_makedirs_cwd, after_makedirs_requests, after_makedirs_stdout.
  rewrite Hnet. unfold raise. by destruct (is_RequestException e).
Qed.

Lemma download_http_error (url : str) (lfp f : ustr) (w : world)
    (status : N) (chunks : list str) (broken : bool) :
  folder_ok w = true ->
  filename_of url = Ok f ->
  isfile (after_makedirs w) (target f) = false ->
  net (requests w) url = Response status chunks broken ->
  is_http_error status = true ->
  download url lfp w
  = (Ok tt, World (cwd w) (fs (after_makedirs w)) (requests w ++ [url])
                  (stdout w ++ [MFailed url (RequestException (HTTPError status))])).
Proof.
  intros Hok Hname Hex Hnet Hst. run_download Hok Hname.
  rewrite Hex. unfold bind, requests_get.
  rewrite after_makedirs_cwd, after_makedirs_requests, after_makedirs_stdout.
  rewrite Hnet. unfold raise_for_status.
  unfold is_http_error in Hst. rewrite Hst. reflexivity.
Qed.

Lemma open_wb_ok (p : ustr) (w : world) :
  can_open w p = true ->
  open_wb p w
  = (Ok tt, World (cwd w) (<[resolve (cwd w) p := File []]> (fs w))
                  (requests w) (stdout w)).
Proof.
  unfold can_open, open_wb, bind, get_world. intros H.
  apply andb_true_iff in H as [Hnul H]. apply negb_true_iff in Hnul.
  rewrite Hnul.
  destruct (stat w p) as [[c|]|]; try done.
  by rewrite H.
Qed.

Lemma download_written (url : str) (lfp f : ustr) (w : world)
    (status : N) (chunks : list str) (broken : bool) :
  folder_ok w = true ->
  filename_of url = Ok f ->
  isfile (after_makedirs w) (target f) = false ->
  net (requests w) url = Response status chunks broken ->
  is_http_error status = false ->
  can_open (after_makedirs w) (target f) = true ->
  download url lfp w
  = (Ok tt, World (cwd w)
                  (<[resolve (cwd w) (target f) := File (concat chunks)]>
                     (fs (after_makedirs w)))
                  (requests w ++ [url])
                  (stdout w ++ [if broken
                                then MFailed url (RequestException StreamError)
                                else MDownloaded (target f)])).
Proof.
  intros Hok Hname Hex Hnet Hst Hopen. run_download Hok Hname.
  rewrite Hex.
  unfold bind at 1. unfold requests_get.
  rewrite after_makedirs_requests, Hnet.
  unfold bind at 1. unfold raise_for_status.
  unfold is_http_error in Hst. rewrite Hst. unfold ret at 1.
  unfold bind at 1. rewrite open_wb_ok.
  2:{ by rewrite (can_open_ext _ (after_makedirs w)). }
  cbn [cwd fs requests stdout].
  unfold bind at 1.
  rewrite (write_chunks (target f) chunks _ [])
    by (cbn [cwd fs]; apply lookup_insert_eq).
  cbn [cwd fs requests stdout app]. rewrite insert_insert_eq.
  rewrite after_makedirs_cwd, after_makedirs_stdout.
  destruct broken; reflexivity.
Qed.

End DownloadFacts.

(** ** Which files an action can change *)

Section Touches.

Context {A B : Type}.
Implicit Types P Q : list ustr -> list ustr -> Prop.

Lemma touches_mono P Q (m : M A) :
  (forall c k, P c k -> Q c k) -> touches P m -> touches Q m.
Proof.
  intros HPQ Hm w. destruct (Hm w) as [Hc Hf].
  split; [done|]. intros k Hk. apply Hf. intros HP. apply Hk, HPQ, HP.
Qed.

Lemma touches_ret P (a : A) : touches P (ret a).
Proof. intros w. by split. Qed.

Lemma touches_raise P (e : exn) : touches P (raise e : M A).
Proof. intros w. by split. Qed.

Lemma touches_bind P (m : M A) (k : A -> M B) :
  touches P m -> (forall a, touches P (k a)) -> touches P (bind m k).
Proof.
  intros Hm Hk w. unfold bind.
  destruct (Hm w) as [Hc Hf].
  destruct (m w) as [[a|e] w1] eqn:E; simpl in *.
  - destruct (Hk a w1) as [Hc1 Hf1]. split; [congruence|].
    intros q Hq. rewrite Hf1 by (by rewrite Hc). by apply Hf.
  - by split.
Qed.

Lemma touches_bind_lift P (r : result A) (k : A -> M B) :
  (forall a, r = Ok a -> touches P (k a)) -> touches P (bind (lift r) k).
Proof.
  intros Hk w. unfold bind, lift.
  destruct r as [a|e]; [by apply Hk | by split].
Qed.

Lemma touches_try P (m : M A) (catches : exn -> bool) (h : exn -> M A) :
  touches P m -> (forall e, touches P (h e)) ->
  touches P (try_except m catches h).
Proof.
  intros Hm Hh w. unfold try_except.
  destruct (Hm w) as [Hc Hf].
  destruct (m w) as [[a|e] w1] eqn:E; simpl in *.
  - by split.
  - destruct (catches e); [|by split].
    destruct (Hh e w1) as [Hc1 Hf1]. split; [congruence|].
    intros q Hq. rewrite Hf1 by (by rewrite Hc). by apply Hf.
Qed.

End Touches.

Lemma touches_for_each {A} P (l : list A) (body : A -> M unit) :
  (forall x, touches P (body x)) -> touches P (for_each l body).
Proof.
  intros Hb. induction l as [|x l IH]; simpl.
  - apply touches_ret.
  - apply touches_bind; [apply Hb | intros _; apply IH].
Qed.

Lemma touches_print P (m : msg) : touches P (print m).
Proof. intros w. by split. Qed.

Lemma touches_get_world P : touches P get_world.
Proof. intros w. by split. Qed.

Lemma touches_put (p : ustr) (e : entry) :
  touches (fun c k => k = resolve c p) (put p e).
Proof.
  intros w. split; [done|]. intros k Hk. unfold put, set_fs. simpl.
  by rewrite lookup_insert_ne.
Qed.

Lemma touches_makedirs (name : ustr) :
  touches (fun c k => k = resolve c name) (makedirs_exist_ok name).
Proof.
  unfold makedirs_exist_ok. apply touches_bind; [apply touches_get_world|].
  intros w. destruct (stat w name) as [[c|]|].
  - apply touches_raise.
  - apply touches_ret.
  - apply touches_put.
Qed.

Lemma touches_open_wb (p : ustr) :
  touches (fun c k => k = resolve c p) (open_wb p).
Proof.
  unfold open_wb. apply touches_bind; [apply touches_get_world|].
  intros w. destruct (has_nul p); [apply touches_raise|].
  destruct (stat w p) as [[c|]|].
  - apply touches_put.
  - apply touches_raise.
  - destruct (creatable w p); [apply touches_put | apply touches_raise].
Qed.

Lemma touches_open_a (p : ustr) :
  touches (fun c k => k = resolve c p) (open_a p).
Proof.
  unfold open_a. apply touches_bind; [apply touches_get_world|].
  intros w. destruct (has_nul p); [apply touches_raise|].
  destruct (stat w p) as [[c|]|].
  - apply touches_ret.
  - apply touches_raise.
  - destruct (creatable w p); [apply touches_put | apply touches_raise].
Qed.

Lemma touches_write_to (p : ustr) (data : str) :
  touches (fun c k => k = resolve c p) (write_to p data).
Proof.
  unfold write_to. apply touches_bind; [apply touches_get_world|].
  intros w. destruct (fs w !! resolve (cwd w) p) as [[c|]|].
  - apply touches_put.
  - apply touches_raise.
  - apply touches_raise.
Qed.

Section DownloadTouches.

Variable bracketed_host_ok : str -> bool.
Variable net : list str -> str -> http_result.

Lemma touches_requests_get P (url : str) : touches P (requests_get net url).
Proof. intros w. by split. Qed.

(** [download_pdf] changes nothing but the folder and the target. *)
Lemma touches_download (url : str) (lfp : ustr) :
  touches (fun c k =>
             k = resolve c save_folder \/
             exists f, url_to_filename bracketed_host_ok url = Ok f /\
                       k = resolve c (target f))
          (download_pdf bracketed_host_ok net url lfp).
Proof.
  unfold download_pdf.
  apply touches_try; [|intros e; apply touches_print].
  apply touches_bind.
  { eapply touches_mono; [|apply touches_makedirs]. simpl. auto. }
  intros _. apply touches_bind_lift. intros f Hname. fold (target f).
  assert (Ht : forall (m : M unit),
    touches (fun c k => k = resolve c (target f)) m ->
    touches (fun c k =>
               k = resolve c save_folder \/
               exists f, url_to_filename bracketed_host_ok url = Ok f /\
                         k = resolve c (target f)) m).
  { intros m. apply touches_mono. intros c k ->. right. eauto. }
  apply touches_bind.
  { unfold check_file_exists. apply touches_bind; [apply touches_get_world|].
    intros w. apply touches_ret. }
  intros [|]; [apply touches_print|].
  apply touches_bind; [apply touches_requests_get|].
  intros [e|status chunks broken|e]; [apply touches_raise| |apply touches_raise].
  apply touches_bind.
  { unfold raise_for_status.
    destruct (_ && _); [apply touches_raise | apply touches_ret]. }
  intros _. apply touches_bind; [apply Ht, touches_open_wb|].
  intros _. apply touches_bind.
  { apply touches_for_each. intros chunk.
    destruct (negb (is_empty chunk));
      [apply Ht, touches_write_to | apply touches_ret]. }
  intros _. apply touches_bind.
  { destruct broken; [apply touches_raise | apply touches_ret]. }
  intros _. apply touches_print.
Qed.

End DownloadTouches.

(** ** Names of one component *)

Lemma plain_name_parts (n : ustr) :
  plain_name n = true ->
  components n = [n] /\ has_nul n = false /\ is_empty n = false /\
  n ≠ ulit "." /\ n ≠ ulit ".." /\ starts_with N.eqb [47] n = false.
Proof.
  unfold plain_name. rewrite !andb_true_iff, !negb_true_iff.
  rewrite !bool_decide_eq_true, !bool_decide_eq_false.
  intros ((((Hc & Hn) & He) & Hd) & Hdd). repeat split; try done.
  destruct n as [|x n]; [discriminate He|]. cbn [starts_with].
  destruct (47 =? x) eqn:Hx; [|reflexivity].
  apply N.eqb_eq in Hx. subst x. unfold components in Hc.
  cbn [split_on] in Hc. change (is_uslash 47) with true in Hc.
  discriminate Hc.
Qed.

Lemma resolve_plain (c : list ustr) (n : ustr) :
  plain_name n = true -> resolve c n = c ++ [n].
Proof.
  intros Hn. apply plain_name_parts in Hn as (Hc & _ & He & Hd & Hdd & Hs).
  unfold resolve, base_of. rewrite Hc, Hs. simpl. unfold step.
  rewrite He. rewrite (bool_decide_eq_false_2 _ Hd), (bool_decide_eq_false_2 _ Hdd).
  simpl. by rewrite rev_involutive.
Qed.

Lemma not_prefix_snoc {X} (c : list X) (x : X) : ¬ (c ++ [x]) `prefix_of` c.
Proof.
  intros [k Hk]. apply (f_equal length) in Hk.
  rewrite !length_app in Hk. simpl in Hk. lia.
Qed.

Lemma stat_plain (w : world) (n : ustr) :
  plain_name n = true -> stat w n = fs w !! (cwd w ++ [n]).
Proof.
  intros Hn. unfold stat, reachable.
  rewrite (resolve_plain _ _ Hn).
  apply plain_name_parts in Hn as (Hc & Hnul & He & _ & _ & _).
  rewrite Hc, Hnul, He. simpl. unfold entry_at.
  by rewrite (bool_decide_eq_false_2 _ (not_prefix_snoc _ _)).
Qed.

Lemma plain_save_folder : plain_name save_folder = true.
Proof. vm_compute. reflexivity. Qed.

Lemma plain_new_file_name : plain_name new_file_name = true.
Proof. vm_compute. reflexivity. Qed.

(** ** Creating a file keeps the directories *)

Lemma entry_at_insert_file (c : list ustr) (f : gmap (list ustr) entry)
    (k k' : list ustr) (d : str) :
  entry_at c f k ≠ Some Dir ->
  entry_at c f k' = Some Dir ->
  entry_at c (<[k := File d]> f) k' = Some Dir.
Proof.
  unfold entry_at. intros Hk Hk'.
  destruct (bool_decide (k' `prefix_of` c)) eqn:Hp; [done|].
  destruct (decide (k = k')) as [->|Hne].
  - rewrite Hp in Hk. done.
  - by rewrite lookup_insert_ne.
Qed.

Lemma walkable_insert_file (c : list ustr) (f : gmap (list ustr) entry)
    (k : list ustr) (d : str) (st cs : list ustr) :
  entry_at c f k ≠ Some Dir ->
  walkable c f st cs = true ->
  walkable c (<[k := File d]> f) st cs = true.
Proof.
  intros Hk. revert st. induction cs as [|x cs IH]; intros st; [done|].
  cbn [walkable]. destruct (is_empty cs); [done|].
  destruct (entry_at c f (rev (step st x))) as [[?|]|] eqn:E; try done.
  intros Hw. rewrite (entry_at_insert_file _ _ _ _ _ Hk E). by apply IH.
Qed.

(** Once [open(p, "wb")] has succeeded, [p] is a regular file. *)
Lemma isfile_after_create (w : world) (p : ustr) (d : str) r o :
  can_open w p = true ->
  isfile (World (cwd w) (<[resolve (cwd w) p := File d]> (fs w)) r o) p = true.
Proof.
  unfold can_open, isfile, stat, creatable, reachable. cbn [cwd fs].
  intros H. apply andb_true_iff in H as [Hnul H].
  set (k := resolve (cwd w) p) in *.
  destruct (negb (is_empty p) && negb (has_nul p)
            && walkable (cwd w) (fs w) (base_of (cwd w) p) (components p))
    eqn:Hreach; [|done].
  apply andb_true_iff in Hreach as [Hpre Hwalk].
  assert (Hk : entry_at (cwd w) (fs w) k ≠ Some Dir).
  { intros E. rewrite E in H. done. }
  rewrite Hpre, (walkable_insert_file _ _ _ _ _ _ Hk Hwalk). simpl.
  unfold entry_at in *.
  destruct (bool_decide (k `prefix_of` cwd w)); [done|].
  by rewrite lookup_insert_eq.
Qed.

Lemma entry_at_insert_dir (c : list ustr) (f : gmap (list ustr) entry)
    (k k' : list ustr) (e : entry) :
  f !! k = None ->
  entry_at c f k' = Some e ->
  entry_at c (<[k := Dir]> f) k' = Some e.
Proof.
  unfold entry_at. intros Hk Hk'.
  destruct (bool_decide (k' `prefix_of` c)); [done|].
  destruct (decide (k = k')) as [->|Hne]; [congruence|].
  by rewrite lookup_insert_ne.
Qed.

Lemma walkable_insert_dir (c : list ustr) (f : gmap (list ustr) entry)
    (k : list ustr) (st cs : list ustr) :
  f !! k = None ->
  walkable c f st cs = true ->
  walkable c (<[k := Dir]> f) st cs = true.
Proof.
  intros Hk. revert st. induction cs as [|x cs IH]; intros st; [done|].
  cbn [walkable]. destruct (is_empty cs); [done|].
  destruct (entry_at c f (rev (step st x))) as [[?|]|] eqn:E; try done.
  intros Hw. rewrite (entry_at_insert_dir _ _ _ _ _ Hk E). by apply IH.
Qed.

(** Creating the folder does not hide a regular file. *)
Lemma isfile_after_makedirs (w : world) (p : ustr) :
  isfile w p = true -> isfile (after_makedirs w) p = true.
Proof.
  unfold after_makedirs.
  destruct (stat w save_folder) as [e|] eqn:E; [done|].
  rewrite (stat_plain _ _ plain_save_folder) in E.
  rewrite (resolve_plain _ _ plain_save_folder).
  unfold isfile, stat, reachable. cbn [cwd fs].
  destruct (negb (is_empty p) && negb (has_nul p)) eqn:Hpre; [|done].
  cbn [andb].
  destruct (walkable (cwd w) (fs w) (base_of (cwd w) p) (components p))
    eqn:Hwalk; [|done].
  rewrite (walkable_insert_dir _ _ _ _ _ E Hwalk).
  destruct (entry_at (cwd w) (fs w) (resolve (cwd w) p)) as [e|] eqn:Hent; [|done].
  by rewrite (entry_at_insert_dir _ _ _ _ _ E Hent).
Qed.

Lemma after_makedirs_stat (w : world) :
  folder_ok w = true -> stat (after_makedirs w) save_folder = Some Dir.
Proof.
  unfold folder_ok, after_makedirs.
  destruct (stat w save_folder) as [[c|]|] eqn:E; try done.
  intros _. rewrite (stat_plain _ _ plain_save_folder). cbn [cwd fs].
  rewrite (resolve_plain _ _ plain_save_folder). apply lookup_insert_eq.
Qed.

Lemma after_makedirs_idem (w : world) :
  stat w save_folder = Some Dir -> after_makedirs w = w.
Proof. unfold after_makedirs. by intros ->. Qed.

(** ** The downloader: skipping, failing, and the unused argument *)

(** After a download that wrote its target, the folder is still there and
    the target is a regular file. *)
Lemma written_world (w : world) (f : ustr) (d : str) r o :
  folder_ok w = true ->
  can_open (after_makedirs w) (target f) = true ->
  let w1 := World (cwd w)
                  (<[resolve (cwd w) (target f) := File d]> (fs (after_makedirs w)))
                  r o in
  folder_ok w1 = true /\ after_makedirs w1 = w1 /\ isfile w1 (target f) = true.
Proof.
  intros Hok Hopen w1.
  assert (Hfile : isfile w1 (target f) = true).
  { unfold w1. rewrite <- (after_makedirs_cwd w). by apply isfile_after_create. }
  assert (Hdir : stat w1 save_folder = Some Dir).
  { pose proof (after_makedirs_stat w Hok) as Hs.
    rewrite (stat_plain _ _ plain_save_folder) in Hs.
    rewrite (stat_plain _ _ plain_save_folder).
    unfold w1. cbn [cwd fs]. rewrite after_makedirs_cwd in Hs.
    rewrite lookup_insert_ne; [done|].
    intros Heq. unfold can_open, stat in Hopen.
    apply andb_true_iff in Hopen as [_ Hopen].
    destruct (reachable (after_makedirs w) (target f)) eqn:Hr.
    - rewrite after_makedirs_cwd in Hopen. rewrite Heq in Hopen.
      unfold entry_at in Hopen.
      rewrite (bool_decide_eq_false_2 _ (not_prefix_snoc _ _)), Hs in Hopen.
      done.
    - unfold creatable in Hopen. by rewrite Hr in Hopen. }
  repeat split; [|by apply after_makedirs_idem|done].
  unfold folder_ok. by rewrite Hdir.
Qed.

(** C2 (amended). When the target of a URL is already a regular file,
    [download_pdf] reports it and sends no request.  Hence, when a first
    call has written the target (the GET came back without an error status
    and the file could be opened), a second call for the same URL is a
    skip, and the two calls have sent exactly one request. *)
Theorem fetch_skips_existing_file
    (bracketed_host_ok : str -> bool) (net : list str -> str -> http_result) :
  (forall (url : str) (lfp f : ustr) (w : world),
      folder_ok w = true ->
      url_to_filename bracketed_host_ok url = Ok f ->
      isfile w (target f) = true ->
      exists w',
        download_pdf bracketed_host_ok net url lfp w = (Ok tt, w') /\
        requests w' = requests w /\
        stdout w' = stdout w ++ [MExists (target f)]) /\
  (forall (url : str) (lfp lfp' f : ustr) (w : world)
          (status : N) (chunks : list str) (broken : bool),
      folder_ok w = true ->
      url_to_filename bracketed_host_ok url = Ok f ->
      isfile (after_makedirs w) (target f) = false ->
      net (requests w) url = Response status chunks broken ->
      is_http_error status = false ->
      can_open (after_makedirs w) (target f) = true ->
      exists w1 w2,
        download_pdf bracketed_host_ok net url lfp w = (Ok tt, w1) /\
        download_pdf bracketed_host_ok net url lfp' w1 = (Ok tt, w2) /\
        requests w2 = requests w ++ [url] /\
        last (stdout w2) = Some (MExists (target f))).
Proof.
  split.
  - intros url lfp f w Hok Hname Hex.
    eexists. split; [|split].
    + apply (download_existing _ _ _ _ _ _ Hok Hname).
      by apply isfile_after_makedirs.
    + reflexivity.
    + reflexivity.
  - intros url lfp lfp' f w status chunks broken Hok Hname Hex Hnet Hst Hopen.
    pose proof (download_written bracketed_host_ok net url lfp f w status
                  chunks broken Hok Hname Hex Hnet Hst Hopen) as H1.
    destruct (written_world w f (concat chunks) (requests w ++ [url])
                (stdout w ++ [if broken
                              then MFailed url (RequestException StreamError)
                              else MDownloaded (target f)]) Hok Hopen)
      as (Hok1 & Hidem & Hfile).
    eexists _, _. split; [exact H1|]. split.
    + apply (download_existing _ _ _ _ _ _ Hok1 Hname).
      by rewrite Hidem.
    + split; [reflexivity|]. cbn [stdout]. apply last_snoc.
Qed.

Lemma fetch_skips_existing_file_witness :
  (exists w',
      download_pdf any_brackets net_pdf url_a []
        (World [ulit "srv"; ulit "job"]
               {[ [ulit "srv"; ulit "job"; ulit "PDFs"] := Dir;
                  [ulit "srv"; ulit "job"; ulit "PDFs"; ulit "a.pdf"] := File (lit "%PDF") ]}
               [] []) = (Ok tt, w') /\
      requests w' = [] /\
      stdout w' = [] ++ [MExists (target (ulit "a.pdf"))]) /\
  (exists w1 w2,
      download_pdf any_brackets net_pdf url_a [] w_empty = (Ok tt, w1) /\
      download_pdf any_brackets net_pdf url_a [] w1 = (Ok tt, w2) /\
      requests w2 = [] ++ [url_a] /\
      last (stdout w2) = Some (MExists (target (ulit "a.pdf")))).
Proof.
  split.
  - apply (proj1 (fetch_skips_existing_file any_brackets net_pdf)).
    + vm_compute. reflexivity.
    + vm_compute. reflexivity.
    + vm_compute. reflexivity.
  - apply (proj2 (fetch_skips_existing_file any_brackets net_pdf)
             url_a [] [] (ulit "a.pdf") w_empty 200
             [lit "%PDF"; []; lit "-1.4"] false).
    + vm_compute. reflexivity.
    + vm_compute. reflexivity.
    + vm_compute. reflexivity.
    + reflexivity.
    + vm_compute. reflexivity.
    + vm_compute. reflexivity.
Defined.

(** C2, as stated, fails: when the server cannot be reached, nothing is
    written, and the second of two calls sends the request again. *)
Lemma fetch_twice_two_requests :
  let w1 := (download_pdf any_brackets net_down url_a [] w_empty).2 in
  let w2 := (download_pdf any_brackets net_down url_a [] w1).2 in
  (download_pdf any_brackets net_down url_a [] w_empty).1 = Ok tt /\
  (download_pdf any_brackets net_down url_a [] w1).1 = Ok tt /\
  requests w2 = [url_a; url_a] /\
  length (requests w2) ≠ 1%nat.
Proof. vm_compute. repeat split; discriminate. Qed.

(** C6 (amended). When the GET raises, or comes back with a status from
    400 to 599, [download_pdf] returns normally having printed the failure:
    one request was sent, no file was written, and the loop of [main] goes
    on to record the URL and to process the next line. *)
Theorem failed_request_is_contained
    (bracketed_host_ok : str -> bool) (net : list str -> str -> http_result)
    (url : str) (lfp f : ustr) (w : world) (e : request_error) :
  folder_ok w = true ->
  url_to_filename bracketed_host_ok url = Ok f ->
  isfile (after_makedirs w) (target f) = false ->
  request_failure (net (requests w) url) = Some e ->
  let w' := World (cwd w) (fs (after_makedirs w)) (requests w ++ [url])
                  (stdout w ++ [MFailed url (RequestException e)]) in
  download_pdf bracketed_host_ok net url lfp w = (Ok tt, w') /\
  forall (line : str) (rest : list str),
    selected line = true ->
    trim_line line = url ->
    process_lines bracketed_host_ok net (line :: rest) w
    = (append_write_to_file new_file_name (url ++ [nl]) ;;;
       process_lines bracketed_host_ok net rest) w'.
Proof.
  intros Hok Hname Hex Hfail w'.
  assert (Hd : forall lfp,
    download_pdf bracketed_host_ok net url lfp w = (Ok tt, w')).
  { intros lfp0. unfold request_failure in Hfail.
    destruct (net (requests w) url) as [e0|status chunks broken|e0] eqn:Hnet.
    - injection Hfail as <-. by eapply download_get_raises.
    - destruct (is_http_error status) eqn:Hst; [|done].
      injection Hfail as <-. by eapply download_http_error.
    - destruct e0 as [| |e0| | | |]; try done. injection Hfail as <-.
      by rewrite (download_get_raises_other bracketed_host_ok net url lfp0 f w
                    _ Hok Hname Hex Hnet). }
  split; [apply Hd|].
  intros line rest Hsel Htrim.
  unfold process_lines. cbn [for_each]. unfold process_line.
  rewrite Hsel. fold (trim_line line). rewrite Htrim.
  unfold bind, lift. rewrite Hname, Hd. reflexivity.
Qed.

Lemma failed_request_is_contained_witness :
  let w' := World (cwd w_empty) (fs (after_makedirs w_empty))
                  (requests w_empty ++ [url_a])
                  (stdout w_empty
                   ++ [MFailed url_a (RequestException (HTTPError 404))]) in
  download_pdf any_brackets (net_status 404) url_a [] w_empty = (Ok tt, w') /\
  forall (line : str) (rest : list str),
    selected line = true ->
    trim_line line = url_a ->
    process_lines any_brackets (net_status 404) (line :: rest) w_empty
    = (append_write_to_file new_file_name (url_a ++ [nl]) ;;;
       process_lines any_brackets (net_status 404) rest) w'.
Proof.
  apply (failed_request_is_contained any_brackets (net_status 404)
           url_a [] (ulit "a.pdf") w_empty (HTTPError 404)).
  - vm_compute. reflexivity.
  - vm_compute. reflexivity.
  - vm_compute. reflexivity.
  - vm_compute. reflexivity.
Defined.

(** C6, as stated, fails for the statuses outside 200..299 that are no
    error for [raise_for_status]: a response with status 300 is written to
    disk and reported as downloaded. *)
Lemma status_300_is_downloaded :
  is_2xx 300 = false /\
  let r := download_pdf any_brackets (net_status 300) url_a [] w_empty in
  r.1 = Ok tt /\
  stdout r.2 = [MDownloaded (target (ulit "a.pdf"))] /\
  fs r.2 !! [ulit "srv"; ulit "job"; ulit "PDFs"; ulit "a.pdf"]
  = Some (File (lit "<html>")).
Proof. vm_compute. repeat split. Qed.

(** C10. The argument [local_file_path] of [download_pdf] has no effect:
    the call behaves the same for any two values of it, and the only files
    it can change are the folder [PDFs] and that folder joined with the
    file name derived from the URL. *)
Theorem local_file_path_is_ignored
    (bracketed_host_ok : str -> bool) (net : list str -> str -> http_result)
    (pdf_url : str) (p1 p2 : ustr) (w : world) :
  download_pdf bracketed_host_ok net pdf_url p1 w
  = download_pdf bracketed_host_ok net pdf_url p2 w /\
  forall k : list ustr,
    k ≠ resolve (cwd w) save_folder ->
    (forall f, url_to_filename bracketed_host_ok pdf_url = Ok f ->
               k ≠ resolve (cwd w) (path_join save_folder f)) ->
    fs (download_pdf bracketed_host_ok net pdf_url p1 w).2 !! k = fs w !! k.
Proof.
  split; [reflexivity|].
  intros k Hfolder Htarget.
  apply (touches_download bracketed_host_ok net pdf_url p1 w).
  intros [Heq|(f & Hname & Heq)]; [done|].
  by apply (Htarget f).
Qed.

Lemma local_file_path_is_ignored_witness :
  download_pdf any_brackets net_pdf url_a (ulit "elsewhere/x.pdf") w_empty
  = download_pdf any_brackets net_pdf url_a (ulit "a.pdf") w_empty /\
  fs (download_pdf any_brackets net_pdf url_a (ulit "elsewhere/x.pdf") w_empty).2
    !! [ulit "srv"; ulit "job"; ulit "elsewhere"; ulit "x.pdf"]
  = fs w_empty !! [ulit "srv"; ulit "job"; ulit "elsewhere"; ulit "x.pdf"].
Proof.
  destruct (local_file_path_is_ignored any_brackets net_pdf url_a
              (ulit "elsewhere/x.pdf") (ulit "a.pdf") w_empty) as [Heq Hframe].
  split; [exact Heq|].
  apply Hframe.
  - vm_compute. discriminate.
  - intros f Hf. vm_compute in Hf. injection Hf as <-. vm_compute. discriminate.
Defined.

(** ** The validator *)

(** C3. [validate_pdf_file] always returns: [False] when the document
    cannot be opened (every exception of [fitz.open] is a [RuntimeError]
    and is caught) or has no page, [True] otherwise; it changes no file
    and sends no request. *)
Theorem validate_pdf_file_returns
    (pdf_pages : ustr -> str -> option N) (file_path : ustr) (w : world) :
  exists log,
    validate_pdf_file pdf_pages file_path w
    = (Ok (match opened pdf_pages w file_path with
           | Ok page_count => negb (page_count =? 0)
           | Raise _ => false
           end),
       World (cwd w) (fs w) (requests w) (stdout w ++ log)) /\
    flagged log = [] /\ reported_invalid log = [].
Proof.
  unfold opened, validate_pdf_file, try_except, fitz_page_count.
  unfold bind, get_world, ret, raise, print. cbn beta iota.
  destruct (is_empty file_path).
  { exists [MNoPages file_path]. repeat split. }
  destruct (stat w file_path) as [[[|c content]|]|].
  - exists [MError EmptyFileError]. repeat split.
  - destruct (pdf_pages file_path (c :: content)) as [n|].
    + cbn [fst snd]. destruct (n =? 0).
      * exists [MNoPages file_path]. repeat split.
      * exists []. rewrite app_nil_r, world_eta. repeat split.
    + exists [MError FileDataError]. repeat split.
  - exists [MError FileDataError]. repeat split.
  - exists [MError FitzFileNotFoundError]. repeat split.
Qed.

(** ** The sweep *)

Lemma isfile_inv (w : world) (p : ustr) :
  isfile w p = true ->
  is_empty p = false /\ has_nul p = false /\
  exists d, stat w p = Some (File d) /\
            entry_at (cwd w) (fs w) (resolve (cwd w) p) = Some (File d).
Proof.
  unfold isfile, stat, reachable.
  destruct (is_empty p); [done|]. destruct (has_nul p); [done|].
  cbn [negb andb].
  destruct (walkable _ _ _ _); [|done].
  destruct (entry_at _ _ _) as [[d|]|]; try done.
  intros _. repeat split. by exists d.
Qed.

Lemma entry_at_delete (c : list ustr) (f : gmap (list ustr) entry)
    (k k' : list ustr) :
  k' ≠ k -> entry_at c (delete k f) k' = entry_at c f k'.
Proof.
  intros Hne. unfold entry_at.
  destruct (bool_decide (k' `prefix_of` c)); [done|].
  by rewrite lookup_delete_ne.
Qed.

Lemma walkable_delete (c : list ustr) (f : gmap (list ustr) entry)
    (k : list ustr) (d : str) (st cs : list ustr) :
  entry_at c f k = Some (File d) ->
  walkable c (delete k f) st cs = walkable c f st cs.
Proof.
  intros Hk. revert st. induction cs as [|x cs IH]; intros st; [done|].
  cbn [walkable]. destruct (is_empty cs); [done|].
  destruct (decide (rev (step st x) = k)) as [Heq|Hne].
  - rewrite Heq, Hk. unfold entry_at in *.
    destruct (bool_decide (k `prefix_of` c)); [done|].
    by rewrite lookup_delete_eq.
  - rewrite entry_at_delete by done.
    destruct (entry_at c f (rev (step st x))) as [[?|]|]; try done.
Qed.

(** Removing a regular file leaves every other path as it was. *)
Lemma stat_delete (w : world) (k : list ustr) (d : str) (p : ustr) r o :
  entry_at (cwd w) (fs w) k = Some (File d) ->
  resolve (cwd w) p ≠ k ->
  stat (World (cwd w) (delete k (fs w)) r o) p = stat w p.
Proof.
  intros Hk Hne. unfold stat, reachable. cbn [cwd fs].
  rewrite (walkable_delete _ _ _ _ _ _ Hk).
  by rewrite entry_at_delete.
Qed.

(** What [validate_pdf_file] returns and prints, for any path. *)
Lemma validate_pdf_file_outcome
    (pdf_pages : ustr -> str -> option N) (file_path : ustr) (w : world) :
  exists log,
    validate_pdf_file pdf_pages file_path w
    = (Ok (match opened pdf_pages w file_path with
           | Ok page_count => negb (page_count =? 0)
           | Raise _ => false
           end),
       World (cwd w) (fs w) (requests w) (stdout w ++ log)) /\
    flagged log = [] /\ reported_invalid log = [].
Proof.
  unfold opened, validate_pdf_file, try_except, fitz_page_count.
  unfold bind, get_world, ret, raise, print. cbn beta iota.
  destruct (is_empty file_path).
  { exists [MNoPages file_path]. repeat split. }
  destruct (stat w file_path) as [[[|c content]|]|].
  - exists [MError EmptyFileError]. repeat split.
  - destruct (pdf_pages file_path (c :: content)) as [n|].
    + cbn [fst snd]. destruct (n =? 0).
      * exists [MNoPages file_path]. repeat split.
      * exists []. rewrite app_nil_r, world_eta. repeat split.
    + exists [MError FileDataError]. repeat split.
  - exists [MError FileDataError]. repeat split.
  - exists [MError FitzFileNotFoundError]. repeat split.
Qed.

Section SweepFacts.

Variable pdf_pages : ustr -> str -> option N.
Variable isupper_wide : N -> bool.

Local Abbreviation upper_name :=
  (fun p => check_upper_case_letter isupper_wide (get_filename_and_extension p)).

Lemma validate_regular_file (p : ustr) (w : world) :
  isfile w p = true ->
  exists log,
    validate_pdf_file pdf_pages p w
    = (Ok (valid_in pdf_pages w p),
       World (cwd w) (fs w) (requests w) (stdout w ++ log)) /\
    flagged log = [] /\ reported_invalid log = [].
Proof.
  intros Hfile.
  destruct (validate_pdf_file_outcome pdf_pages p w) as (log & Hv & Hlog).
  exists log. split; [|done]. rewrite Hv. do 2 f_equal.
  apply isfile_inv in Hfile as (Hne & _ & d & Hs & _).
  unfold opened, fitz_page_count, valid_in, bind, get_world.
  rewrite Hne, Hs. destruct d as [|c d]; [done|].
  destruct (pdf_pages p (c :: d)); done.
Qed.

(** One turn of the loop on a listed file. *)
Lemma sweep_file_regular (p : ustr) (w : world) :
  isfile w p = true ->
  exists log,
    sweep_file pdf_pages isupper_wide p w
    = (Ok tt,
       World (cwd w)
             (if valid_in pdf_pages w p then fs w
              else delete (resolve (cwd w) p) (fs w))
             (requests w) (stdout w ++ log)) /\
    flagged log = (if upper_name p then [p] else []) /\
    reported_invalid log = (if valid_in pdf_pages w p then [] else [p]).
Proof.
  intros Hfile.
  destruct (validate_regular_file p w Hfile) as (log & Hv & Hf & Hr).
  unfold sweep_file. unfold bind at 1. rewrite Hv.
  destruct (valid_in pdf_pages w p); cbn [negb].
  - unfold bind, ret.
    destruct (upper_name p) eqn:Hup.
    + exists (log ++ [MUppercase p]). unfold print. cbn [cwd fs requests stdout].
      rewrite app_assoc. split; [done|].
      unfold flagged, reported_invalid in *. rewrite !omap_app, Hf, Hr. repeat split.
    + exists log. repeat split; done.
  - assert (Hrm : forall o,
      remove_system_file p (World (cwd w) (fs w) (requests w) o)
      = (Ok tt, World (cwd w) (delete (resolve (cwd w) p) (fs w)) (requests w) o)).
    { intros o. unfold remove_system_file, os_remove, bind, get_world.
      pose proof Hfile as Hinv. apply isfile_inv in Hinv as (_ & Hnul & _).
      rewrite Hnul.
      change (isfile (World (cwd w) (fs w) (requests w) o) p) with (isfile w p).
      by rewrite Hfile. }
    unfold bind at 1. unfold bind at 1. unfold print at 1.
    cbn [cwd fs requests stdout]. rewrite Hrm.
    destruct (upper_name p) eqn:Hup.
    + exists (log ++ [MInvalid p] ++ [MUppercase p]). unfold print.
      cbn [cwd fs requests stdout]. rewrite <- !app_assoc. split; [done|].
      unfold flagged, reported_invalid in *. rewrite !omap_app, Hf, Hr. repeat split.
    + exists (log ++ [MInvalid p]). unfold ret. rewrite <- !app_assoc.
      split; [done|].
      unfold flagged, reported_invalid in *. rewrite !omap_app, Hf, Hr. repeat split.
Qed.

End SweepFacts.

Lemma filter_ext_in {X} (P Q : X -> bool) (l : list X) :
  (forall x, x ∈ l -> P x = Q x) -> filter P l = filter Q l.
Proof.
  induction l as [|x l IH]; intros H; [done|].
  rewrite !filter_cons, (H x) by (by left).
  rewrite IH by (intros y Hy; apply H; by right). done.
Qed.

Section SweepTheorem.

Variable pdf_pages : ustr -> str -> option N.
Variable isupper_wide : N -> bool.

Local Abbreviation upper_name :=
  (fun p => check_upper_case_letter isupper_wide (get_filename_and_extension p)).

Lemma stat_after_turn (w : world) (p p' : ustr) (b : bool) r o :
  isfile w p = true ->
  resolve (cwd w) p' ≠ resolve (cwd w) p ->
  stat (World (cwd w)
              (if b then fs w else delete (resolve (cwd w) p) (fs w)) r o) p'
  = stat w p'.
Proof.
  intros Hfile Hne. destruct b.
  - by apply stat_ext.
  - apply isfile_inv in Hfile as (_ & _ & d & _ & Hent).
    by eapply stat_delete.
Qed.

Lemma sweep_regular_files (files : list ustr) (w : world) :
  Forall (fun p => isfile w p = true) files ->
  NoDup (map (resolve (cwd w)) files) ->
  exists w',
    sweep pdf_pages isupper_wide files w = (Ok tt, w') /\
    flagged (stdout w')
    = flagged (stdout w) ++ filter (fun p => upper_name p) files /\
    reported_invalid (stdout w')
    = reported_invalid (stdout w)
      ++ filter (fun p => negb (valid_in pdf_pages w p)) files /\
    fs w'
    = fold_left (fun f p => delete (resolve (cwd w) p) f)
        (filter (fun p => negb (valid_in pdf_pages w p)) files) (fs w) /\
    cwd w' = cwd w /\ requests w' = requests w.
Proof.
  revert w. induction files as [|p files IH]; intros w Hfiles Hnodup.
  { exists w. unfold sweep. cbn [for_each]. rewrite !app_nil_r.
    repeat split. }
  apply Forall_cons in Hfiles as [Hp Hfiles].
  cbn [map] in Hnodup. apply NoDup_cons in Hnodup as [Hnotin Hnodup].
  destruct (sweep_file_regular pdf_pages isupper_wide p w Hp)
    as (log & Hturn & Hflag & Hinv).
  set (w1 := World (cwd w)
               (if valid_in pdf_pages w p then fs w
                else delete (resolve (cwd w) p) (fs w))
               (requests w) (stdout w ++ log)) in *.
  assert (Hstat : forall p', p' ∈ files -> stat w1 p' = stat w p').
  { intros p' Hin. apply stat_after_turn; [done|].
    intros Heq. apply Hnotin. rewrite <- Heq.
    apply list_elem_of_fmap. by exists p'. }
  assert (Hvalid : forall p', p' ∈ files ->
            valid_in pdf_pages w1 p' = valid_in pdf_pages w p').
  { intros p' Hin. unfold valid_in. by rewrite Hstat. }
  destruct (IH w1) as (w' & Hrest & Hflag' & Hinv' & Hfs' & Hcwd' & Hreq').
  { apply Forall_forall. intros p' Hin.
    rewrite Forall_forall in Hfiles. specialize (Hfiles p' Hin).
    unfold isfile in *. by rewrite Hstat. }
  { done. }
  exists w'. split.
  { unfold sweep in *. cbn [for_each]. unfold bind. by rewrite Hturn. }
  assert (Hfilter :
    filter (fun p' => negb (valid_in pdf_pages w1 p')) files
    = filter (fun p' => negb (valid_in pdf_pages w p')) files).
  { apply filter_ext_in. intros p' Hin. by rewrite Hvalid. }
  rewrite Hfilter in Hinv', Hfs'.
  rewrite Hflag', Hinv', Hfs', Hcwd', Hreq'. subst w1.
  cbn [cwd fs requests stdout].
  unfold flagged, reported_invalid in *. rewrite !omap_app, Hflag, Hinv.
  rewrite !filter_cons.
  repeat split.
  - rewrite <- app_assoc. f_equal.
    destruct (upper_name p) eqn:E; case_decide; naive_solver.
  - rewrite <- app_assoc. f_equal.
    destruct (valid_in pdf_pages w p); case_decide; naive_solver.
  - destruct (valid_in pdf_pages w p); case_decide; naive_solver.
Qed.

End SweepTheorem.

(** A second slash in front of an absolute path changes nothing. *)
Lemma resolve_extra_slash (c : list ustr) (p : ustr) :
  starts_with N.eqb [47] p = true -> resolve c (47 :: p) = resolve c p.
Proof.
  intros Hp. unfold resolve, base_of, components. rewrite Hp.
  cbn [starts_with split_on]. change (47 =? 47) with true.
  change (is_uslash 47) with true. cbn [andb fold_left]. done.
Qed.

Lemma stat_extra_slash (w : world) (p : ustr) :
  starts_with N.eqb [47] p = true -> stat w (47 :: p) = stat w p.
Proof.
  intros Hp. unfold stat, reachable.
  rewrite (resolve_extra_slash _ _ Hp).
  unfold base_of, components. rewrite Hp.
  cbn [starts_with split_on is_empty has_nul existsb negb andb orb].
  change (47 =? 47) with true. change (is_uslash 47) with true.
  change (0 =? 47) with false. cbn [andb orb].
  destruct p as [|x p]; [done|]. cbn [is_empty negb andb].
  fold (has_nul (x :: p)).
  destruct (split_on is_uslash (x :: p)) as [|c0 cs] eqn:Hs.
  { cbn [split_on] in Hs. destruct (is_uslash x); [done|].
    by destruct (split_on is_uslash p). }
  cbn [walkable is_empty]. unfold step at 1. cbn [is_empty orb rev].
  unfold entry_at at 1.
  by rewrite (bool_decide_eq_true_2 _ (prefix_nil (cwd w))).
Qed.

Lemma abspath_of_slash (k : list ustr) :
  k ≠ [] -> starts_with N.eqb [47] (abspath_of k) = true.
Proof. by destruct k. Qed.

Lemma listed_nonempty (w : world) (root : list ustr) (extension : ustr)
    (k : list ustr) :
  listed w root extension k = true -> k ≠ [].
Proof.
  unfold listed. rewrite !andb_true_iff.
  intros [[[[H1 H2] _] _] _] ->.
  apply bool_decide_eq_true in H1. apply negb_true_iff in H2.
  apply bool_decide_eq_false in H2. apply H2. symmetry.
  by apply prefix_nil_inv.
Qed.

Lemma stat_spelled (w : world) (top : ustr) (k : list ustr) :
  k ≠ [] -> stat w (spelled top k) = stat w (abspath_of k).
Proof.
  intros Hk. unfold spelled. destruct (two_slashes top); [|done].
  by apply stat_extra_slash, abspath_of_slash.
Qed.

Lemma resolve_spelled (c : list ustr) (top : ustr) (k : list ustr) :
  k ≠ [] -> resolve c (spelled top k) = resolve c (abspath_of k).
Proof.
  intros Hk. unfold spelled. destruct (two_slashes top); [|done].
  by apply resolve_extra_slash, abspath_of_slash.
Qed.

(** The walk raises for a path with a NUL character and for no other;
    what it lists are regular files, each listed once. *)
Lemma walk_lists_regular_files (system_path extension : ustr) (w : world) :
  exists files,
    walk_directory_and_extract_given_file_extension system_path extension w
    = ((if has_nul system_path then Raise ValueError else Ok files), w) /\
    Forall (fun p => isfile w p = true) files /\
    NoDup (map (resolve (cwd w)) files).
Proof.
  unfold walk_directory_and_extract_given_file_extension, bind, get_world,
    ret, raise.
  destruct (has_nul system_path).
  { exists []. repeat split; constructor. }
  destruct (stat w system_path) as [[d|]|];
    try (exists []; repeat split; constructor).
  set (root := resolve (cwd w) system_path).
  set (ks := filter (fun k => listed w root extension k)
               (map fst (map_to_list (fs w)))).
  exists (map (spelled system_path) ks). split; [done|].
  assert (Hks : forall k, k ∈ ks ->
            isfile w (spelled system_path k) = true /\
            resolve (cwd w) (spelled system_path k) = k).
  { intros k Hk. apply list_elem_of_filter in Hk as [Hk _].
    apply Is_true_true in Hk.
    pose proof (listed_nonempty _ _ _ _ Hk) as Hne.
    unfold isfile. rewrite (stat_spelled _ _ _ Hne), (resolve_spelled _ _ _ Hne).
    unfold listed in Hk.
    rewrite !andb_true_iff in Hk. destruct Hk as [[_ Hfile] Hres].
    by apply bool_decide_eq_true in Hres. }
  split.
  - apply Forall_forall. intros p Hp.
    apply list_elem_of_fmap in Hp as (k & -> & Hk). by apply Hks.
  - assert (Hmap : map (resolve (cwd w)) (map (spelled system_path) ks) = ks).
    { rewrite map_map. rewrite <- (map_id ks) at 2.
      apply map_ext_in. intros k Hk. apply Hks. by apply list_elem_of_In. }
    rewrite Hmap. apply NoDup_filter, NoDup_fst_map_to_list.
Qed.

(** The sample folder is listed in full. *)
Example walk_three_files :
  exists files,
    walk_directory_and_extract_given_file_extension
      (ulit "./PDFs") (ulit ".pdf") w_three = (Ok files, w_three) /\
    files ≡ₚ three_files.
Proof.
  eexists. split; [vm_compute; reflexivity|].
  apply (bool_decide_unpack _). vm_compute. exact I.
Qed.

Lemma existsb_elem_of {X} (f : X -> bool) (l : list X) :
  existsb f l = true <-> exists x, x ∈ l /\ f x = true.
Proof.
  induction l as [|y l IH]; simpl.
  - split; [done|]. intros (x & Hx & _). by apply elem_of_nil in Hx.
  - rewrite orb_true_iff, IH. split.
    + intros [Hy|(x & Hx & Hf)]; [exists y | exists x]; split; try done.
      * by left.
      * by right.
    + intros (x & Hx & Hf). apply elem_of_cons in Hx as [->|Hx]; eauto.
Qed.

(** C9. In the sweep over the listed files (regular files, each listed
    once, as the walk lists them), the uppercase check runs on every one
    of them, the removed ones included: the flagged paths are exactly the
    listed paths whose bare file name holds an uppercase letter, in the
    order of the list.  So [Report.pdf] is flagged and [report.pdf] is
    not.  Flagging is a report only: the files after the sweep are the
    files before it less the invalid ones, and no request is sent. *)
Theorem uppercase_check_on_every_listed_file
    (pdf_pages : ustr -> str -> option N) (isupper_wide : N -> bool) :
  (forall (files : list ustr) (w : world),
      Forall (fun p => isfile w p = true) files ->
      NoDup (map (resolve (cwd w)) files) ->
      exists w',
        sweep pdf_pages isupper_wide files w = (Ok tt, w') /\
        flagged (stdout w')
        = flagged (stdout w)
          ++ filter (fun p => check_upper_case_letter isupper_wide
                                (get_filename_and_extension p)) files /\
        reported_invalid (stdout w')
        = reported_invalid (stdout w)
          ++ filter (fun p => negb (valid_in pdf_pages w p)) files /\
        fs w'
        = fold_left (fun f p => delete (resolve (cwd w) p) f)
            (filter (fun p => negb (valid_in pdf_pages w p)) files) (fs w) /\
        cwd w' = cwd w /\ requests w' = requests w) /\
  (forall (system_path extension : ustr) (w : world),
      exists files,
        walk_directory_and_extract_given_file_extension system_path extension w
        = ((if has_nul system_path then Raise ValueError else Ok files), w) /\
        Forall (fun p => isfile w p = true) files /\
        NoDup (map (resolve (cwd w)) files)) /\
  (forall content : ustr,
      check_upper_case_letter isupper_wide content = true <->
      exists c, c ∈ content /\ uisupper isupper_wide c = true) /\
  check_upper_case_letter isupper_wide
    (get_filename_and_extension (ulit "/srv/job/PDFs/Report.pdf")) = true /\
  check_upper_case_letter isupper_wide
    (get_filename_and_extension (ulit "/srv/job/PDFs/report.pdf")) = false.
Proof.
  split; [|split; [|split; [|split]]].
  - apply sweep_regular_files.
  - apply walk_lists_regular_files.
  - intros content. apply existsb_elem_of.
  - vm_compute. reflexivity.
  - vm_compute. reflexivity.
Qed.

Lemma uppercase_check_on_every_listed_file_witness :
  exists w',
    sweep pages_sample no_wide_upper three_files w_three = (Ok tt, w') /\
    flagged (stdout w')
    = flagged (stdout w_three)
      ++ filter (fun p => check_upper_case_letter no_wide_upper
                            (get_filename_and_extension p)) three_files /\
    reported_invalid (stdout w')
    = reported_invalid (stdout w_three)
      ++ filter (fun p => negb (valid_in pages_sample w_three p)) three_files /\
    fs w'
    = fold_left (fun f p => delete (resolve (cwd w_three) p) f)
        (filter (fun p => negb (valid_in pages_sample w_three p)) three_files)
        (fs w_three) /\
    cwd w' = cwd w_three /\ requests w' = requests w_three.
Proof.
  apply (proj1 (uppercase_check_on_every_listed_file pages_sample no_wide_upper)).
  - apply (bool_decide_unpack _). vm_compute. exact I.
  - apply (bool_decide_unpack _). vm_compute. exact I.
Defined.

(** The sample sweep: the empty file is removed and still flagged. *)
Example sweep_three_files :
  let r := sweep pages_sample no_wide_upper three_files w_three in
  r.1 = Ok tt /\
  flagged (stdout r.2)
  = [ulit "/srv/job/PDFs/Report.pdf"; ulit "/srv/job/PDFs/Empty.pdf"] /\
  reported_invalid (stdout r.2) = [ulit "/srv/job/PDFs/Empty.pdf"] /\
  fs r.2 !! [ulit "srv"; ulit "job"; ulit "PDFs"; ulit "Empty.pdf"] = None.
Proof. vm_compute. repeat split. Qed.

(** ** The manifest *)

Lemma manifest_ext (w w' : world) :
  cwd w' = cwd w ->
  fs w' !! (cwd w ++ [new_file_name]) = fs w !! (cwd w ++ [new_file_name]) ->
  manifest w' = manifest w.
Proof. intros Hc Hf. unfold manifest. by rewrite Hc, Hf. Qed.

Lemma manifest_key_ne_folder (c : list ustr) :
  c ++ [new_file_name] ≠ resolve c save_folder.
Proof.
  rewrite (resolve_plain _ _ plain_save_folder).
  intros H. apply app_inv_head in H. vm_compute in H. discriminate H.
Qed.

Lemma manifest_after_makedirs (w : world) :
  manifest (after_makedirs w) = manifest w.
Proof.
  apply manifest_ext; [apply after_makedirs_cwd|].
  unfold after_makedirs. destruct (stat w save_folder); [done|].
  cbn [fs]. rewrite lookup_insert_ne; [done|].
  intros H. symmetry in H. by apply manifest_key_ne_folder in H.
Qed.

(** [append_write_to_file] on the manifest: the text goes to its end, or
    the call raises and the manifest is as before. *)
Lemma append_manifest (content : str) (w : world) :
  let r := append_write_to_file new_file_name content w in
  cwd r.2 = cwd w /\
  (r.1 = Ok tt /\ manifest r.2 = manifest w ++ content \/
   (exists e, r.1 = Raise e) /\ manifest r.2 = [] /\ manifest w = []).
Proof.
  unfold append_write_to_file, open_a, write_to, bind, get_world. cbn zeta.
  change (has_nul new_file_name) with false. cbn iota.
  rewrite (stat_plain _ _ plain_new_file_name).
  unfold manifest.
  destruct (fs w !! (cwd w ++ [new_file_name])) as [[c|]|] eqn:E.
  - unfold ret. rewrite (resolve_plain _ _ plain_new_file_name), E.
    unfold put, set_fs. cbn [fst snd cwd fs].
    rewrite (resolve_plain _ _ plain_new_file_name), lookup_insert_eq.
    split; [done|]. by left.
  - unfold raise. cbn [fst snd]. rewrite E. split; [done|]. right. eauto.
  - replace (creatable w new_file_name) with true.
    2:{ unfold creatable, reachable. symmetry.
        destruct (plain_name_parts _ plain_new_file_name)
          as (Hc & Hn & He & _ & _ & _).
        rewrite Hc, Hn, He. reflexivity. }
    unfold put, set_fs. cbn [fst snd cwd fs].
    rewrite !(resolve_plain _ _ plain_new_file_name), lookup_insert_eq.
    cbn [fst snd cwd fs].
    rewrite !(resolve_plain _ _ plain_new_file_name), lookup_insert_eq.
    split; [done|]. by left.
Qed.

Section Manifest.

Variable bracketed_host_ok : str -> bool.
Variable net : list str -> str -> http_result.

Lemma filename_raises_value_error (url : str) (e : exn) :
  url_to_filename bracketed_host_ok url = Raise e -> e = ValueError.
Proof.
  unfold url_to_filename, urlparse_path.
  destruct (split_scheme _) as [scheme rest].
  destruct (negb (check_brackets _ _)); [congruence|]. done.
Qed.

(** The response is no error, and the target cannot be opened: the
    exception of [open] leaves [download_pdf]. *)
Lemma download_cannot_open (url : str) (lfp f : ustr) (w : world)
    (status : N) (chunks : list str) (broken : bool) :
  folder_ok w = true ->
  url_to_filename bracketed_host_ok url = Ok f ->
  isfile (after_makedirs w) (target f) = false ->
  net (requests w) url = Response status chunks broken ->
  is_http_error status = false ->
  can_open (after_makedirs w) (target f) = false ->
  exists e,
    download_pdf bracketed_host_ok net url lfp w
    = (Raise e, World (cwd w) (fs (after_makedirs w)) (requests w ++ [url])
                      (stdout w)).
Proof.
  intros Hok Hname Hex Hnet Hst Hopen.
  unfold download_pdf, try_except.
  unfold bind at 1. rewrite (makedirs_ok _ Hok).
  unfold bind at 1. unfold lift at 1. rewrite Hname.
  unfold bind at 1. unfold check_file_exists. unfold bind at 1.
  unfold get_world, ret at 1. fold (target f). rewrite Hex.
  unfold bind at 1. unfold requests_get.
  rewrite after_makedirs_requests, Hnet.
  unfold bind at 1. unfold raise_for_status.
  unfold is_http_error in Hst. rewrite Hst. unfold ret at 1.
  unfold bind at 1. unfold open_wb. unfold bind at 1. unfold get_world.
  rewrite after_makedirs_cwd, after_makedirs_stdout.
  set (w2 := World (cwd w) (fs (after_makedirs w)) (requests w ++ [url])
                   (stdout w)).
  assert (Hopen2 : can_open w2 (target f) = false).
  { rewrite <- Hopen. apply can_open_ext; [by rewrite after_makedirs_cwd|done]. }
  assert (Hex2 : isfile w2 (target f) = false).
  { rewrite <- Hex. unfold isfile. rewrite (stat_ext w2 (after_makedirs w));
      [done|by rewrite after_makedirs_cwd|done]. }
  unfold can_open in Hopen2. unfold isfile in Hex2.
  destruct (has_nul (target f)); [by exists ValueError|].
  cbn [negb andb] in Hopen2.
  destruct (stat w2 (target f)) as [[c|]|]; try done.
  - by exists OSError.
  - rewrite Hopen2. by exists OSError.
Qed.

(** What [download_pdf] can do to the manifest: nothing, unless its
    target is the manifest path and no file is there yet. *)
Lemma download_manifest (url : str) (lfp : ustr) (w : world) :
  let r := download_pdf bracketed_host_ok net url lfp w in
  cwd r.2 = cwd w /\
  exists x : str,
    manifest r.2 = manifest w ++ x /\
    (r.1 ≠ Ok tt -> x = []) /\
    ((forall f, url_to_filename bracketed_host_ok url = Ok f ->
                resolve (cwd w) (target f) ≠ cwd w ++ [new_file_name]) ->
     x = []).
Proof.
  cbn zeta.
  split; [apply (touches_download bracketed_host_ok net url lfp w)|].
  assert (Hsame : forall r w',
    download_pdf bracketed_host_ok net url lfp w = (r, w') ->
    cwd w' = cwd w -> fs w' = fs (after_makedirs w) ->
    exists x : str,
      manifest w' = manifest w ++ x /\
      (r ≠ Ok tt -> x = []) /\
      ((forall f, url_to_filename bracketed_host_ok url = Ok f ->
                  resolve (cwd w) (target f) ≠ cwd w ++ [new_file_name]) ->
       x = [])).
  { intros r w' _ Hc Hf. exists []. rewrite app_nil_r. split; [|done].
    rewrite <- (manifest_after_makedirs w).
    apply manifest_ext; [by rewrite after_makedirs_cwd|].
    by rewrite Hf, after_makedirs_cwd. }
  destruct (folder_ok w) eqn:Hok.
  2:{ rewrite (download_no_folder _ _ _ _ _ Hok). cbn [fst snd].
      exists []. by rewrite app_nil_r. }
  destruct (url_to_filename bracketed_host_ok url) as [f|e] eqn:Hname.
  2:{ pose proof (filename_raises_value_error _ _ Hname) as ->.
      pose proof (download_bad_name bracketed_host_ok net url lfp w _
                    Hok Hname eq_refl) as Hd.
      rewrite Hd. cbn [fst snd].
      apply (Hsame _ _ Hd); [apply after_makedirs_cwd|done]. }
  destruct (isfile (after_makedirs w) (target f)) eqn:Hex.
  { pose proof (download_existing bracketed_host_ok net url lfp f w
                  Hok Hname Hex) as Hd.
    rewrite Hd. cbn [fst snd]. by apply (Hsame _ _ Hd). }
  destruct (net (requests w) url) as [e|status chunks broken|e] eqn:Hnet.
  { pose proof (download_get_raises bracketed_host_ok net url lfp f w e
                  Hok Hname Hex Hnet) as Hd.
    rewrite Hd. cbn [fst snd]. by apply (Hsame _ _ Hd). }
  2:{ pose proof (download_get_raises_other bracketed_host_ok net url lfp f w e
                    Hok Hname Hex Hnet) as Hd.
      rewrite Hd.
      destruct (is_RequestException e); cbn [fst snd]; by apply (Hsame _ _ Hd). }
  destruct (is_http_error status) eqn:Hst.
  { pose proof (download_http_error bracketed_host_ok net url lfp f w
                  status chunks broken Hok Hname Hex Hnet Hst) as Hd.
    rewrite Hd. cbn [fst snd]. by apply (Hsame _ _ Hd). }
  destruct (can_open (after_makedirs w) (target f)) eqn:Hopen.
  2:{ destruct (download_cannot_open url lfp f w status chunks broken
                  Hok Hname Hex Hnet Hst Hopen) as [e Hd].
      rewrite Hd. cbn [fst snd]. by apply (Hsame _ _ Hd). }
  rewrite (download_written bracketed_host_ok net url lfp f w status chunks
             broken Hok Hname Hex Hnet Hst Hopen).
  cbn [fst snd].
  destruct (decide (resolve (cwd w) (target f) = cwd w ++ [new_file_name]))
    as [Heq|Hne].
  - exists (concat chunks).
    assert (Hnone : fs (after_makedirs w) !! (cwd w ++ [new_file_name]) = None).
    { unfold can_open, isfile, stat, creatable in Hopen, Hex.
      apply andb_true_iff in Hopen as [_ Hopen].
      destruct (reachable (after_makedirs w) (target f)); [|done].
      rewrite after_makedirs_cwd, Heq in Hopen, Hex.
      unfold entry_at in Hopen, Hex.
      rewrite (bool_decide_eq_false_2 _ (not_prefix_snoc _ _)) in Hopen, Hex.
      destruct (fs (after_makedirs w) !! (cwd w ++ [new_file_name]))
        as [[c|]|]; done. }
    assert (Hold : manifest w = []).
    { rewrite <- manifest_after_makedirs. unfold manifest.
      by rewrite after_makedirs_cwd, Hnone. }
    rewrite Hold. split; [|split].
    + unfold manifest. cbn [cwd fs]. by rewrite Heq, lookup_insert_eq.
    + intros H. done.
    + intros H. by destruct (H f eq_refl).
  - exists []. rewrite app_nil_r. split; [|done].
    rewrite <- (manifest_after_makedirs w). unfold manifest.
    cbn [cwd fs]. rewrite after_makedirs_cwd. by rewrite lookup_insert_ne.
Qed.

(** One turn of the loop on a selected line: the URL is appended when
    the turn returns, and nothing is when it raises. *)
Lemma process_selected_line (line : str) (w : world) :
  selected line = true ->
  let r := process_line bracketed_host_ok net line w in
  cwd r.2 = cwd w /\
  (r.1 = Ok tt /\
   (exists x : str,
       manifest r.2 = manifest w ++ x ++ trim_line line ++ [nl] /\
       ((forall f,
            url_to_filename bracketed_host_ok (trim_line line) = Ok f ->
            resolve (cwd w) (target f) ≠ cwd w ++ [new_file_name]) ->
        x = [])) \/
   (exists e, r.1 = Raise e) /\ manifest r.2 = manifest w).
Proof.
  intros Hsel. unfold process_line. rewrite Hsel.
  fold (trim_line line). set (url := trim_line line) in *. cbn zeta.
  unfold bind, lift.
  destruct (url_to_filename bracketed_host_ok url) as [f|e] eqn:Hname.
  2:{ cbn [fst snd]. split; [done|]. right. eauto. }
  destruct (download_manifest url f w) as (Hcwd & x & Hx & Hraise & Hspare).
  cbn zeta in Hcwd, Hx, Hraise, Hspare. rewrite Hname in Hspare.
  destruct (download_pdf bracketed_host_ok net url f w) as [[[]|e] wd];
    cbn [fst snd] in *.
  - destruct (append_manifest (url ++ [nl]) wd) as [Hc Happ].
    cbn zeta in Hc, Happ.
    destruct (append_write_to_file new_file_name (url ++ [nl]) wd)
      as [[[]|e] wa]; cbn [fst snd] in *.
    + split; [congruence|]. left. split; [done|].
      destruct Happ as [[_ H]|[[e He] _]]; [|done].
      exists x. split; [|done]. by rewrite H, Hx, <- app_assoc.
    + split; [congruence|]. right. split; [eauto|].
      destruct Happ as [[H _]|(_ & H & Hd)]; [done|].
      rewrite Hx in Hd. apply app_eq_nil in Hd as [-> _]. done.
  - split; [done|]. right. split; [eauto|].
    rewrite Hx, Hraise by done. by rewrite app_nil_r.
Qed.

Lemma spares_manifest_cons (w w1 : world) (line : str) (rest : list str) :
  cwd w1 = cwd w ->
  spares_manifest bracketed_host_ok w (line :: rest) ->
  spares_manifest bracketed_host_ok w1 rest.
Proof.
  intros Hc H l f Hin Hsel Hname. rewrite Hc.
  apply (H l f); [by right|done|done].
Qed.

Lemma process_lines_manifest (url_lines : list str) (w : world) :
  let r := process_lines bracketed_host_ok net url_lines w in
  exists xs : list str,
    manifest r.2
    = manifest w ++ manifest_growth xs (selected_urls url_lines) /\
    (r.1 = Ok tt -> length xs = length (selected_urls url_lines)) /\
    (r.1 ≠ Ok tt -> (length xs < length (selected_urls url_lines))%nat) /\
    (spares_manifest bracketed_host_ok w url_lines ->
     xs = replicate (length xs) []).
Proof.
  revert w. induction url_lines as [|line rest IH]; intros w; cbn zeta.
  { exists []. unfold process_lines. cbn. rewrite app_nil_r.
    repeat split; done. }
  unfold process_lines. cbn [for_each].
  fold (process_lines bracketed_host_ok net rest).
  unfold selected_urls. rewrite filter_cons.
  destruct (selected line) eqn:Hsel.
  - rewrite decide_True by done. cbn [map]. fold (selected_urls rest).
    destruct (process_selected_line line w Hsel) as [Hc Hturn].
    cbn zeta in Hc, Hturn. unfold bind.
    destruct (process_line bracketed_host_ok net line w) as [[[]|e] w1];
      cbn [fst snd] in *.
    + destruct Hturn as [[_ (x & Hm & Hx)]|[[e He] _]]; [|done].
      destruct (IH w1) as (xs & Hn & Hok & Hraise & Hspare).
      cbn zeta in Hn, Hok, Hraise, Hspare.
      exists (x :: xs). cbn [length]. split; [|split; [|split]].
      * rewrite Hn, Hm. unfold manifest_growth. cbn [zip_with concat].
        by rewrite <- !app_assoc.
      * intros H. by rewrite (Hok H).
      * intros H. specialize (Hraise H). lia.
      * intros H. cbn [replicate]. f_equal.
        -- apply Hx. intros f Hf. apply (H line f); [by left|done|done].
        -- apply Hspare. by eapply spares_manifest_cons.
    + destruct Hturn as [[H _]|[_ Hm]]; [done|].
      exists []. cbn [length]. unfold manifest_growth. cbn.
      rewrite app_nil_r. repeat split; [done|done|lia].
  - rewrite decide_False by (intros []). fold (selected_urls rest).
    unfold process_line. rewrite Hsel. unfold bind, ret.
    destruct (IH w) as (xs & Hn & Hok & Hraise & Hspare).
    exists xs. repeat split; try done.
    intros H. apply Hspare. intros l f Hin. apply H. by right.
Qed.

Lemma process_lines_cons (line : str) (rest : list str) (w : world) :
  process_lines bracketed_host_ok net (line :: rest) w
  = match process_line bracketed_host_ok net line w with
    | (Ok _, w1) => process_lines bracketed_host_ok net rest w1
    | (Raise e, w1) => (Raise e, w1)
    end.
Proof. reflexivity. Qed.

(** The loop turn by turn: the lines before the first turn that raises
    are all processed, and the run ends in the world that turn leaves. *)
Lemma process_lines_record (url_lines : list str) (w : world) :
  let r := process_lines bracketed_host_ok net url_lines w in
  exists (processed : list str) (xs : list str),
    manifest r.2
    = manifest w ++ manifest_growth xs (selected_urls processed) /\
    length xs = length (selected_urls processed) /\
    (spares_manifest bracketed_host_ok w url_lines ->
     xs = replicate (length xs) []) /\
    (r.1 = Ok tt /\ processed = url_lines \/
     exists e line later w0,
       url_lines = processed ++ line :: later /\
       selected line = true /\
       process_lines bracketed_host_ok net processed w = (Ok tt, w0) /\
       process_line bracketed_host_ok net line w0 = (Raise e, r.2) /\
       r.1 = Raise e /\
       manifest r.2 = manifest w0).
Proof.
  revert w. induction url_lines as [|line rest IH]; intros w; cbn zeta.
  { exists [], []. unfold process_lines. cbn. rewrite app_nil_r.
    split; [done|]. split; [done|]. split; [done|]. by left. }
  rewrite process_lines_cons.
  destruct (selected line) eqn:Hsel.
  - destruct (process_selected_line line w Hsel) as [Hc Hturn].
    cbn zeta in Hc, Hturn.
    destruct (process_line bracketed_host_ok net line w) as [[[]|e] w1] eqn:Hpl;
      cbn [fst snd] in *.
    + destruct Hturn as [[_ (x & Hm & Hx)]|[[e He] _]]; [|done].
      destruct (IH w1) as (processed & xs & Hn & Hlen & Hspare & Hend).
      cbn zeta in Hn, Hlen, Hspare, Hend.
      exists (line :: processed), (x :: xs).
      assert (Hsu : selected_urls (line :: processed)
                    = trim_line line :: selected_urls processed).
      { unfold selected_urls. rewrite filter_cons, decide_True; [done|].
        by rewrite Hsel. }
      rewrite Hsu. cbn [length]. split; [|split; [|split]].
      * rewrite Hn, Hm. unfold manifest_growth. cbn [zip_with concat].
        by rewrite <- !app_assoc.
      * by rewrite Hlen.
      * intros H. cbn [replicate]. f_equal.
        -- apply Hx. intros f Hf. apply (H line f); [by left|done|done].
        -- apply Hspare. by eapply spares_manifest_cons.
      * destruct Hend as [[Hok ->]|(e & l & later & w0 & -> & Hl & Hp & Ht & He & Hmm)].
        -- by left.
        -- right. exists e, l, later, w0. split; [done|]. split; [done|].
           split; [|done]. by rewrite process_lines_cons, Hpl.
    + destruct Hturn as [[H _]|[_ Hm]]; [done|].
      exists [], []. cbn [length]. unfold manifest_growth. cbn.
      rewrite app_nil_r. split; [done|]. split; [done|]. split; [done|].
      right. by exists e, line, rest, w.
  - assert (Hpl : process_line bracketed_host_ok net line w = (Ok tt, w)).
    { unfold process_line. by rewrite Hsel. }
    rewrite Hpl.
    destruct (IH w) as (processed & xs & Hn & Hlen & Hspare & Hend).
    cbn zeta in Hn, Hlen, Hspare, Hend.
    exists (line :: processed), xs.
    assert (Hsu : selected_urls (line :: processed) = selected_urls processed).
    { unfold selected_urls. rewrite filter_cons, decide_False; [done|].
      rewrite Hsel. intros []. }
    rewrite Hsu. split; [done|]. split; [done|]. split.
    { intros H. apply Hspare. intros l f Hin. apply H. by right. }
    destruct Hend as [[Hok ->]|(e & l & later & w0 & -> & Hl & Hp & Ht & He & Hmm)].
    + by left.
    + right. exists e, l, later, w0. split; [done|]. split; [done|].
      split; [|done]. by rewrite process_lines_cons, Hpl.
Qed.

End Manifest.

Lemma spares_manifest_check (bracketed_host_ok : str -> bool)
    (w : world) (url_lines : list str) :
  spares_manifest_b bracketed_host_ok w url_lines = true ->
  spares_manifest bracketed_host_ok w url_lines.
Proof.
  unfold spares_manifest_b. rewrite forallb_forall.
  intros H line f Hin Hsel Hname.
  apply list_elem_of_In in Hin. specialize (H line Hin).
  rewrite Hsel, Hname in H. cbn [negb orb] in H.
  apply negb_true_iff, bool_decide_eq_false in H. exact H.
Qed.

(** C5 (amended). The loop of [main] goes through the lines in order up to
    the first turn that raises, or to the end.  For every selected line
    among the lines gone through (its turn returned: the download wrote
    the file, skipped it or failed on the request) the URL and a newline
    are at the end of the manifest, in the order processed.  A turn that
    raises is the turn of a selected line; the run ends there with its
    exception, and neither its URL nor a later one is written.  What was
    in the manifest stays in front; and nothing but these lines is added,
    unless a download is aimed at the manifest path itself. *)
Theorem manifest_records_completed_urls
    (bracketed_host_ok : str -> bool) (net : list str -> str -> http_result)
    (url_lines : list str) (w : world) :
  let r := process_lines bracketed_host_ok net url_lines w in
  exists (processed : list str) (xs : list str),
    manifest r.2
    = manifest w ++ manifest_growth xs (selected_urls processed) /\
    length xs = length (selected_urls processed) /\
    (spares_manifest bracketed_host_ok w url_lines ->
     xs = replicate (length xs) []) /\
    (r.1 = Ok tt /\ processed = url_lines \/
     exists e line later w0,
       url_lines = processed ++ line :: later /\
       selected line = true /\
       process_lines bracketed_host_ok net processed w = (Ok tt, w0) /\
       process_line bracketed_host_ok net line w0 = (Raise e, r.2) /\
       r.1 = Raise e /\
       manifest r.2 = manifest w0).
Proof. apply process_lines_record. Qed.

Lemma manifest_records_completed_urls_witness :
  let r := process_lines any_brackets net_down
             [line_a; line_png; line_docx] w_empty in
  exists (processed : list str) (xs : list str),
    manifest r.2
    = manifest w_empty ++ manifest_growth xs (selected_urls processed) /\
    length xs = length (selected_urls processed) /\
    xs = replicate (length xs) [] /\
    processed = [line_a; line_png; line_docx].
Proof.
  destruct (manifest_records_completed_urls any_brackets net_down
              [line_a; line_png; line_docx] w_empty)
    as (processed & xs & Hm & Hlen & Hspare & Hend).
  exists processed, xs. split; [exact Hm|]. split; [exact Hlen|].
  split; [apply Hspare, spares_manifest_check; vm_compute; reflexivity|].
  destruct Hend as [[_ H]|(e & line & later & w0 & _ & _ & _ & _ & He & _)];
    [exact H|].
  vm_compute in He. discriminate He.
Defined.

(** The sample run: the server is down, both selected URLs are recorded. *)
Example manifest_after_failed_downloads :
  let r := process_lines any_brackets net_down
             [line_a; line_png; line_docx] w_empty in
  r.1 = Ok tt /\
  manifest r.2
  = lit "https://example.com/a.pdf" ++ [nl]
    ++ qlit "https://example.com/c.docx'" ++ [nl].
Proof. vm_compute. split; reflexivity. Qed.

(** C5, as stated, fails: a selected URL that [urlparse] rejects raises
    [ValueError] in [url_to_filename]; the run ends there, and neither this
    URL nor the selected one after it reaches the manifest. *)
Lemma rejected_url_is_not_recorded :
  selected line_bracket = true /\ selected line_a = true /\
  let r := process_lines any_brackets net_pdf [line_bracket; line_a] w_empty in
  r.1 = Raise ValueError /\ manifest r.2 = [] /\
  fs r.2 !! (cwd w_empty ++ [new_file_name]) = None.
Proof. vm_compute. repeat split. Qed.

(** A download aimed at the manifest path, when no manifest is there yet,
    leaves its bytes in front of the URL. *)
Example download_into_manifest :
  let url := lit "http://h/%2Fsrv%2Fjob%2Fextracted_urls.txt?x=.pdf" in
  let r := process_lines any_brackets net_pdf [url] w_empty in
  r.1 = Ok tt /\ manifest r.2 = lit "%PDF-1.4" ++ url ++ [nl].
Proof. vm_compute. split; reflexivity. Qed.

(** ** File names *)


Lemma split_on_after_last {X} (f : X -> bool) (s : list X) :
  match after_last f s with
  | None => split_on f s = [s]
  | Some r => exists front, split_on f s = front ++ [r] /\ front ≠ []
  end.
Proof.
  induction s as [|c s IH]; [done|].
  cbn [after_last split_on].
  destruct (after_last f s) as [r|].
  - destruct IH as (front & -> & Hne).
    destruct (f c).
    + exists ([] :: front). done.
    + destruct front as [|x front]; [done|]. exists ((c :: x) :: front). done.
  - rewrite IH. destruct (f c); [|done].
    exists [[]]. done.
Qed.

(** [os.path.basename] gives the last of the pieces between slashes. *)
Lemma basename_final_segment (path : str) :
  basename is_slash path = final_segment path.
Proof.
  unfold basename, final_segment.
  pose proof (split_on_after_last is_slash path) as H.
  destruct (after_last is_slash path) as [r|].
  - destruct H as (front & -> & _). by rewrite last_snoc.
  - by rewrite H.
Qed.

Lemma split_on_nonempty {X} (f : X -> bool) (s : list X) : split_on f s ≠ [].
Proof.
  destruct s as [|c s]; [done|]. cbn [split_on].
  destruct (f c); [done|]. by destruct (split_on f s).
Qed.

Lemma utf8_decode_nonempty (bs : list N) : bs ≠ [] -> utf8_decode bs ≠ [].
Proof.
  destruct bs as [|b0 r0]; [done|]. intros _. cbn [utf8_decode].
  repeat case_match; done.
Qed.

Lemma unquote_item_nonempty (item : str) : unquote_item item ≠ [].
Proof. unfold unquote_item. repeat case_match; done. Qed.

Lemma unquote_to_bytes_nonempty (s : str) : s ≠ [] -> unquote_to_bytes s ≠ [].
Proof.
  destruct s as [|c s]; [done|]. intros _. unfold unquote_to_bytes.
  cbn [split_on]. destruct (ascii_eqb c "%") eqn:Hc.
  - pose proof (split_on_nonempty (fun c => ascii_eqb c "%"%char) s) as Hne.
    destruct (split_on _ s) as [|item items]; [done|].
    cbn [widen map app flat_map].
    pose proof (unquote_item_nonempty item). by destruct (unquote_item item).
  - by destruct (split_on _ s).
Qed.

Lemma unquote_parts_nonempty (run s : str) :
  run ≠ [] \/ s ≠ [] -> unquote_parts run s ≠ [].
Proof.
  revert run. induction s as [|c s IH]; intros run Hne; cbn [unquote_parts].
  - destruct Hne as [Hne|]; [|done].
    unfold unquote_run. apply utf8_decode_nonempty, unquote_to_bytes_nonempty.
    intros H. apply Hne. by apply (f_equal (@rev ascii)) in H;
      rewrite rev_involutive in H.
  - destruct (code c <? 128); [apply IH; by left|].
    by destruct (unquote_run run).
Qed.

(** Decoding never empties a name. *)
Lemma unquote_nonempty (s : str) : s ≠ [] -> unquote s ≠ [].
Proof.
  intros Hne. unfold unquote. destruct (negb (char_in s "%")).
  - unfold widen. by destruct s.
  - apply unquote_parts_nonempty. by right.
Qed.

(** C8 (amended). For a URL that [urlparse] accepts and whose path has a
    non-empty last segment (the text after its last slash),
    [url_to_filename] returns that segment percent-decoded, and the result
    is not empty. *)
Theorem filename_is_decoded_last_segment
    (bracketed_host_ok : str -> bool) (url path : str) :
  urlparse_path bracketed_host_ok url = Ok path ->
  final_segment path ≠ [] ->
  url_to_filename bracketed_host_ok url = Ok (unquote (final_segment path)) /\
  unquote (final_segment path) ≠ [].
Proof.
  intros Hpath Hseg. unfold url_to_filename.
  rewrite Hpath, basename_final_segment.
  split; [done|]. by apply unquote_nonempty.
Qed.

Lemma filename_is_decoded_last_segment_witness :
  url_to_filename any_brackets (lit "https://example.com/docs/a%20b.pdf?download=1")
  = Ok (unquote (final_segment (lit "/docs/a%20b.pdf"))) /\
  unquote (final_segment (lit "/docs/a%20b.pdf")) ≠ [].
Proof.
  apply (filename_is_decoded_last_segment any_brackets
           (lit "https://example.com/docs/a%20b.pdf?download=1")
           (lit "/docs/a%20b.pdf")).
  - vm_compute. reflexivity.
  - vm_compute. discriminate.
Defined.

(** Percent-decoding goes through UTF-8: [%E2%82%AC] is the euro sign, and
    a byte that is no UTF-8 becomes U+FFFD. *)
Example unquote_utf8 :
  unquote (lit "a%20b%E2%82%ACc%FFd%zz") = [97; 32; 98; 8364; 99; 65533; 100; 37; 122; 122].
Proof. vm_compute. reflexivity. Qed.

(** C8, as stated, fails: the path [/a/] has the non-empty segment [a],
    but its last segment is empty, and so is the file name. *)
Lemma trailing_slash_gives_empty_filename :
  urlparse_path any_brackets (lit "https://example.com/a/") = Ok (lit "/a/") /\
  lit "a" ∈ split_on is_slash (lit "/a/") /\
  url_to_filename any_brackets (lit "https://example.com/a/") = Ok [].
Proof.
  split; [vm_compute; reflexivity|]. split; [|vm_compute; reflexivity].
  apply (bool_decide_unpack _). vm_compute. exact I.
Qed.

(** ** Normalization *)

Lemma ascii_forall (P : ascii -> bool) :
  forallb (fun n => P (ascii_of_nat n)) (seq 0 256) = true ->
  forall c, P c = true.
Proof.
  intros H c. rewrite forallb_forall in H.
  rewrite <- (ascii_nat_embedding c). apply H.
  apply in_seq. pose proof (nat_ascii_bounded c). lia.
Qed.

Lemma lower_char_idem (c : ascii) : lower_char (lower_char c) = lower_char c.
Proof.
  apply (bool_decide_eq_true_1 _).
  revert c. apply (ascii_forall (fun c =>
    bool_decide (lower_char (lower_char c) = lower_char c))).
  vm_compute. reflexivity.
Qed.

Lemma isspace_lower_char (c : ascii) : isspace (lower_char c) = isspace c.
Proof.
  apply (bool_decide_eq_true_1 _).
  revert c. apply (ascii_forall (fun c =>
    bool_decide (isspace (lower_char c) = isspace c))).
  vm_compute. reflexivity.
Qed.

Lemma is_linebreak_lower_char (c : ascii) :
  is_linebreak (lower_char c) = is_linebreak c.
Proof.
  apply (bool_decide_eq_true_1 _).
  revert c. apply (ascii_forall (fun c =>
    bool_decide (is_linebreak (lower_char c) = is_linebreak c))).
  vm_compute. reflexivity.
Qed.

Lemma drop_while_head {X} (f : X -> bool) (s : list X) :
  drop_while f s = [] \/ exists c r, drop_while f s = c :: r /\ f c = false.
Proof.
  induction s as [|c s IH]; [by left|]. cbn [drop_while].
  destruct (f c) eqn:Hc; [done|]. right. eauto.
Qed.

Lemma drop_while_suffix {X} (f : X -> bool) (s : list X) :
  exists p, s = p ++ drop_while f s.
Proof.
  induction s as [|c s [p IH]]; [by exists []|]. cbn [drop_while].
  destruct (f c); [|by exists []].
  exists (c :: p). cbn. by rewrite <- IH.
Qed.

Lemma drop_while_map {X} (f : X -> bool) (g : X -> X) (s : list X) :
  (forall c, f (g c) = f c) ->
  drop_while f (map g s) = map g (drop_while f s).
Proof.
  intros Hfg. induction s as [|c s IH]; [done|]. cbn [map drop_while].
  rewrite Hfg. by destruct (f c).
Qed.

(** Case folding and stripping commute. *)
Lemma strip_lower (s : str) : strip (lower s) = lower (strip s).
Proof.
  unfold strip, rstrip, lstrip, lower.
  rewrite (drop_while_map _ _ _ isspace_lower_char).
  rewrite <- map_rev, (drop_while_map _ _ _ isspace_lower_char).
  by rewrite map_rev.
Qed.

Lemma lower_idem (s : str) : lower (lower s) = lower s.
Proof.
  unfold lower. rewrite map_map. apply map_ext. intros c. apply lower_char_idem.
Qed.

Lemma strip_idem (s : str) : strip (strip s) = strip s.
Proof.
  unfold strip, rstrip, lstrip.
  set (t := drop_while isspace s).
  set (d := drop_while isspace (rev t)).
  assert (Hd : drop_while isspace d = d).
  { destruct (drop_while_head isspace (rev t)) as [H|(c & r & H & Hc)];
      fold d in H; rewrite H; [done|]. cbn [drop_while]. by rewrite Hc. }
  assert (Hl : drop_while isspace (rev d) = rev d).
  { destruct (drop_while_suffix isspace (rev t)) as [p Hp]. fold d in Hp.
    apply (f_equal (@rev ascii)) in Hp. rewrite rev_involutive, rev_app_distr in Hp.
    destruct (rev d) as [|c r] eqn:E; [done|].
    destruct (drop_while_head isspace s) as [H|(c' & r' & H & Hc)];
      fold t in H; rewrite H in Hp; [done|].
    injection Hp as -> _. cbn [drop_while]. by rewrite Hc. }
  by rewrite Hl, rev_involutive, Hd.
Qed.

Lemma splitlines_from_app (x cur s : str) :
  single_line x = true ->
  splitlines_from cur (x ++ s) = splitlines_from (rev x ++ cur) s.
Proof.
  revert cur. induction x as [|c x IH]; intros cur Hx; [done|].
  cbn [single_line forallb] in Hx. apply andb_true_iff in Hx as [Hc Hx].
  apply negb_true_iff in Hc.
  cbn [app splitlines_from]. rewrite Hc, IH by done.
  cbn [rev]. by rewrite <- app_assoc.
Qed.

(** Joining single, non-empty lines with [\n] and splitting again gives
    the lines back. *)
Lemma splitlines_join (l : list str) :
  Forall (fun x => x ≠ [] /\ single_line x = true) l ->
  splitlines (join [nl] l) = l.
Proof.
  unfold splitlines. induction l as [|x l IH]; intros Hl; [done|].
  apply Forall_cons in Hl as [[Hne Hx] Hl].
  destruct l as [|y l].
  - cbn [join]. rewrite <- (app_nil_r x) at 1.
    rewrite splitlines_from_app by done. cbn [splitlines_from].
    rewrite app_nil_r. destruct (rev x) eqn:E.
    + apply (f_equal (@rev ascii)) in E. rewrite rev_involutive in E. done.
    + cbn [is_empty]. by rewrite <- E, rev_involutive.
  - change (join [nl] (x :: y :: l)) with (x ++ [nl] ++ join [nl] (y :: l)).
    rewrite splitlines_from_app by done. rewrite app_nil_r.
    cbn [app splitlines_from]. change (is_linebreak nl) with true. cbn iota.
    rewrite rev_involutive.
    specialize (IH Hl).
    assert (Hj : join [nl] (y :: l) ≠ []).
    { apply Forall_cons in Hl as [[Hy _] _].
      destruct l; cbn [join]; by destruct y. }
    destruct (join [nl] (y :: l)) as [|d j]; [done|].
    change (ascii_eqb nl cr) with false. cbn [andb]. by rewrite IH.
Qed.

Lemma single_line_lower (s : str) : single_line (lower s) = single_line s.
Proof.
  unfold single_line, lower. induction s as [|c s IH]; [done|].
  cbn [map forallb]. by rewrite is_linebreak_lower_char, IH.
Qed.

Lemma cleaned_is_clean (url_lines : list str) :
  Forall (fun l => single_line (strip l) = true) url_lines ->
  Forall is_clean (cleaned url_lines).
Proof.
  intros H. unfold cleaned, convert_uppercase_to_lowercase,
    remove_whitespace_from_slice.
  apply Forall_forall. intros e He.
  apply list_elem_of_fmap in He as (e1 & -> & He).
  apply list_elem_of_fmap in He as (l & -> & He).
  apply list_elem_of_filter in He as [Hne Hin].
  rewrite Forall_forall in H. specialize (H l Hin).
  unfold is_clean. rewrite strip_lower, strip_idem, lower_idem, single_line_lower.
  repeat split; try done.
  intros E. unfold lower in E. apply map_eq_nil in E. by rewrite E in Hne.
Qed.

Lemma cleaned_fixed (l : list str) : Forall is_clean l -> cleaned l = l.
Proof.
  unfold cleaned, convert_uppercase_to_lowercase, remove_whitespace_from_slice.
  induction l as [|e l IH]; intros H; [done|].
  apply Forall_cons in H as [(Hs & Hl & Hne & _) H].
  rewrite filter_cons, Hs.
  rewrite decide_True by (by destruct e).
  cbn [map]. by rewrite Hs, Hl, IH.
Qed.

Lemma normalize_clean (url_lines : list str) :
  Forall is_clean (cleaned url_lines) ->
  normalize url_lines = elements (list_to_set (cleaned url_lines) : gset str).
Proof.
  intros H. unfold normalize, remove_duplicates_from_slice.
  fold (cleaned url_lines). rewrite splitlines_join; [done|].
  eapply Forall_impl; [exact H|]. by intros e (_ & _ & ? & ?).
Qed.

(** C7 (amended). Normalization is idempotent on lines that hold no line
    boundary between their first and last non-blank characters:
    normalizing the output of [normalize] gives the same set. *)
Theorem normalize_idempotent (url_lines : list str) :
  Forall (fun l => single_line (strip l) = true) url_lines ->
  (list_to_set (normalize (normalize url_lines)) : gset str)
  = list_to_set (normalize url_lines).
Proof.
  intros H. pose proof (cleaned_is_clean _ H) as Hclean.
  rewrite (normalize_clean url_lines Hclean).
  set (E := elements (list_to_set (cleaned url_lines) : gset str)).
  assert (HE : Forall is_clean E).
  { apply Forall_forall. intros e He.
    apply elem_of_elements, elem_of_list_to_set in He.
    rewrite Forall_forall in Hclean. by apply Hclean. }
  assert (HE' : Forall is_clean (cleaned E)) by (by rewrite cleaned_fixed).
  rewrite (normalize_clean E HE'), (cleaned_fixed E HE).
  unfold E. by rewrite !list_to_set_elements_L.
Qed.

Lemma normalize_idempotent_witness :
  (list_to_set (normalize (normalize
     [qlit "  'URL': 'X.PDF'  "; qlit "'url': 'x.pdf'"; lit "   "])) : gset str)
  = list_to_set (normalize
     [qlit "  'URL': 'X.PDF'  "; qlit "'url': 'x.pdf'"; lit "   "]).
Proof.
  apply normalize_idempotent.
  apply (bool_decide_unpack _). vm_compute. exact I.
Defined.

(** Scenario 2 of the specification: two lines that differ in case and in
    blanks around them become one entry. *)
Example normalize_merges_case_and_blanks :
  normalize [qlit "  'URL': 'X.PDF'  "; qlit "'url': 'x.pdf'"; lit "   "]
  = [qlit "'url': 'x.pdf'"].
Proof. vm_compute. reflexivity. Qed.

Lemma sets_differ (l1 l2 : list str) (x : str) :
  x ∈ l2 -> x ∉ l1 ->
  (list_to_set l1 : gset str) ≠ list_to_set l2.
Proof.
  intros Hin Hout Heq. apply Hout.
  apply (elem_of_list_to_set (C := gset str)). rewrite Heq.
  by apply elem_of_list_to_set.
Qed.

(** C7, as stated, fails: a line with a line boundary inside is cut in two
    by the first normalization, and the second one strips the blanks that
    the cut has laid bare.  The extractor returns such a line. *)
Lemma normalize_not_idempotent :
  extract_url_lines two_line_match = [two_line_match] /\
  ((qlit "  'a.pdf'") ∈ (normalize [two_line_match])) /\
  ((qlit "  'a.pdf'") ∉ (normalize (normalize [two_line_match]))) /\
  (list_to_set (normalize (normalize [two_line_match])) : gset str)
  ≠ list_to_set (normalize [two_line_match]).
Proof.
  assert (Hin : (qlit "  'a.pdf'") ∈ (normalize [two_line_match])).
  { apply (bool_decide_unpack _). vm_compute. exact I. }
  assert (Hout : (qlit "  'a.pdf'") ∉ (normalize (normalize [two_line_match]))).
  { apply (bool_decide_unpack _). vm_compute. exact I. }
  split; [vm_compute; reflexivity|]. split; [exact Hin|]. split; [exact Hout|].
  exact (sets_differ _ _ _ Hin Hout).
Qed.

(** ** The extractor *)

Lemma take_drop_while {X} (f : X -> bool) (s : list X) :
  take_while f s ++ drop_while f s = s.
Proof.
  induction s as [|c s IH]; [done|]. cbn [take_while drop_while].
  destruct (f c); [|done]. cbn. by rewrite IH.
Qed.

Lemma take_while_all {X} (f : X -> bool) (s : list X) :
  forallb f (take_while f s) = true.
Proof.
  induction s as [|c s IH]; [done|]. cbn [take_while].
  destruct (f c) eqn:Hc; [|done]. cbn. by rewrite Hc, IH.
Qed.

Lemma while_app_stop {X} (f : X -> bool) (p r : list X) :
  forallb f p = true ->
  (match r with c :: _ => f c = false | [] => True end) ->
  take_while f (p ++ r) = p /\ drop_while f (p ++ r) = r.
Proof.
  intros Hp Hr. induction p as [|c p IH].
  - cbn. destruct r as [|c r]; [done|]. cbn. by rewrite Hr.
  - cbn in Hp. apply andb_true_iff in Hp as [Hc Hp].
    destruct (IH Hp) as [IH1 IH2]. cbn. by rewrite Hc, IH1, IH2.
Qed.

Lemma rmatch_star (a : atom) (p : list node) (bol : bool) (s : str) :
  rmatch (NStar a :: p) bol s
  = match s with
    | c :: s' =>
        if atom_ok a c then
          match rmatch (NStar a :: p) (is_nl c) s' with
          | Some (m, rest) => Some (c :: m, rest)
          | None => rmatch p bol s
          end
        else rmatch p bol s
    | [] => rmatch p bol []
    end.
Proof. by destruct s. Qed.

Lemma rmatch_lazy (a : atom) (p : list node) (bol : bool) (s : str) :
  rmatch (NLazy a :: p) bol s
  = match rmatch p bol s with
    | Some r => Some r
    | None =>
        match s with
        | c :: s' =>
            if atom_ok a c
            then consume c (rmatch (NLazy a :: p) (is_nl c) s')
            else None
        | [] => None
        end
    end.
Proof. by destruct s. Qed.

(** Without [^] in it, a pattern matches the same wherever the line
    starts. *)
Lemma rmatch_no_bol (p : list node) (b b' : bool) (s : str) :
  no_bol p = true -> rmatch p b s = rmatch p b' s.
Proof.
  revert b b' s. induction p as [|n p IH]; intros b b' s Hp; [done|].
  cbn [no_bol forallb] in Hp. apply andb_true_iff in Hp as [Hn Hp].
  destruct n as [|a|a|a]; [done| | |].
  - cbn [rmatch]. destruct s as [|c s]; [done|]. done.
  - revert b b'. induction s as [|c s IHs]; intros b b'.
    + rewrite !(rmatch_star _ _ _ []). by apply IH.
    + rewrite !(rmatch_star _ _ _ (c :: s)).
      rewrite (IH b b' (c :: s) Hp). done.
  - revert b b'. induction s as [|c s IHs]; intros b b'.
    + rewrite !(rmatch_lazy _ _ _ []). by rewrite (IH b b' [] Hp).
    + rewrite !(rmatch_lazy _ _ _ (c :: s)).
      rewrite (IH b b' (c :: s) Hp). done.
Qed.

(** Greedy blanks before a literal that is no blank: all the blanks are
    taken, and the rest of the pattern has one try. *)
Lemma rmatch_blanks (q : ascii) (p : list node) (bol : bool) (s : str) :
  isspace q = false ->
  no_bol p = true ->
  rmatch (NStar ASpace :: NOne (ALit q) :: p) bol s
  = prepend (take_while isspace s)
      (rmatch (NOne (ALit q) :: p) false (drop_while isspace s)).
Proof.
  intros Hq Hp. revert bol. induction s as [|c s IH]; intros bol.
  - rewrite rmatch_star. cbn [take_while drop_while]. done.
  - rewrite rmatch_star. cbn [atom_ok take_while drop_while].
    destruct (isspace c) eqn:Hc.
    + rewrite IH.
      destruct (rmatch (NOne (ALit q) :: p) false (drop_while isspace s))
        as [[m rest]|]; [done|].
      cbn [prepend rmatch atom_ok].
      destruct (ascii_eqb q c) eqn:Hqc; [|done].
      apply Ascii.eqb_eq in Hqc. subst c. congruence.
    + cbn [prepend app].
      assert (Hnb : no_bol (NOne (ALit q) :: p) = true) by done.
      rewrite (rmatch_no_bol _ bol false _ Hnb).
      by destruct (rmatch (NOne (ALit q) :: p) false (c :: s)) as [[m rest]|].
Qed.

Lemma starts_with_app (k s : str) :
  starts_with ascii_eqb k s = true -> s = k ++ drop (length k) s.
Proof.
  revert s. induction k as [|a k IH]; intros s H; [done|].
  destruct s as [|b s]; [done|]. cbn in H.
  apply andb_true_iff in H as [Hab H]. apply Ascii.eqb_eq in Hab. subst b.
  cbn. f_equal. by apply IH.
Qed.

Lemma starts_with_refl (k s : str) : starts_with ascii_eqb k (k ++ s) = true.
Proof.
  induction k as [|a k IH]; [done|]. cbn. unfold ascii_eqb at 1.
  by rewrite Ascii.eqb_refl, IH.
Qed.

(** A run of literals. *)
Lemma rmatch_lits (k : str) (p : list node) (bol : bool) (s : str) :
  no_bol p = true ->
  rmatch (lits k ++ p) bol s
  = if starts_with ascii_eqb k s
    then prepend k (rmatch p false (drop (length k) s))
    else None.
Proof.
  intros Hp. revert bol s. induction k as [|a k IH]; intros bol s.
  - cbn [lits map app starts_with length]. rewrite drop_0.
    rewrite (rmatch_no_bol _ bol false _ Hp).
    by destruct (rmatch p false s) as [[m rest]|].
  - cbn [lits map app rmatch]. destruct s as [|c s]; [done|].
    cbn [atom_ok starts_with length drop].
    destruct (ascii_eqb a c) eqn:Hac; [|done]. cbn [andb].
    apply Ascii.eqb_eq in Hac. subst c.
    change (map (fun c => NOne (ALit c)) k) with (lits k). rewrite IH.
    destruct (starts_with ascii_eqb k s); [|done].
    by destruct (rmatch p false (drop (length k) s)) as [[m rest]|].
Qed.

(** The lazy value and its closing quote: the value ends at the first
    double quote, and no newline comes before it. *)
Lemma rmatch_value (bol : bool) (s : str) :
  rmatch [NLazy ADot; NOne (ALit dq)] bol s
  = match drop_while is_value_char s with
    | d :: rest =>
        if ascii_eqb dq d
        then Some (take_while is_value_char s ++ [dq], rest)
        else None
    | [] => None
    end.
Proof.
  revert bol. induction s as [|c s IH]; intros bol.
  - by rewrite rmatch_lazy.
  - rewrite rmatch_lazy. cbn [rmatch atom_ok take_while drop_while].
    unfold is_value_char at 1 3.
    destruct (ascii_eqb dq c) eqn:Hq.
    + cbn [negb andb consume]. rewrite Hq.
      apply Ascii.eqb_eq in Hq. by subst c.
    + cbn [negb andb]. destruct (ascii_eqb c nl) eqn:Hn; cbn [negb].
      * by rewrite Hq.
      * rewrite IH.
        destruct (drop_while is_value_char s) as [|d rest]; [done|].
        by destruct (ascii_eqb dq d).
Qed.

Lemma rmatch_quoted (bol : bool) (s : str) :
  rmatch [NOne (ALit dq); NLazy ADot; NOne (ALit dq)] bol s = quoted_value s.
Proof.
  cbn [rmatch]. unfold quoted_value. destruct s as [|c s]; [done|].
  cbn [atom_ok]. destruct (ascii_eqb dq c) eqn:Hq; [|done].
  rewrite rmatch_value.
  destruct (drop_while is_value_char s) as [|d rest]; [done|].
  apply Ascii.eqb_eq in Hq. subst c.
  by destruct (ascii_eqb dq d).
Qed.

Lemma rmatch_bol (p : list node) (s : str) :
  rmatch (NBol :: p) true s = rmatch p true s.
Proof. done. Qed.

(** The pattern, where a line starts, finds what [shape_prefix] cuts. *)
Lemma rmatch_url_pattern (s : str) :
  rmatch url_pattern true s = shape_prefix s.
Proof.
  unfold shape_prefix.
  change url_pattern with
    (NBol :: NStar ASpace :: NOne (ALit dq)
       :: (lits (tail url_key)
           ++ NStar ASpace :: NOne (ALit dq) :: [NLazy ADot; NOne (ALit dq)])).
  rewrite rmatch_bol, rmatch_blanks; [|done|done].
  f_equal.
  change (NOne (ALit dq)
            :: (lits (tail url_key)
                ++ NStar ASpace :: NOne (ALit dq) :: [NLazy ADot; NOne (ALit dq)]))
    with (lits url_key
            ++ NStar ASpace :: NOne (ALit dq) :: [NLazy ADot; NOne (ALit dq)]).
  rewrite rmatch_lits by done.
  destruct (starts_with ascii_eqb url_key (drop_while isspace s)); [|done].
  cbn zeta. f_equal.
  rewrite rmatch_blanks; [|done|done].
  f_equal. apply rmatch_quoted.
Qed.

Lemma rmatch_url_pattern_inside (s : str) : rmatch url_pattern false s = None.
Proof. done. Qed.

Ltac norm_app :=
  repeat (rewrite <- app_assoc || rewrite <- app_comm_cons); cbn [app].

(** What [shape_prefix] cuts is a match, and the only one. *)
Lemma shape_prefix_spec (s m rest : str) :
  shape_prefix s = Some (m, rest) <-> s = m ++ rest /\ url_shape m.
Proof.
  unfold shape_prefix, url_shape.
  assert (Hkey : exists c k, url_key = c :: k /\ isspace c = false)
    by (by eexists _, _).
  generalize dependent url_key. intros key Hkey. split.
  - intros H.
    pose proof (take_drop_while isspace s) as Hs1.
    pose proof (take_while_all isspace s) as Hw1.
    destruct (starts_with ascii_eqb key (drop_while isspace s)) eqn:Hk; [|done].
    apply starts_with_app in Hk.
    pose proof (take_drop_while isspace
                  (drop (length key) (drop_while isspace s))) as Hs2.
    pose proof (take_while_all isspace
                  (drop (length key) (drop_while isspace s))) as Hw2.
    unfold quoted_value in H.
    destruct (drop_while isspace (drop (length key) (drop_while isspace s)))
      as [|c s4]; [done|].
    destruct (ascii_eqb dq c) eqn:Hc; [|done].
    apply Ascii.eqb_eq in Hc. subst c.
    pose proof (take_drop_while is_value_char s4) as Hs4.
    pose proof (take_while_all is_value_char s4) as Hw4.
    destruct (drop_while is_value_char s4) as [|d s5]; [done|].
    destruct (ascii_eqb dq d) eqn:Hd; [|done].
    apply Ascii.eqb_eq in Hd. subst d.
    cbn [prepend] in H. injection H as <- <-.
    split.
    + rewrite <- Hs1 at 1. rewrite Hk at 1. rewrite <- Hs2 at 1.
      rewrite <- Hs4 at 1. by norm_app.
    + exists (take_while isspace s),
             (take_while isspace (drop (length key) (drop_while isspace s))),
             (take_while is_value_char s4).
      split; [by norm_app|]. split; [exact Hw1|]. split; [exact Hw2|exact Hw4].
  - intros [-> (ws1 & ws2 & v & -> & Hw1 & Hw2 & Hv)].
    norm_app.
    assert (Hstop : match key ++ ws2 ++ dq :: v ++ dq :: rest with
                    | c :: _ => isspace c = false
                    | [] => True
                    end).
    { by destruct Hkey as (c & k & -> & Hc). }
    destruct (while_app_stop isspace ws1 _ Hw1 Hstop) as [-> ->].
    rewrite starts_with_refl, drop_app_length.
    destruct (while_app_stop isspace ws2 (dq :: v ++ dq :: rest) Hw2 eq_refl)
      as [-> ->].
    unfold quoted_value. change (ascii_eqb dq dq) with true. cbn iota.
    destruct (while_app_stop is_value_char v (dq :: rest) Hv eq_refl)
      as [-> ->].
    change (ascii_eqb dq dq) with true. cbn [prepend app].
    by norm_app.
Qed.


Lemma rmatch_url_pattern_spec (bol : bool) (s m rest : str) :
  rmatch url_pattern bol s = Some (m, rest) <->
  bol = true /\ s = m ++ rest /\ url_shape m.
Proof.
  destruct bol.
  - rewrite rmatch_url_pattern, shape_prefix_spec.
    split; [by intros [? ?]|by intros (_ & ? & ?)].
  - rewrite rmatch_url_pattern_inside.
    split; [done|by intros (? & _)].
Qed.

Lemma matches_here_iff (s : str) :
  matches_here s <-> exists m rest, rmatch url_pattern true s = Some (m, rest).
Proof.
  unfold matches_here. split; intros (m & rest & H); exists m, rest.
  - apply rmatch_url_pattern_spec. by destruct H.
  - apply rmatch_url_pattern_spec in H. by destruct H as (_ & ? & ?).
Qed.

(** A match ends in a double quote, and is not empty. *)
Lemma url_shape_last (m : str) : url_shape m -> last m = Some dq.
Proof.
  intros (ws1 & ws2 & v & -> & _). rewrite !app_assoc. apply last_snoc.
Qed.

(** Passing over the characters of a match. *)
Lemma findall_pass (p : list node) (x rest : str) (bol : bool) :
  findall_from p (length x) bol (x ++ rest)
  = findall_from p 0 (end_bol bol x) rest.
Proof.
  revert bol. induction x as [|c x IH]; intros bol; [done|].
  cbn [length app findall_from]. rewrite IH. f_equal.
  unfold end_bol. destruct x as [|d x]; [done|]. rewrite last_cons_cons.
  destruct (last (d :: x)) eqn:E; [done|]. by apply last_None in E.
Qed.

Lemma findall_scan (n : nat) (s : str) (bol : bool) :
  (length s <= n)%nat ->
  scan bol s (findall_from url_pattern 0 bol s).
Proof.
  revert s bol. induction n as [|n IH]; intros s bol Hn.
  { destruct s; [|cbn in Hn; lia]. destruct bol; constructor. }
  destruct s as [|c s].
  { destruct bol; constructor. }
  cbn [length] in Hn. cbn [findall_from].
  destruct (rmatch url_pattern bol (c :: s)) as [[m rest]|] eqn:E.
  - apply rmatch_url_pattern_spec in E as (-> & Hs & Hm).
    pose proof (url_shape_last m Hm) as Hlast.
    destruct m as [|c' m]; [done|]. cbn [app] in Hs. injection Hs as <- ->.
    cbn [length]. replace (S (length m) - 1)%nat with (length m) by lia.
    rewrite findall_pass.
    assert (Hb : end_bol (is_nl c) m = false).
    { unfold end_bol. destruct m as [|d m].
      - cbn in Hlast. injection Hlast as ->. done.
      - rewrite last_cons_cons in Hlast. by rewrite Hlast. }
    rewrite Hb. apply (scan_match (c :: m) rest); [done|].
    apply IH. rewrite length_app in Hn. lia.
  - apply scan_skip; [|apply IH; lia].
    destruct bol; [right|by left].
    intros H. apply matches_here_iff in H as (m & rest & H). congruence.
Qed.

(** The extractor returns the matches of the scan. *)
Lemma extract_scan (text : str) : scan true text (extract_url_lines text).
Proof. by apply (findall_scan (length text)). Qed.




Lemma scan_shapes (bol : bool) (s : str) (ms : list str) :
  scan bol s ms -> Forall url_shape ms.
Proof. induction 1; [constructor|by constructor|done]. Qed.





(** ** A run of [main] *)

(** The HAR excerpt, a server that answers with a small PDF: the file is
    saved, recorded in the manifest, found valid and not flagged. *)
Example main_sample_run :
  let w := World [ulit "srv"; ulit "job"]
             {[ [ulit "srv"; ulit "job"; ulit "www.dupont.com.har"]
                  := File har_excerpt ]} [] [] in
  let r := main any_brackets net_pdf pages_sample no_wide_upper as_written w in
  r.1 = Ok tt /\
  requests r.2 = [lit "https://example.com/a%20b.pdf"] /\
  stdout r.2 = [MDownloaded (ulit "PDFs/a b.pdf")] /\
  fs r.2 !! [ulit "srv"; ulit "job"; ulit "PDFs"; ulit "a b.pdf"]
  = Some (File (lit "%PDF-1.4")) /\
  manifest r.2 = lit "https://example.com/a%20b.pdf" ++ [nl].
Proof. vm_compute. repeat split. Qed.

(** * Further properties *)

(** ** The text pipeline, function by function *)

Lemma rstrip_prefix (s : str) : exists p, s = rstrip s ++ p.
Proof.
  unfold rstrip.
  destruct (drop_while_suffix isspace (rev s)) as [p Hp].
  exists (rev p). rewrite <- rev_app_distr, <- Hp. by rewrite rev_involutive.
Qed.

Lemma last_rev_head {X} (l : list X) : last (rev l) = head l.
Proof. destruct l as [|a l]; [done|]. cbn [rev]. apply last_snoc. Qed.

Lemma strip_ends (s : str) (c : ascii) :
  head (strip s) = Some c \/ last (strip s) = Some c -> isspace c = false.
Proof.
  unfold strip. intros [Hh|Hl].
  - destruct (rstrip_prefix (lstrip s)) as [p Hp].
    destruct (rstrip (lstrip s)) as [|c0 r] eqn:E; [done|].
    injection Hh as ->. unfold lstrip in Hp.
    destruct (drop_while_head isspace s) as [H0|(c1 & r1 & H1 & Hc)].
    + by rewrite H0 in Hp.
    + rewrite H1 in Hp. by injection Hp as <- _.
  - unfold rstrip in Hl. rewrite last_rev_head in Hl.
    destruct (drop_while_head isspace (rev (lstrip s))) as [H0|(c1 & r1 & H1 & Hc)].
    + by rewrite H0 in Hl.
    + rewrite H1 in Hl. by injection Hl as <-.
Qed.

Lemma is_empty_false {X} (l : list X) : is_empty l = false <-> l ≠ [].
Proof. by destruct l. Qed.

Lemma drop_while_nil {X} (f : X -> bool) (s : list X) :
  drop_while f s = [] <-> forallb f s = true.
Proof.
  induction s as [|c s IH]; [done|]. cbn [drop_while forallb].
  destruct (f c); [exact IH|]. done.
Qed.

Lemma forallb_rev {X} (f : X -> bool) (s : list X) :
  forallb f (rev s) = forallb f s.
Proof.
  induction s as [|c s IH]; [done|].
  cbn [rev forallb]. rewrite forallb_app, IH. cbn [forallb].
  rewrite andb_true_r. apply andb_comm.
Qed.

(** A line strips to nothing exactly when it is blank. *)
Lemma strip_blank (l : str) : is_empty (strip l) = forallb isspace l.
Proof.
  unfold strip, rstrip, lstrip.
  destruct (forallb isspace l) eqn:Hl.
  - apply drop_while_nil in Hl. by rewrite Hl.
  - destruct (drop_while isspace l) as [|c r] eqn:Hd.
    { apply drop_while_nil in Hd. congruence. }
    assert (Hc : isspace c = false).
    { destruct (drop_while_head isspace l) as [H|(c' & r' & H & Hc)];
        rewrite Hd in H; [done|]. by injection H as -> _. }
    destruct (drop_while isspace (rev (c :: r))) as [|d t] eqn:Hr.
    + apply drop_while_nil in Hr. rewrite forallb_rev in Hr.
      cbn [forallb] in Hr. by rewrite Hc in Hr.
    + cbn [rev]. by destruct (rev t).
Qed.

(** What [strip] removes is whitespace at the two ends. *)
Lemma strip_decompose (l : str) :
  exists ws1 ws2,
    l = ws1 ++ strip l ++ ws2 /\
    forallb isspace ws1 = true /\ forallb isspace ws2 = true.
Proof.
  unfold strip, rstrip, lstrip.
  exists (take_while isspace l),
         (rev (take_while isspace (rev (drop_while isspace l)))).
  split; [|split].
  - rewrite <- rev_app_distr, take_drop_while, rev_involutive.
    by rewrite take_drop_while.
  - apply take_while_all.
  - rewrite forallb_rev. apply take_while_all.
Qed.

(** X1. [remove_whitespace_from_slice] goes through the lines in order:
    a blank line (whitespace only) gives nothing, any other line gives its
    stripped form, once for each time it occurs; stripping takes
    whitespace from the two ends of a line and nothing else.  So no line
    of the result is empty, none starts or ends with a whitespace
    character, and filtering the result again changes nothing. *)
Theorem whitespace_filter_output (provided_slice : list str) :
  let out := remove_whitespace_from_slice provided_slice in
  out = flat_map (fun l => if forallb isspace l then [] else [strip l])
                 provided_slice /\
  (forall l : str,
      exists ws1 ws2,
        l = ws1 ++ strip l ++ ws2 /\
        forallb isspace ws1 = true /\ forallb isspace ws2 = true) /\
  Forall (fun l => l ≠ [] /\
                   forall c, head l = Some c \/ last l = Some c ->
                             isspace c = false) out /\
  (forall l, l ∈ out <->
             exists l0, l0 ∈ provided_slice /\ l = strip l0 /\ l ≠ []) /\
  remove_whitespace_from_slice out = out.
Proof.
  cbn zeta. unfold remove_whitespace_from_slice.
  split; [|split; [exact strip_decompose|split; [|split]]].
  - induction provided_slice as [|x l IH]; [done|].
    rewrite filter_cons. cbn [flat_map]. rewrite <- (strip_blank x).
    destruct (is_empty (strip x)) eqn:Hx.
    + rewrite decide_False by (intros []). exact IH.
    + rewrite decide_True by done. cbn [map app]. by rewrite IH.
  - apply Forall_forall. intros l Hl.
    apply list_elem_of_fmap in Hl as (l0 & -> & Hl0).
    apply list_elem_of_filter in Hl0 as [Hne _].
    apply Is_true_true, negb_true_iff, is_empty_false in Hne.
    split; [done|]. apply strip_ends.
  - intros l. split.
    + intros Hl. apply list_elem_of_fmap in Hl as (l0 & -> & Hl0).
      apply list_elem_of_filter in Hl0 as [Hne Hin].
      apply Is_true_true, negb_true_iff, is_empty_false in Hne.
      by exists l0.
    + intros (l0 & Hin & -> & Hne). apply list_elem_of_fmap.
      exists l0. split; [done|]. apply list_elem_of_filter. split; [|done].
      apply Is_true_true, negb_true_iff. by apply is_empty_false.
  - induction provided_slice as [|x l IH]; [done|].
    rewrite filter_cons. destruct (decide _) as [Hx|Hx].
    + cbn [map]. rewrite filter_cons, strip_idem.
      rewrite decide_True by done. cbn [map]. rewrite strip_idem.
      f_equal. apply IH.
    + apply IH.
Qed.

Lemma uisupper_code (isupper_wide : N -> bool) (c : ascii) :
  uisupper isupper_wide (code c) = isupper c.
Proof.
  unfold uisupper, code.
  pose proof (N_ascii_bounded c) as Hb.
  apply N.ltb_lt in Hb. rewrite Hb. by rewrite ascii_N_embedding.
Qed.

Lemma check_upper_widen (isupper_wide : N -> bool) (s : str) :
  check_upper_case_letter isupper_wide (widen s) = existsb isupper s.
Proof.
  unfold check_upper_case_letter, widen.
  induction s as [|c s IH]; [done|].
  cbn [map existsb]. by rewrite uisupper_code, IH.
Qed.





Lemma elem_of_rev {X} (x : X) (l : list X) : x ∈ rev l -> x ∈ l.
Proof. rewrite !list_elem_of_In. apply in_rev. Qed.




Lemma existsb_false_forall {X} (f : X -> bool) (l : list X) :
  existsb f l = false <-> forall x, x ∈ l -> f x = false.
Proof.
  induction l as [|y l IH]; cbn [existsb].
  - split; [|done]. intros _ x H. by apply elem_of_nil in H.
  - rewrite orb_false_iff, IH. split.
    + intros [Hy Hl] x Hx. apply elem_of_cons in Hx as [->|Hx]; auto.
    + intros H. split; [apply H; by left|]. intros x Hx. apply H. by right.
Qed.


(** Stripping a match removes the blanks in front of the key and nothing
    else. *)
Lemma strip_url_shape (ws1 rest : str) :
  forallb isspace ws1 = true ->
  strip (ws1 ++ url_key ++ rest ++ [dq]) = url_key ++ rest ++ [dq].
Proof.
  intros Hws. unfold strip, lstrip.
  destruct (while_app_stop isspace ws1 (url_key ++ rest ++ [dq]) Hws) as [_ ->];
    [reflexivity|].
  unfold rstrip. rewrite !rev_app_distr. cbn [rev app drop_while].
  change (isspace dq) with false. cbn iota.
  change (dq :: rev rest ++ rev url_key) with (rev [dq] ++ rev rest ++ rev url_key).
  rewrite <- !rev_app_distr, rev_involutive. by rewrite <- app_assoc.
Qed.

Lemma lower_app (a b : str) : lower (a ++ b) = lower a ++ lower b.
Proof. apply map_app. Qed.

Lemma cleaned_url_shapes (ms : list str) :
  Forall url_shape ms ->
  Forall2 (fun m l =>
             exists ws1 rest,
               m = ws1 ++ rest /\ forallb isspace ws1 = true /\
               l = lower rest /\
               starts_with ascii_eqb url_key l = true /\ last l = Some dq)
          ms (cleaned ms).
Proof.
  unfold cleaned, remove_whitespace_from_slice, convert_uppercase_to_lowercase.
  induction 1 as [|m ms Hm Hms IH]; [constructor|].
  destruct Hm as (ws1 & ws2 & v & -> & Hws1 & Hws2 & Hv).
  assert (Hs : strip (ws1 ++ url_key ++ ws2 ++ [dq] ++ v ++ [dq])
               = url_key ++ (ws2 ++ [dq] ++ v) ++ [dq]).
  { rewrite <- (strip_url_shape ws1 (ws2 ++ [dq] ++ v) Hws1).
    by rewrite <- !app_assoc. }
  rewrite filter_cons. rewrite decide_True; [|by rewrite Hs].
  cbn [map]. constructor; [|exact IH].
  rewrite Hs.
  exists ws1, (url_key ++ (ws2 ++ [dq] ++ v) ++ [dq]).
  split; [by rewrite <- !app_assoc|]. split; [done|]. split; [done|].
  rewrite !lower_app. split.
  - change (lower url_key) with url_key. apply starts_with_refl.
  - rewrite app_assoc. change (lower [dq]) with [dq]. apply last_snoc.
Qed.

(** X4. The whitespace filter drops no match of [extract_url_lines], and
    after stripping and lowercasing (lines 202 to 208) every match has lost
    the blanks in front of it, starts with the quoted key and its colon,
    and ends with a double quote. *)
Theorem cleaning_keeps_every_match (text : str) :
  let ms := extract_url_lines text in
  length (cleaned ms) = length ms /\
  Forall2 (fun m l =>
             exists ws1 rest,
               m = ws1 ++ rest /\ forallb isspace ws1 = true /\
               l = lower rest /\
               starts_with ascii_eqb url_key l = true /\ last l = Some dq)
          ms (cleaned ms).
Proof.
  cbn zeta.
  pose proof (cleaned_url_shapes (extract_url_lines text)
                (scan_shapes _ _ _ (extract_scan text))) as H.
  split; [|exact H]. symmetry. by eapply Forall2_length.
Qed.

(** ** Trimming a line *)

Lemma ends_with_app (p s : str) : ends_with ascii_eqb p (s ++ p) = true.
Proof. unfold ends_with. rewrite rev_app_distr. apply starts_with_refl. Qed.

Lemma removesuffix_app (p s : str) : removesuffix p (s ++ p) = s.
Proof.
  unfold removesuffix. rewrite ends_with_app, length_app.
  replace (length s + length p - length p)%nat with (length s) by lia.
  by rewrite take_app_length.
Qed.

Lemma removeprefix_app (p s : str) : removeprefix p (p ++ s) = s.
Proof. unfold removeprefix. by rewrite starts_with_refl, drop_app_length. Qed.

(** X5. Lines 221 and 223 of [main] turn a thumbnail line into the URL in
    it; on a line whose value does not end in [.thumb.319.319.png] only the
    prefix is removed, so the URL keeps the closing double quote. *)
Theorem trim_line_keeps_closing_quote (u : str) :
  trim_line (url_prefix ++ u ++ thumb_suffix) = u /\
  (ends_with ascii_eqb (lit ".thumb.319.319.png") u = false ->
   trim_line (url_prefix ++ u ++ [dq]) = u ++ [dq]).
Proof.
  unfold trim_line. rewrite !removeprefix_app. split.
  - apply removesuffix_app.
  - intros Hu. unfold removesuffix.
    assert (Hends : ends_with ascii_eqb thumb_suffix (u ++ [dq]) = false).
    { unfold ends_with in *. rewrite rev_app_distr.
      change thumb_suffix with (lit ".thumb.319.319.png" ++ [dq]).
      rewrite rev_app_distr. cbn [rev app starts_with].
      rewrite Hu. apply andb_false_r. }
    by rewrite Hends.
Qed.

Lemma trim_line_keeps_closing_quote_witness :
  trim_line (url_prefix ++ lit "https://example.com/a.pdf" ++ thumb_suffix)
  = lit "https://example.com/a.pdf" /\
  trim_line (url_prefix ++ lit "https://example.com/a.pdf" ++ [dq])
  = lit "https://example.com/a.pdf" ++ [dq].
Proof.
  split.
  - apply (proj1 (trim_line_keeps_closing_quote (lit "https://example.com/a.pdf"))).
  - apply (proj2 (trim_line_keeps_closing_quote (lit "https://example.com/a.pdf"))).
    vm_compute. reflexivity.
Defined.

(** ** File names: brackets, queries, percent signs *)

Lemma take_while_elem {X} (f : X -> bool) (s : list X) (x : X) :
  x ∈ take_while f s -> x ∈ s.
Proof.
  induction s as [|c s IH]; cbn [take_while]; [done|].
  destruct (f c); [|by intros H; apply elem_of_nil in H].
  intros H. apply elem_of_cons in H as [->|H]; [by left|right; auto].
Qed.

Lemma drop_while_elem {X} (f : X -> bool) (s : list X) (x : X) :
  x ∈ drop_while f s -> x ∈ s.
Proof.
  induction s as [|c s IH]; cbn [drop_while]; [done|].
  destruct (f c); [|done]. intros H. right. auto.
Qed.

Lemma drop_elem {X} (n : nat) (s : list X) (x : X) : x ∈ drop n s -> x ∈ s.
Proof.
  revert s. induction n as [|n IH]; intros [|c s]; cbn [drop]; try done.
  intros H. right. auto.
Qed.

Lemma take_elem {X} (n : nat) (s : list X) (x : X) : x ∈ take n s -> x ∈ s.
Proof.
  revert s. induction n as [|n IH]; intros [|c s]; cbn [take]; try done.
  - by intros H; apply elem_of_nil in H.
  - intros H. apply elem_of_cons in H as [->|H]; [by left|right; auto].
Qed.

Lemma ascii_eqb_eq (a b : ascii) : ascii_eqb a b = true <-> a = b.
Proof. apply Ascii.eqb_eq. Qed.

Lemma char_in_elem (s : str) (c : ascii) : char_in s c = true <-> c ∈ s.
Proof.
  unfold char_in. rewrite existsb_elem_of. split.
  - intros (x & Hx & Heq). apply ascii_eqb_eq in Heq. by subst.
  - intros H. exists c. split; [done|]. by apply ascii_eqb_eq.
Qed.

Lemma after_last_elem {X} (f : X -> bool) (s r : list X) (x : X) :
  after_last f s = Some r -> x ∈ r -> x ∈ s.
Proof.
  revert r. induction s as [|c s IH]; intros r; cbn [after_last]; [done|].
  destruct (after_last f s) as [r'|].
  - intros [= <-] H. right. by apply (IH r').
  - destruct (f c); [|done]. intros [= <-] H. by right.
Qed.

Lemma basename_elem {X} (f : X -> bool) (s : list X) (x : X) :
  x ∈ basename f s -> x ∈ s.
Proof.
  unfold basename. destruct (after_last f s) as [r|] eqn:E; [|done].
  by apply (after_last_elem f s r).
Qed.

Lemma split_scheme_elem (url : str) (x : ascii) :
  x ∈ (split_scheme url).2 -> x ∈ url.
Proof.
  unfold split_scheme. destruct (_ && _); cbn [snd]; [|done]. apply drop_elem.
Qed.

Lemma splitparams_elem (url : str) (x : ascii) : x ∈ splitparams url -> x ∈ url.
Proof.
  unfold splitparams. intros H. apply elem_of_app in H as [H|H].
  - by apply take_elem in H.
  - by apply take_while_elem, basename_elem in H.
Qed.

(** What [urlparse] raises, and where the characters of the path come
    from. *)
Lemma urlparse_path_cases (bracketed_host_ok : str -> bool) (url : str) :
  match urlparse_path bracketed_host_ok url with
  | Raise e =>
      e = ValueError /\ (char_in url "["%char || char_in url "]"%char) = true
  | Ok path => forall c, c ∈ path -> c ∈ url
  end.
Proof.
  unfold urlparse_path.
  set (u1 := drop_while is_c0_or_space url).
  set (u2 := filter (fun c => negb (is_unsafe_url_char c)) u1).
  assert (H2 : forall c, c ∈ u2 -> c ∈ url).
  { intros c Hc. apply list_elem_of_filter in Hc as [_ Hc].
    by apply drop_while_elem in Hc. }
  pose proof (split_scheme_elem u2) as H3.
  destruct (split_scheme u2) as [scheme u3]. cbn [snd] in H3.
  set (is_delim := char_in (lit "/?#")).
  set (netloc := if starts_with ascii_eqb (lit "//") u3
                 then take_while (fun c => negb (is_delim c)) (drop 2 u3) else []).
  set (u4 := if starts_with ascii_eqb (lit "//") u3
             then drop_while (fun c => negb (is_delim c)) (drop 2 u3) else u3).
  assert (Hn : forall c, c ∈ netloc -> c ∈ url).
  { intros c Hc. apply H2, H3. unfold netloc in Hc.
    destruct (starts_with _ _ u3); [|by apply elem_of_nil in Hc].
    by apply take_while_elem, drop_elem in Hc. }
  assert (H4 : forall c, c ∈ u4 -> c ∈ url).
  { intros c Hc. apply H2, H3. unfold u4 in Hc.
    destruct (starts_with _ _ u3); [|done].
    by apply drop_while_elem, drop_elem in Hc. }
  destruct (check_brackets bracketed_host_ok netloc) eqn:Hb; cbn [negb].
  - intros c Hc. apply H4.
    destruct (_ && _) in Hc.
    + by apply splitparams_elem, take_while_elem, take_while_elem in Hc.
    + by apply take_while_elem, take_while_elem in Hc.
  - split; [done|]. unfold check_brackets in Hb.
    destruct (char_in netloc "[") eqn:Hl.
    + apply char_in_elem, Hn, char_in_elem in Hl. by rewrite Hl.
    + cbn [andb orb] in Hb. apply negb_false_iff in Hb.
      apply char_in_elem, Hn, char_in_elem in Hb. rewrite Hb. apply orb_true_r.
Qed.



Lemma drop_while_app_stop {X} (f : X -> bool) (u r : list X) (c : X) :
  f c = false -> drop_while f (u ++ c :: r) = drop_while f u ++ c :: r.
Proof.
  intros Hc. induction u as [|a u IH]; cbn [app drop_while].
  - by rewrite Hc.
  - by destruct (f a).
Qed.

Lemma take_while_app_stop {X} (f : X -> bool) (u r : list X) (c : X) :
  f c = false -> take_while f (u ++ c :: r) = take_while f u.
Proof.
  intros Hc. induction u as [|a u IH]; cbn [app take_while].
  - by rewrite Hc.
  - destruct (f a); [by rewrite IH|done].
Qed.

Lemma take_while_app_inside {X} (f : X -> bool) (u x : list X) :
  forallb f u = false -> take_while f (u ++ x) = take_while f u.
Proof.
  induction u as [|a u IH]; cbn [app take_while forallb]; [done|].
  destruct (f a); [|done]. cbn [andb]. intros H. by rewrite IH.
Qed.

Lemma take_while_app_all {X} (f : X -> bool) (u x : list X) :
  forallb f u = true -> take_while f (u ++ x) = u ++ take_while f x.
Proof.
  induction u as [|a u IH]; cbn [app take_while forallb]; [done|].
  destruct (f a); [|done]. cbn [andb]. intros H. by rewrite IH.
Qed.

Lemma take_while_length_lt {X} (f : X -> bool) (u : list X) :
  forallb f u = false -> (S (length (take_while f u)) <= length u)%nat.
Proof.
  induction u as [|a u IH]; cbn [take_while forallb length]; [done|].
  destruct (f a); cbn [andb length]; [|lia]. intros H. apply IH in H. lia.
Qed.

Lemma char_in_forallb (u : str) (c : ascii) :
  char_in u c = negb (forallb (fun x => negb (ascii_eqb x c)) u).
Proof.
  unfold char_in. induction u as [|a u IH]; [done|].
  cbn [existsb forallb]. rewrite IH, negb_andb, negb_involutive.
  f_equal. unfold ascii_eqb. apply Ascii.eqb_sym.
Qed.

Lemma char_in_app (u v : str) (c : ascii) :
  char_in (u ++ v) c = char_in u c || char_in v c.
Proof. unfold char_in. apply existsb_app. Qed.

(** The scheme is read off the text before the first character that no
    scheme holds. *)
Lemma split_scheme_app (u r : str) (c : ascii) :
  is_scheme_char c = false -> ascii_eqb c ":"%char = false ->
  split_scheme (u ++ c :: r) = ((split_scheme u).1, (split_scheme u).2 ++ c :: r).
Proof.
  intros Hsc Hcolon. unfold split_scheme.
  set (g := fun x : ascii => negb (ascii_eqb x ":"%char)).
  destruct (char_in u ":"%char) eqn:Hin.
  - assert (Hg : forallb g u = false).
    { rewrite char_in_forallb in Hin. by apply negb_true_iff in Hin. }
    rewrite (take_while_app_inside g u (c :: r) Hg).
    rewrite char_in_app, Hin. cbn [orb andb].
    destruct (match take_while g u with
              | [] => false | a :: _ => is_ascii_alpha a end
              && forallb is_scheme_char (take_while g u)); cbn [fst snd]; [|done].
    f_equal. apply drop_app_le. by apply take_while_length_lt.
  - assert (Hg : forallb g u = true).
    { rewrite char_in_forallb in Hin. by apply negb_false_iff in Hin. }
    cbn [andb fst snd].
    rewrite (take_while_app_all g u (c :: r) Hg).
    assert (Hgc : g c = true) by (unfold g; by rewrite Hcolon).
    cbn [take_while]. rewrite Hgc.
    rewrite forallb_app. cbn [forallb]. rewrite Hsc.
    cbn [andb]. rewrite andb_false_r, andb_false_r. done.
Qed.

Lemma starts_with_slashes_app (u r : str) (c : ascii) :
  ascii_eqb "/"%char c = false ->
  starts_with ascii_eqb (lit "//") (u ++ c :: r)
  = starts_with ascii_eqb (lit "//") u.
Proof.
  intros Hc. destruct u as [|a [|b t]]; cbn [app starts_with lit list_ascii_of_string].
  - by rewrite Hc.
  - rewrite Hc. cbn [andb]. by rewrite andb_false_r.
  - done.
Qed.

Lemma starts_with_length {X} (eqb : X -> X -> bool) (p s : list X) :
  starts_with eqb p s = true -> (length p <= length s)%nat.
Proof.
  revert s. induction p as [|a p IH]; intros [|b s]; cbn [starts_with length];
    try done; try lia.
  intros H. apply andb_true_iff in H as [_ H]. apply IH in H. lia.
Qed.

Lemma path_before_query (u r : str) :
  let q := fun c : ascii => negb (ascii_eqb c "?"%char) in
  let h := fun c : ascii => negb (ascii_eqb c "#"%char) in
  take_while q (take_while h (u ++ "?"%char :: r)) = take_while q (take_while h u).
Proof.
  cbn zeta. induction u as [|a u IH]; cbn [app take_while].
  - reflexivity.
  - destruct (negb (ascii_eqb a "#")); [|done]. cbn [take_while].
    destruct (negb (ascii_eqb a "?")); [|done]. by rewrite IH.
Qed.

Lemma urlparse_path_app (bracketed_host_ok : str -> bool) (url r : str)
    (c : ascii) :
  c = "?"%char \/ c = "#"%char ->
  urlparse_path bracketed_host_ok (url ++ c :: r)
  = urlparse_path bracketed_host_ok url.
Proof.
  intros Hc.
  assert (Hfacts : is_c0_or_space c = false /\ is_unsafe_url_char c = false /\
                   is_scheme_char c = false /\ ascii_eqb c ":"%char = false /\
                   ascii_eqb "/"%char c = false /\
                   char_in (lit "/?#") c = true).
  { destruct Hc as [->| ->]; vm_compute; repeat split. }
  destruct Hfacts as (H0 & H1 & H2 & H3 & H4 & H5).
  unfold urlparse_path.
  rewrite (drop_while_app_stop _ url r c H0).
  rewrite filter_app, filter_cons.
  rewrite decide_True; [|by rewrite H1].
  set (u2 := filter (fun c => negb (is_unsafe_url_char c))
                    (drop_while is_c0_or_space url)).
  match goal with |- context [u2 ++ c :: ?x] => generalize x end. intros r'.
  rewrite (split_scheme_app u2 r' c H2 H3).
  destruct (split_scheme u2) as [scheme u3]. cbn [fst snd].
  rewrite (starts_with_slashes_app u3 r' c H4).
  set (nd := fun x : ascii => negb (char_in (lit "/?#") x)).
  assert (Hnd : nd c = false) by (unfold nd; by rewrite H5).
  assert (Hpath : forall u4,
    take_while (fun x => negb (ascii_eqb x "?"%char))
      (take_while (fun x => negb (ascii_eqb x "#"%char)) (u4 ++ c :: r'))
    = take_while (fun x => negb (ascii_eqb x "?"%char))
        (take_while (fun x => negb (ascii_eqb x "#"%char)) u4)).
  { intros u4. destruct Hc as [->| ->].
    - apply path_before_query.
    - by rewrite (take_while_app_stop _ u4 r' "#"%char). }
  destruct (starts_with ascii_eqb (lit "//") u3) eqn:Hs.
  - apply starts_with_length in Hs.
    rewrite (drop_app_le u3 (c :: r') 2) by exact Hs.
    rewrite (take_while_app_stop nd _ r' c Hnd).
    rewrite (drop_while_app_stop nd _ r' c Hnd).
    by rewrite Hpath.
  - by rewrite Hpath.
Qed.

(** X7. What follows a question mark or a hash sign that is added to a
    URL never reaches the file name: [url_to_filename] gives the same
    result, or raises the same, as without it. *)
Theorem filename_ignores_query_and_fragment
    (bracketed_host_ok : str -> bool) (url rest : str) :
  url_to_filename bracketed_host_ok (url ++ "?"%char :: rest)
  = url_to_filename bracketed_host_ok url /\
  url_to_filename bracketed_host_ok (url ++ "#"%char :: rest)
  = url_to_filename bracketed_host_ok url.
Proof.
  unfold url_to_filename.
  rewrite !urlparse_path_app; [done|by right|by left].
Qed.

Lemma after_last_no_sep {X} (f : X -> bool) (s : list X) :
  match after_last f s with
  | Some r => forallb (fun c => negb (f c)) r = true
  | None => forallb (fun c => negb (f c)) s = true
  end.
Proof.
  induction s as [|c s IH]; cbn [after_last]; [done|].
  destruct (after_last f s) as [r|]; [done|].
  destruct (f c) eqn:Hc; [done|]. cbn [forallb]. by rewrite Hc.
Qed.

Lemma basename_no_sep {X} (f : X -> bool) (s : list X) :
  forallb (fun c => negb (f c)) (basename f s) = true.
Proof.
  unfold basename. pose proof (after_last_no_sep f s) as H.
  by destruct (after_last f s).
Qed.

Lemma is_uslash_code (c : ascii) : is_uslash (code c) = is_slash c.
Proof.
  apply eqb_prop.
  apply (ascii_forall (fun c => Bool.eqb (is_uslash (code c)) (is_slash c))).
  vm_compute. reflexivity.
Qed.

Lemma split_on_no_sep {X} (f : X -> bool) (s : list X) :
  forallb (fun c => negb (f c)) s = true -> split_on f s = [s].
Proof.
  induction s as [|c s IH]; cbn [split_on forallb]; [done|].
  intros H. apply andb_true_iff in H as [Hc Hs].
  apply negb_true_iff in Hc. rewrite Hc, (IH Hs). done.
Qed.

Lemma split_on_app_sep {X} (f : X -> bool) (a b : list X) (c : X) :
  forallb (fun c => negb (f c)) a = true -> f c = true ->
  split_on f (a ++ c :: b) = a :: split_on f b.
Proof.
  intros Ha Hc. induction a as [|x a IH]; cbn [app split_on].
  - by rewrite Hc.
  - cbn [forallb] in Ha. apply andb_true_iff in Ha as [Hx Ha].
    apply negb_true_iff in Hx. rewrite Hx, (IH Ha). done.
Qed.

(** A name without a slash, joined to the folder, is the file of that
    name in the folder. *)
Lemma resolve_target_plain (c : list ustr) (f : ustr) :
  existsb is_uslash f = false ->
  f ≠ [] -> f ≠ ulit "." -> f ≠ ulit ".." ->
  resolve c (target f) = c ++ [save_folder; f].
Proof.
  intros Hns Hne Hdot Hdots.
  assert (Hall : forallb (fun x => negb (is_uslash x)) f = true).
  { apply forallb_forall. intros x Hx. apply negb_true_iff.
    apply list_elem_of_In in Hx.
    by apply (proj1 (existsb_false_forall is_uslash f) Hns). }
  assert (Hstart : starts_with N.eqb [47] f = false).
  { destruct f as [|x f]; [done|]. cbn [starts_with].
    cbn [existsb] in Hns. apply orb_false_iff in Hns as [Hx _].
    unfold is_uslash in Hx. rewrite N.eqb_sym, Hx. done. }
  unfold target, path_join. rewrite Hstart.
  change (is_empty save_folder || ends_with N.eqb [47] save_folder) with false.
  cbn iota. cbn [app].
  unfold resolve, base_of, components.
  assert (Hrel : starts_with N.eqb [47] (save_folder ++ 47 :: f) = false)
    by reflexivity.
  rewrite Hrel.
  rewrite (split_on_app_sep is_uslash save_folder f 47); [|reflexivity..].
  rewrite (split_on_no_sep is_uslash f Hall).
  cbn [fold_left]. unfold step at 2.
  change (is_empty save_folder || bool_decide (save_folder = ulit ".")) with false.
  change (bool_decide (save_folder = ulit "..")) with false.
  cbn iota. unfold step.
  destruct f as [|x f']; [done|]. cbn [is_empty orb].
  rewrite bool_decide_eq_false_2 by done.
  rewrite bool_decide_eq_false_2 by done.
  cbn [rev]. rewrite rev_involutive, <- app_assoc. done.
Qed.

(** X8. For a URL without a percent sign the file name holds no slash,
    and unless it is empty, [.] or [..] the file [download_pdf] checks and
    writes is the one of that name directly inside [PDFs]. *)
Theorem filename_without_percent_stays_in_folder
    (bracketed_host_ok : str -> bool) (url : str) (f : ustr) (c : list ustr) :
  char_in url "%"%char = false ->
  url_to_filename bracketed_host_ok url = Ok f ->
  existsb is_uslash f = false /\
  (f ≠ [] -> f ≠ ulit "." -> f ≠ ulit ".." ->
   resolve c (target f) = c ++ [save_folder; f]).
Proof.
  intros Hpc Hname.
  assert (Hns : existsb is_uslash f = false).
  { unfold url_to_filename in Hname.
    pose proof (urlparse_path_cases bracketed_host_ok url) as Hchars.
    destruct (urlparse_path bracketed_host_ok url) as [path|e]; [|done].
    injection Hname as <-.
    assert (Hb : char_in (basename is_slash path) "%"%char = false).
    { apply not_true_is_false. intros Hin.
      apply char_in_elem, basename_elem, Hchars, char_in_elem in Hin.
      congruence. }
    unfold unquote. rewrite Hb. cbn [negb].
    pose proof (basename_no_sep is_slash path) as Hno.
    unfold widen. induction (basename is_slash path) as [|x b IH]; [done|].
    cbn [forallb] in Hno. apply andb_true_iff in Hno as [Hx Hno].
    cbn [map existsb]. rewrite is_uslash_code.
    apply negb_true_iff in Hx. rewrite Hx. cbn [orb]. apply IH; [|done].
    cbn [char_in existsb] in Hb. unfold char_in in Hb. cbn [existsb] in Hb.
    by apply orb_false_iff in Hb as [_ Hb]. }
  split; [done|]. intros. by apply resolve_target_plain.
Qed.

Lemma filename_without_percent_stays_in_folder_witness :
  existsb is_uslash (ulit "a.pdf") = false /\
  (ulit "a.pdf" ≠ [] -> ulit "a.pdf" ≠ ulit "." -> ulit "a.pdf" ≠ ulit ".." ->
   resolve [ulit "srv"; ulit "job"] (target (ulit "a.pdf"))
   = [ulit "srv"; ulit "job"] ++ [save_folder; ulit "a.pdf"]).
Proof.
  apply (filename_without_percent_stays_in_folder any_brackets url_a);
    vm_compute; reflexivity.
Defined.

(** With a percent sign the name can hold slashes, and the target can lie
    anywhere. *)
Example percent_slash_leaves_folder :
  url_to_filename any_brackets (lit "https://example.com/..%2F..%2Fetc%2Fb.pdf")
  = Ok (ulit "../../etc/b.pdf") /\
  resolve [ulit "srv"; ulit "job"] (target (ulit "../../etc/b.pdf"))
  = [ulit "srv"; ulit "etc"; ulit "b.pdf"].
Proof. vm_compute. done. Qed.

(** ** The downloader, outcome by outcome *)

Lemma stat_put_file (w : world) (p : ustr) (d : str) r o :
  reachable w p = true ->
  entry_at (cwd w) (fs w) (resolve (cwd w) p) ≠ Some Dir ->
  stat (World (cwd w) (<[resolve (cwd w) p := File d]> (fs w)) r o) p
  = Some (File d).
Proof.
  unfold stat, reachable. cbn [cwd fs]. intros Hreach Hk.
  apply andb_true_iff in Hreach as [Hpre Hwalk].
  rewrite Hpre, (walkable_insert_file _ _ _ _ _ _ Hk Hwalk). cbn [andb].
  unfold entry_at in *.
  destruct (bool_decide (resolve (cwd w) p `prefix_of` cwd w)); [done|].
  by rewrite lookup_insert_eq.
Qed.

Lemma can_open_reachable (w : world) (p : ustr) :
  can_open w p = true ->
  reachable w p = true /\
  entry_at (cwd w) (fs w) (resolve (cwd w) p) ≠ Some Dir.
Proof.
  unfold can_open, stat, creatable. intros H.
  apply andb_true_iff in H as [_ H].
  destruct (reachable w p) eqn:Hr; [|done].
  split; [done|]. intros E. by rewrite E in H.
Qed.

Section DownloadCases.

Variable bracketed_host_ok : str -> bool.
Variable net : list str -> str -> http_result.

Lemma download_cannot_open_exn (url : str) (lfp f : ustr) (w : world)
    (status : N) (chunks : list str) (broken : bool) :
  folder_ok w = true ->
  url_to_filename bracketed_host_ok url = Ok f ->
  isfile (after_makedirs w) (target f) = false ->
  net (requests w) url = Response status chunks broken ->
  is_http_error status = false ->
  can_open (after_makedirs w) (target f) = false ->
  download_pdf bracketed_host_ok net url lfp w
  = (Raise (if has_nul (target f) then ValueError else OSError),
     World (cwd w) (fs (after_makedirs w)) (requests w ++ [url]) (stdout w)).
Proof.
  intros Hok Hname Hex Hnet Hst Hopen.
  unfold download_pdf, try_except.
  unfold bind at 1. rewrite (makedirs_ok _ Hok).
  unfold bind at 1. unfold lift at 1. rewrite Hname.
  unfold bind at 1. unfold check_file_exists. unfold bind at 1.
  unfold get_world, ret at 1. fold (target f). rewrite Hex.
  unfold bind at 1. unfold requests_get.
  rewrite after_makedirs_requests, Hnet.
  unfold bind at 1. unfold raise_for_status.
  unfold is_http_error in Hst. rewrite Hst. unfold ret at 1.
  unfold bind at 1. unfold open_wb. unfold bind at 1. unfold get_world.
  rewrite after_makedirs_cwd, after_makedirs_stdout.
  set (w2 := World (cwd w) (fs (after_makedirs w)) (requests w ++ [url])
                   (stdout w)).
  assert (Hopen2 : can_open w2 (target f) = false).
  { rewrite <- Hopen. apply can_open_ext; [by rewrite after_makedirs_cwd|done]. }
  assert (Hex2 : isfile w2 (target f) = false).
  { rewrite <- Hex. unfold isfile. rewrite (stat_ext w2 (after_makedirs w));
      [done|by rewrite after_makedirs_cwd|done]. }
  unfold can_open in Hopen2. unfold isfile in Hex2.
  destruct (has_nul (target f)); [done|].
  cbn [negb andb] in Hopen2.
  destruct (stat w2 (target f)) as [[c|]|]; try done.
  by rewrite Hopen2.
Qed.

Lemma download_outcome (url : str) (lfp : ustr) (w : world) :
  outcome bracketed_host_ok net url w
    (download_pdf bracketed_host_ok net url lfp w).
Proof.
  destruct (folder_ok w) eqn:Hok.
  2:{ rewrite (download_no_folder _ _ _ _ _ Hok). by constructor. }
  destruct (url_to_filename bracketed_host_ok url) as [f|e] eqn:Hname.
  2:{ pose proof (filename_raises_value_error _ _ _ Hname) as ->.
      rewrite (download_bad_name _ _ _ _ _ _ Hok Hname eq_refl).
      by constructor. }
  destruct (isfile (after_makedirs w) (target f)) eqn:Hex.
  { rewrite (download_existing _ _ _ _ _ _ Hok Hname Hex). by constructor. }
  destruct (net (requests w) url) as [e|status chunks broken|e] eqn:Hnet.
  { rewrite (download_get_raises _ _ _ _ _ _ _ Hok Hname Hex Hnet).
    eapply out_failed; [done|exact Hname|done|by rewrite Hnet]. }
  2:{ rewrite (download_get_raises_other _ _ _ _ _ _ _ Hok Hname Hex Hnet).
      destruct (is_RequestException e) eqn:He.
      - destruct e as [| |r| | | |]; try done.
        eapply out_failed; [done|exact Hname|done|by rewrite Hnet].
      - by eapply out_escaped. }
  destruct (is_http_error status) eqn:Hst.
  { rewrite (download_http_error _ _ _ _ _ _ _ _ _ Hok Hname Hex Hnet Hst).
    eapply out_failed; [done|exact Hname|done|]. rewrite Hnet. cbn. by rewrite Hst. }
  destruct (can_open (after_makedirs w) (target f)) eqn:Hopen.
  { rewrite (download_written _ _ _ _ _ _ _ _ _ Hok Hname Hex Hnet Hst Hopen).
    by eapply out_written. }
  rewrite (download_cannot_open_exn url lfp f w status chunks broken
             Hok Hname Hex Hnet Hst Hopen).
  by eapply out_cannot_open.
Qed.

End DownloadCases.

Lemma stat_written (w : world) (f : ustr) (d : str) r o :
  can_open (after_makedirs w) (target f) = true ->
  stat (World (cwd w)
              (<[resolve (cwd w) (target f) := File d]> (fs (after_makedirs w)))
              r o) (target f)
  = Some (File d).
Proof.
  intros Hopen. apply can_open_reachable in Hopen as [Hr Hk].
  rewrite <- (after_makedirs_cwd w). by apply stat_put_file.
Qed.

Lemma stat_folder_kept (w : world) r o :
  folder_ok w = true ->
  stat (World (cwd w) (fs (after_makedirs w)) r o) save_folder = Some Dir.
Proof.
  intros Hok. rewrite <- (after_makedirs_stat w Hok).
  apply stat_ext; cbn [cwd fs]; [by rewrite after_makedirs_cwd|done].
Qed.

(** X9. A download that is answered without an error status, into a
    target that can be opened: the target then holds the chunks received,
    in order, one request was sent, the last line printed is the success
    message (the failure message when the stream broke off, the part
    received staying on disk), and no file but the target and the folder
    has changed. *)
Theorem download_writes_received_chunks
    (bracketed_host_ok : str -> bool) (net : list str -> str -> http_result)
    (pdf_url : str) (local_file_path f : ustr) (w : world)
    (status : N) (chunks : list str) (broken : bool) :
  folder_ok w = true ->
  url_to_filename bracketed_host_ok pdf_url = Ok f ->
  isfile (after_makedirs w) (target f) = false ->
  net (requests w) pdf_url = Response status chunks broken ->
  is_http_error status = false ->
  can_open (after_makedirs w) (target f) = true ->
  exists w',
    download_pdf bracketed_host_ok net pdf_url local_file_path w = (Ok tt, w') /\
    stat w' (target f) = Some (File (concat chunks)) /\
    requests w' = requests w ++ [pdf_url] /\
    stdout w'
    = stdout w ++ [if broken
                   then MFailed pdf_url (RequestException StreamError)
                   else MDownloaded (target f)] /\
    forall k, k ≠ resolve (cwd w) (target f) ->
              k ≠ resolve (cwd w) save_folder ->
              fs w' !! k = fs w !! k.
Proof.
  intros Hok Hname Hex Hnet Hst Hopen.
  eexists. split.
  { exact (download_written bracketed_host_ok net pdf_url local_file_path f w
             status chunks broken Hok Hname Hex Hnet Hst Hopen). }
  split; [by apply stat_written|]. split; [done|]. split; [done|].
  intros k Hk Hfolder. cbn [fs]. rewrite lookup_insert_ne by done.
  unfold after_makedirs. destruct (stat w save_folder); [done|].
  cbn [fs]. by rewrite lookup_insert_ne.
Qed.

Lemma download_writes_received_chunks_witness :
  exists w',
    download_pdf any_brackets net_pdf url_a [] w_empty = (Ok tt, w') /\
    stat w' (target (ulit "a.pdf"))
    = Some (File (concat [lit "%PDF"; []; lit "-1.4"])) /\
    requests w' = requests w_empty ++ [url_a] /\
    stdout w'
    = stdout w_empty ++ [if false
                         then MFailed url_a (RequestException StreamError)
                         else MDownloaded (target (ulit "a.pdf"))] /\
    forall k, k ≠ resolve (cwd w_empty) (target (ulit "a.pdf")) ->
              k ≠ resolve (cwd w_empty) save_folder ->
              fs w' !! k = fs w_empty !! k.
Proof.
  apply (download_writes_received_chunks any_brackets net_pdf url_a []
           (ulit "a.pdf") w_empty 200 [lit "%PDF"; []; lit "-1.4"] false);
    vm_compute; reflexivity.
Defined.

(** X10. Two URLs with the same file name share the target: once the
    first has been written, [download_pdf] for the second sends no request,
    changes no file and reports that the file exists. *)
Theorem same_file_name_is_fetched_once
    (bracketed_host_ok : str -> bool) (net : list str -> str -> http_result)
    (url url' : str) (lfp lfp' f : ustr) (w : world)
    (status : N) (chunks : list str) (broken : bool) :
  folder_ok w = true ->
  url_to_filename bracketed_host_ok url = Ok f ->
  url_to_filename bracketed_host_ok url' = Ok f ->
  isfile (after_makedirs w) (target f) = false ->
  net (requests w) url = Response status chunks broken ->
  is_http_error status = false ->
  can_open (after_makedirs w) (target f) = true ->
  exists w1 w2,
    download_pdf bracketed_host_ok net url lfp w = (Ok tt, w1) /\
    download_pdf bracketed_host_ok net url' lfp' w1 = (Ok tt, w2) /\
    requests w2 = requests w ++ [url] /\
    fs w2 = fs w1 /\
    stdout w2 = stdout w1 ++ [MExists (target f)].
Proof.
  intros Hok Hname Hname' Hex Hnet Hst Hopen.
  pose proof (download_written bracketed_host_ok net url lfp f w status
                chunks broken Hok Hname Hex Hnet Hst Hopen) as H1.
  destruct (written_world w f (concat chunks) (requests w ++ [url])
              (stdout w ++ [if broken
                            then MFailed url (RequestException StreamError)
                            else MDownloaded (target f)]) Hok Hopen)
    as (Hok1 & Hidem & Hfile).
  eexists _, _. split; [exact H1|]. split.
  - apply (download_existing _ _ _ _ _ _ Hok1 Hname'). by rewrite Hidem.
  - split; [reflexivity|]. split; [by rewrite Hidem|reflexivity].
Qed.

Lemma same_file_name_is_fetched_once_witness :
  exists w1 w2,
    download_pdf any_brackets net_pdf
      (lit "https://example.com/en/a.pdf") [] w_empty = (Ok tt, w1) /\
    download_pdf any_brackets net_pdf
      (lit "https://example.com/de/a.pdf?v=2") [] w1 = (Ok tt, w2) /\
    requests w2 = requests w_empty ++ [lit "https://example.com/en/a.pdf"] /\
    fs w2 = fs w1 /\
    stdout w2 = stdout w1 ++ [MExists (target (ulit "a.pdf"))].
Proof.
  apply (same_file_name_is_fetched_once any_brackets net_pdf
           (lit "https://example.com/en/a.pdf")
           (lit "https://example.com/de/a.pdf?v=2") [] [] (ulit "a.pdf")
           w_empty 200 [lit "%PDF"; []; lit "-1.4"] false);
    vm_compute; reflexivity.
Defined.



(** X12. [download_pdf] makes the folder before anything else: unless a
    regular file named [PDFs] is in the way, [PDFs] is a directory after
    the call whatever its outcome; if one is, the call raises [OSError] and
    changes nothing. *)
Theorem download_makes_the_folder_first
    (bracketed_host_ok : str -> bool) (net : list str -> str -> http_result)
    (pdf_url : str) (local_file_path : ustr) (w : world) :
  (folder_ok w = true ->
   stat (download_pdf bracketed_host_ok net pdf_url local_file_path w).2
        save_folder = Some Dir) /\
  (folder_ok w = false ->
   download_pdf bracketed_host_ok net pdf_url local_file_path w
   = (Raise OSError, w)).
Proof.
  split; [|apply download_no_folder].
  intros Hok.
  pose proof (download_outcome bracketed_host_ok net pdf_url local_file_path w)
    as Hout.
  inversion Hout as [Hno| | | | | |]; subst; cbn [snd];
    try (by apply stat_folder_kept);
    try (by apply after_makedirs_stat).
  - congruence.
  - match goal with Hopen : can_open _ _ = true |- _ =>
      destruct (written_world w f (concat chunks) (requests w ++ [pdf_url])
                  (stdout w ++ [if broken
                                then MFailed pdf_url (RequestException StreamError)
                                else MDownloaded (target f)]) Hok Hopen)
        as (Hok1 & Hidem & _)
    end.
    cbv zeta in Hok1, Hidem.
    rewrite <- Hidem. by apply after_makedirs_stat.
Qed.

Lemma download_makes_the_folder_first_witness :
  stat (download_pdf any_brackets net_down url_a [] w_empty).2 save_folder
  = Some Dir.
Proof.
  apply (proj1 (download_makes_the_folder_first any_brackets net_down
                  url_a [] w_empty)).
  vm_compute. reflexivity.
Defined.

(** ** Appending, removing *)

Lemma stat_file_lookup (w : world) (p : ustr) (d : str) :
  stat w p = Some (File d) ->
  reachable w p = true /\
  fs w !! resolve (cwd w) p = Some (File d) /\
  entry_at (cwd w) (fs w) (resolve (cwd w) p) ≠ Some Dir.
Proof.
  unfold stat. destruct (reachable w p); [|done]. intros E.
  split; [done|]. split; [|by rewrite E].
  unfold entry_at in E.
  by destruct (bool_decide (resolve (cwd w) p `prefix_of` cwd w)).
Qed.

Lemma stat_none_lookup (w : world) (p : ustr) :
  stat w p = None -> reachable w p = true ->
  fs w !! resolve (cwd w) p = None /\
  entry_at (cwd w) (fs w) (resolve (cwd w) p) ≠ Some Dir.
Proof.
  unfold stat. intros E Hr. rewrite Hr in E. split; [|by rewrite E].
  unfold entry_at in E.
  by destruct (bool_decide (resolve (cwd w) p `prefix_of` cwd w)).
Qed.

(** What [append_write_to_file] does when the file can be opened. *)
Lemma append_ok (p : ustr) (content old : str) (w : world) :
  has_nul p = false ->
  (stat w p = Some (File old) \/
   stat w p = None /\ creatable w p = true /\ old = []) ->
  append_write_to_file p content w
  = (Ok tt, World (cwd w)
                  (<[resolve (cwd w) p := File (old ++ content)]> (fs w))
                  (requests w) (stdout w)) /\
  stat (World (cwd w) (<[resolve (cwd w) p := File (old ++ content)]> (fs w))
              (requests w) (stdout w)) p
  = Some (File (old ++ content)).
Proof.
  intros Hnul H.
  unfold append_write_to_file, open_a, write_to, put, set_fs, bind, get_world, ret.
  rewrite Hnul.
  destruct H as [Hst|(Hst & Hcr & ->)]; rewrite Hst.
  - destruct (stat_file_lookup w p old Hst) as (Hr & Hl & Hk).
    rewrite Hl. cbn [cwd fs requests stdout]. split; [done|].
    by apply stat_put_file.
  - rewrite Hcr. cbn [cwd fs requests stdout].
    rewrite lookup_insert_eq. cbn [cwd fs requests stdout app].
    rewrite insert_insert_eq.
    unfold creatable in Hcr. apply andb_true_iff in Hcr as [Hr _].
    destruct (stat_none_lookup w p Hst Hr) as (Hl & Hk).
    split; [done|]. by apply stat_put_file.
Qed.

(** And when it cannot: the call raises and changes nothing. *)
Lemma append_raises (p : ustr) (content : str) (w : world) :
  has_nul p = true \/ stat w p = Some Dir \/
  (stat w p = None /\ creatable w p = false) ->
  append_write_to_file p content w
  = (Raise (if has_nul p then ValueError else OSError), w).
Proof.
  unfold append_write_to_file, open_a, bind, get_world, raise.
  intros [Hnul|H].
  - by rewrite Hnul.
  - destruct (has_nul p); [done|].
    destruct H as [->|[-> ->]]; done.
Qed.

Lemma append_cases (p : ustr) (w : world) :
  (has_nul p = false /\
   exists old, stat w p = Some (File old) \/
               stat w p = None /\ creatable w p = true /\ old = []) \/
  (has_nul p = true \/ stat w p = Some Dir \/
   (stat w p = None /\ creatable w p = false)).
Proof.
  destruct (has_nul p); [right; by left|].
  destruct (stat w p) as [[old|]|] eqn:E.
  - left. split; [done|]. exists old. by left.
  - right. right. by left.
  - destruct (creatable w p) eqn:Hc.
    + left. split; [done|]. exists []. right. done.
    + right. right. right. done.
Qed.

(** X13. Two calls of [append_write_to_file] on one path do what a
    single call with the two texts joined does, exceptions included. *)
Theorem append_twice_is_append_once
    (system_path : ustr) (a b : str) (w : world) :
  (append_write_to_file system_path a ;;;
   append_write_to_file system_path b) w
  = append_write_to_file system_path (a ++ b) w.
Proof.
  destruct (append_cases system_path w) as [(Hnul & old & H)|H].
  - destruct (append_ok system_path a old w Hnul H) as [Ha Hstat].
    destruct (append_ok system_path (a ++ b) old w Hnul H) as [Hab _].
    unfold bind at 1. rewrite Ha, Hab.
    destruct (append_ok system_path b (old ++ a) _ Hnul (or_introl Hstat))
      as [Hb _].
    rewrite Hb. cbn [cwd fs requests stdout].
    by rewrite insert_insert_eq, app_assoc.
  - unfold bind at 1.
    by rewrite !(append_raises system_path _ w H).
Qed.

(** X14. [remove_system_file] on a regular file removes it:
    [check_file_exists] is false afterwards and every other path names
    what it did before.  On anything else it raises [OSError] (or
    [ValueError]) and changes nothing. *)
Theorem removed_file_is_gone (system_path : ustr) (w : world) :
  (isfile w system_path = true ->
   exists w',
     remove_system_file system_path w = (Ok tt, w') /\
     check_file_exists system_path w' = (Ok false, w') /\
     fs w' = delete (resolve (cwd w) system_path) (fs w) /\
     forall q, resolve (cwd w) q ≠ resolve (cwd w) system_path ->
               stat w' q = stat w q) /\
  (isfile w system_path = false ->
   exists e, (e = OSError \/ e = ValueError) /\
             remove_system_file system_path w = (Raise e, w)).
Proof.
  unfold remove_system_file, os_remove, bind, get_world, raise. split.
  - intros Hfile.
    destruct (isfile_inv w system_path Hfile) as (_ & Hnul & d & Hst & Hk).
    rewrite Hnul, Hfile. unfold unlink, set_fs.
    eexists. split; [reflexivity|].
    assert (Hgone : isfile (World (cwd w)
                              (delete (resolve (cwd w) system_path) (fs w))
                              (requests w) (stdout w)) system_path = false).
    { unfold isfile, stat. cbn [cwd fs].
      destruct (reachable _ system_path); [|done].
      unfold entry_at in *.
      destruct (bool_decide (resolve (cwd w) system_path `prefix_of` cwd w));
        [done|].
      by rewrite lookup_delete_eq. }
    split; [|split; [done|]].
    + unfold check_file_exists, bind, get_world, ret. by rewrite Hgone.
    + intros q Hq. by apply (stat_delete w _ d).
  - intros Hfile. rewrite Hfile.
    destruct (has_nul system_path).
    + exists ValueError. split; [by right|done].
    + exists OSError. split; [by left|done].
Qed.

Lemma removed_file_is_gone_witness :
  exists w',
    remove_system_file (ulit "PDFs/Empty.pdf") w_three = (Ok tt, w') /\
    check_file_exists (ulit "PDFs/Empty.pdf") w' = (Ok false, w') /\
    fs w' = delete (resolve (cwd w_three) (ulit "PDFs/Empty.pdf")) (fs w_three) /\
    forall q, resolve (cwd w_three) q
              ≠ resolve (cwd w_three) (ulit "PDFs/Empty.pdf") ->
              stat w' q = stat w_three q.
Proof.
  apply (proj1 (removed_file_is_gone (ulit "PDFs/Empty.pdf") w_three)).
  vm_compute. reflexivity.
Defined.

(** ** The folder after the sweep *)

Lemma lookup_fold_delete (g : ustr -> list ustr) (D : list ustr)
    (f : gmap (list ustr) entry) (k : list ustr) :
  fold_left (fun f p => delete (g p) f) D f !! k
  = if decide (k ∈ map g D) then None else f !! k.
Proof.
  revert f. induction D as [|p D IH]; intros f; cbn [fold_left map].
  - rewrite decide_False; [done|]. apply not_elem_of_nil.
  - rewrite IH. destruct (decide (k = g p)) as [->|Hne].
    + rewrite lookup_delete_eq.
      rewrite (decide_True (P := g p ∈ g p :: map g D)) by (by left).
      by destruct (decide _).
    + rewrite lookup_delete_ne by done.
      destruct (decide (k ∈ map g D)) as [Hin|Hnin].
      * rewrite decide_True; [done|by right].
      * rewrite decide_False; [done|].
        intros H. apply elem_of_cons in H as [?|?]; done.
Qed.

Lemma stat_deleted (w : world) (k : list ustr) (d : str) (q : ustr) r o :
  entry_at (cwd w) (fs w) k = Some (File d) ->
  resolve (cwd w) q = k ->
  stat (World (cwd w) (delete k (fs w)) r o) q = None.
Proof.
  intros Hk <-. unfold stat. cbn [cwd fs].
  destruct (reachable _ q); [|done].
  unfold entry_at in *.
  destruct (bool_decide (resolve (cwd w) q `prefix_of` cwd w)); [done|].
  by rewrite lookup_delete_eq.
Qed.

(** Removing regular files, each once: the removed paths name nothing,
    every other path names what it did. *)
Lemma stat_fold_delete (D : list ustr) (w : world) (q : ustr) r o :
  Forall (fun p => isfile w p = true) D ->
  NoDup (map (resolve (cwd w)) D) ->
  stat (World (cwd w)
              (fold_left (fun f p => delete (resolve (cwd w) p) f) D (fs w))
              r o) q
  = if decide (resolve (cwd w) q ∈ map (resolve (cwd w)) D) then None
    else stat w q.
Proof.
  revert w. induction D as [|p D IH]; intros w Hfiles Hnodup.
  - cbn [fold_left map]. rewrite decide_False by apply not_elem_of_nil.
    by apply stat_ext.
  - apply Forall_cons in Hfiles as [Hp Hfiles].
    cbn [map] in Hnodup. apply NoDup_cons in Hnodup as [Hnotin Hnodup].
    destruct (isfile_inv w p Hp) as (_ & _ & d & _ & Hk).
    set (w1 := World (cwd w) (delete (resolve (cwd w) p) (fs w)) r o).
    assert (Hstat : forall p', resolve (cwd w) p' ≠ resolve (cwd w) p ->
                               stat w1 p' = stat w p').
    { intros p' Hne. by apply (stat_delete w _ d). }
    assert (Hfiles1 : Forall (fun p' => isfile w1 p' = true) D).
    { apply Forall_forall. intros p' Hin.
      rewrite Forall_forall in Hfiles. specialize (Hfiles p' Hin).
      unfold isfile in *. rewrite Hstat; [done|].
      intros Heq. apply Hnotin. rewrite <- Heq.
      apply list_elem_of_fmap. by exists p'. }
    cbn [fold_left map].
    specialize (IH w1 Hfiles1 Hnodup). unfold w1 in IH. cbn [cwd fs] in IH. fold w1 in IH.
    rewrite IH.
    destruct (decide (resolve (cwd w) q = resolve (cwd w) p)) as [Heq|Hne].
    + rewrite (decide_True (P := _ ∈ _ :: _)) by (rewrite Heq; by left).
      destruct (decide _); [done|]. by apply (stat_deleted w _ d).
    + rewrite (Hstat q Hne).
      destruct (decide (resolve (cwd w) q ∈ map (resolve (cwd w)) D)) as [Hin|Hnin].
      * rewrite decide_True; [done|by right].
      * rewrite decide_False; [done|].
        intros H. apply elem_of_cons in H as [?|?]; done.
Qed.

Lemma elem_of_keys (f : gmap (list ustr) entry) (k : list ustr) :
  k ∈ map fst (map_to_list f) <-> is_Some (f !! k).
Proof.
  split.
  - intros H. apply list_elem_of_fmap in H as ([k' e] & -> & H).
    apply elem_of_map_to_list in H. by exists e.
  - intros [e H]. apply list_elem_of_fmap. exists (k, e). split; [done|].
    by apply elem_of_map_to_list.
Qed.

(** What the walk lists, key by key. *)
Lemma walk_listing (system_path extension : ustr) (w : world) :
  has_nul system_path = false ->
  exists files,
    walk_directory_and_extract_given_file_extension system_path extension w
    = (Ok files, w) /\
    forall p, p ∈ files <->
              stat w system_path = Some Dir /\
              exists k, p = spelled system_path k /\ is_Some (fs w !! k) /\
                        listed w (resolve (cwd w) system_path) extension k = true.
Proof.
  intros Hnul.
  unfold walk_directory_and_extract_given_file_extension, bind, get_world, ret.
  rewrite Hnul.
  assert (Hnone : stat w system_path ≠ Some Dir ->
    forall p : ustr, p ∈ [] <->
      stat w system_path = Some Dir /\
      exists k, p = spelled system_path k /\ is_Some (fs w !! k) /\
                listed w (resolve (cwd w) system_path) extension k = true).
  { intros Hne p. split; [by intros H; apply elem_of_nil in H|]. by intros [? _]. }
  destruct (stat w system_path) as [[d|]|] eqn:Hst;
    try (exists []; split; [reflexivity|by apply Hnone]).
  eexists. split; [reflexivity|]. intros p.
  rewrite list_elem_of_fmap. split.
  - intros (k & -> & Hk). apply list_elem_of_filter in Hk as [Hl Hk].
    split; [done|].
    exists k. split; [done|]. split; [by apply elem_of_keys|].
    by apply Is_true_true.
  - intros (_ & k & -> & Hk & Hl). exists k. split; [done|].
    apply list_elem_of_filter. split; [by apply Is_true_true|].
    by apply elem_of_keys.
Qed.

Lemma listed_inv (w : world) (root : list ustr) (extension : ustr)
    (k : list ustr) :
  listed w root extension k = true ->
  root `prefix_of` k /\ k ≠ root /\
  ends_with N.eqb extension (default [] (last k)) = true /\
  isfile w (abspath_of k) = true /\
  resolve (cwd w) (abspath_of k) = k.
Proof.
  unfold listed. rewrite !andb_true_iff.
  intros [[[[H1 H2] H3] H4] H5].
  apply bool_decide_eq_true in H1. apply negb_true_iff in H2.
  apply bool_decide_eq_false in H2. apply bool_decide_eq_true in H5. done.
Qed.

Lemma listed_ext (w w' : world) (root : list ustr) (extension : ustr)
    (k : list ustr) :
  cwd w' = cwd w ->
  isfile w' (abspath_of k) = isfile w (abspath_of k) ->
  listed w' root extension k = listed w root extension k.
Proof. intros Hc Hf. unfold listed. by rewrite Hc, Hf. Qed.

Lemma listed_spelled (w : world) (top : ustr) (root : list ustr)
    (extension : ustr) (k : list ustr) :
  listed w root extension k = true ->
  stat w (spelled top k) = stat w (abspath_of k) /\
  resolve (cwd w) (spelled top k) = k.
Proof.
  intros Hl. pose proof (listed_nonempty _ _ _ _ Hl) as Hne.
  destruct (listed_inv _ _ _ _ Hl) as (_ & _ & _ & _ & Hres).
  split; [by apply stat_spelled|]. by rewrite resolve_spelled.
Qed.

(** X15. Lines 231 to 248 of [main], for any folder and extension.  For a
    path with a NUL character the walk raises [ValueError] and the sweep
    is not reached.  Otherwise the sweep over what the walk lists returns;
    a second walk then lists exactly the files of the first that were
    valid, and each of them is still valid; no file outside the folder has
    changed and no directory is gone. *)
Theorem sweep_leaves_the_valid_files
    (pdf_pages : ustr -> str -> option N) (isupper_wide : N -> bool)
    (system_path extension : ustr) (w : world) :
  (has_nul system_path = true /\
   walk_directory_and_extract_given_file_extension system_path extension w
   = (Raise ValueError, w)) \/
  (has_nul system_path = false /\
   exists files w' files',
     walk_directory_and_extract_given_file_extension system_path extension w
     = (Ok files, w) /\
     sweep pdf_pages isupper_wide files w = (Ok tt, w') /\
     walk_directory_and_extract_given_file_extension system_path extension w'
     = (Ok files', w') /\
     (forall p, p ∈ files' <-> p ∈ files /\ valid_in pdf_pages w p = true) /\
     Forall (fun p => valid_in pdf_pages w' p = true) files' /\
     (forall k, ¬ resolve (cwd w) system_path `prefix_of` k ->
                fs w' !! k = fs w !! k) /\
     (forall k, fs w !! k = Some Dir -> fs w' !! k = Some Dir)).
Proof.
  destruct (walk_lists_regular_files system_path extension w)
    as (files0 & Hwalk0 & Hreg & Hnodup).
  destruct (has_nul system_path) eqn:Hnul; [left; by split|right].
  split; [done|].
  destruct (walk_listing system_path extension w Hnul) as (files & Hwalk & Hfiles).
  rewrite Hwalk in Hwalk0. injection Hwalk0 as <-.
  destruct (sweep_regular_files pdf_pages isupper_wide files w Hreg Hnodup)
    as (w' & Hsweep & _ & _ & Hfs & Hcwd & _).
  destruct (walk_listing system_path extension w' Hnul)
    as (files' & Hwalk' & Hfiles').
  exists files, w', files'. split; [done|]. split; [done|]. split; [done|].
  set (D := filter (fun p => negb (valid_in pdf_pages w p)) files) in *.
  assert (HD : forall p, p ∈ D <-> p ∈ files /\ valid_in pdf_pages w p = false).
  { intros p. unfold D. rewrite list_elem_of_filter.
    rewrite Is_true_true, negb_true_iff. tauto. }
  assert (HDreg : Forall (fun p => isfile w p = true) D).
  { apply Forall_forall. intros p Hp. apply HD in Hp as [Hp _].
    rewrite Forall_forall in Hreg. by apply Hreg. }
  assert (HDnodup : NoDup (map (resolve (cwd w)) D)).
  { eapply sublist_NoDup; [exact Hnodup|].
    apply fmap_sublist, sublist_filter. }
  assert (Hstat : forall q, stat w' q
            = if decide (resolve (cwd w) q ∈ map (resolve (cwd w)) D)
              then None else stat w q).
  { intros q. rewrite <- (stat_fold_delete D w q (requests w') (stdout w') HDreg HDnodup).
    apply stat_ext; cbn [cwd fs]; done. }
  assert (Hlook : forall k, fs w' !! k
            = if decide (k ∈ map (resolve (cwd w)) D) then None else fs w !! k).
  { intros k. rewrite Hfs. apply lookup_fold_delete. }
  (* a removed key is the key of a listed, invalid file *)
  assert (Hkey : forall k, k ∈ map (resolve (cwd w)) D ->
            listed w (resolve (cwd w) system_path) extension k = true /\
            valid_in pdf_pages w (spelled system_path k) = false).
  { intros k Hk. apply list_elem_of_fmap in Hk as (p & -> & Hp).
    apply HD in Hp as [Hp Hinv]. apply Hfiles in Hp as (_ & k & -> & _ & Hl).
    destruct (listed_spelled w system_path _ _ _ Hl) as [_ Hres].
    by rewrite Hres. }
  (* the folder itself is not removed *)
  assert (Hroot : stat w' system_path = stat w system_path).
  { rewrite Hstat. destruct (decide _) as [Hin|]; [|done].
    apply Hkey in Hin as [Hl _].
    by destruct (listed_inv _ _ _ _ Hl) as (_ & Hne & _). }
  assert (Hfile' : forall k,
            resolve (cwd w) (abspath_of k) = k ->
            k ∉ map (resolve (cwd w)) D ->
            isfile w' (abspath_of k) = isfile w (abspath_of k)).
  { intros k Hres Hnin. unfold isfile. by rewrite Hstat, Hres, decide_False. }
  assert (Hmem : forall p, p ∈ files' <-> p ∈ files /\ valid_in pdf_pages w p = true).
  { intros p. rewrite Hfiles', Hfiles, Hcwd, Hroot. split.
    - intros (Hdir & k & -> & Hsome & Hl).
      destruct (listed_inv _ _ _ _ Hl) as (_ & _ & _ & Hfile & Hres).
      rewrite Hcwd in Hres.
      unfold isfile in Hfile. rewrite Hstat, Hres in Hfile.
      destruct (decide (k ∈ map (resolve (cwd w)) D)) as [|Hnin]; [done|].
      rewrite Hlook, decide_False in Hsome by done.
      assert (Hl0 : listed w (resolve (cwd w) system_path) extension k = true).
      { rewrite <- Hl. symmetry. apply listed_ext; [done|]. by apply Hfile'. }
      split; [split; [done|by exists k]|].
      destruct (valid_in pdf_pages w (spelled system_path k)) eqn:Hv; [done|].
      exfalso. apply Hnin. apply list_elem_of_fmap.
      exists (spelled system_path k).
      destruct (listed_spelled w system_path _ _ _ Hl0) as [_ Hres'].
      split; [done|]. apply HD. split; [|done].
      apply Hfiles. split; [done|]. by exists k.
    - intros [(Hdir & k & -> & Hsome & Hl) Hv].
      destruct (listed_inv _ _ _ _ Hl) as (_ & _ & _ & Hfile & Hres).
      assert (Hnin : k ∉ map (resolve (cwd w)) D).
      { intros Hk. apply Hkey in Hk as [_ Hinv]. congruence. }
      split; [done|].
      exists k. split; [done|]. split.
      + by rewrite Hlook, decide_False.
      + rewrite <- Hl. apply listed_ext; [done|]. by apply Hfile'. }
  split; [exact Hmem|]. split; [|split].
  - apply Forall_forall. intros p Hp. apply Hmem in Hp as [Hp Hv].
    apply Hfiles in Hp as (_ & k & -> & _ & Hl).
    destruct (listed_spelled w system_path _ _ _ Hl) as [_ Hres].
    rewrite <- Hv. unfold valid_in. rewrite Hstat, Hres.
    rewrite decide_False; [done|].
    intros Hk. apply Hkey in Hk as [_ Hinv]. congruence.
  - intros k Hk. rewrite Hlook.
    destruct (decide _) as [Hin|]; [|done].
    apply Hkey in Hin as [Hl _].
    by destruct (listed_inv _ _ _ _ Hl) as (Hpre & _).
  - intros k Hdir. rewrite Hlook.
    destruct (decide _) as [Hin|]; [|done].
    apply Hkey in Hin as [Hl _].
    destruct (listed_inv _ _ _ _ Hl) as (_ & _ & _ & Hfile & Hres).
    destruct (isfile_inv _ _ Hfile) as (_ & _ & d & _ & He).
    rewrite Hres in He. unfold entry_at in He.
    destruct (bool_decide (k `prefix_of` cwd w)); congruence.
Qed.

(** ** The names the walk lists *)

Lemma split_on_pieces {X} (f : X -> bool) (s : list X) :
  Forall (fun x => forallb (fun c => negb (f c)) x = true) (split_on f s).
Proof.
  induction s as [|c s IH]; cbn [split_on].
  - by repeat constructor.
  - destruct (f c) eqn:Hc.
    + by constructor.
    + destruct (split_on f s) as [|x rest].
      * repeat constructor. cbn [forallb]. by rewrite Hc.
      * apply Forall_cons in IH as [Hx Hrest]. constructor; [|done].
        cbn [forallb]. by rewrite Hc.
Qed.

Lemma fold_step_elems (cs st : list ustr) (x : ustr) :
  x ∈ fold_left step cs st -> x ∈ cs \/ x ∈ st.
Proof.
  revert st. induction cs as [|c cs IH]; intros st; cbn [fold_left].
  - by right.
  - intros H. apply IH in H as [H|H]; [left; by right|].
    unfold step in H.
    destruct (is_empty c || bool_decide (c = ulit ".")); [by right|].
    destruct (bool_decide (c = ulit "..")).
    + right. destruct st; [done|]. by right.
    + apply elem_of_cons in H as [->|H]; [left; by left|by right].
Qed.

(** The names of an absolute path that is resolved hold no slash. *)
Lemma resolve_absolute_names (c : list ustr) (p : ustr) (x : ustr) :
  starts_with N.eqb [47] p = true ->
  x ∈ resolve c p -> forallb (fun a => negb (is_uslash a)) x = true.
Proof.
  intros Habs Hx. unfold resolve, base_of in Hx. rewrite Habs in Hx.
  apply elem_of_rev, fold_step_elems in Hx as [Hx|Hx];
    [|by apply elem_of_nil in Hx].
  pose proof (split_on_pieces is_uslash p) as H.
  rewrite Forall_forall in H. by apply H.
Qed.

Lemma after_last_none {X} (f : X -> bool) (s : list X) :
  forallb (fun c => negb (f c)) s = true -> after_last f s = None.
Proof.
  induction s as [|c s IH]; cbn [forallb after_last]; [done|].
  intros H. apply andb_true_iff in H as [Hc Hs].
  apply negb_true_iff in Hc. by rewrite (IH Hs), Hc.
Qed.

Lemma basename_app_sep {X} (f : X -> bool) (front name : list X) (c : X) :
  f c = true -> forallb (fun c => negb (f c)) name = true ->
  basename f (front ++ c :: name) = name.
Proof.
  intros Hc Hname. unfold basename.
  assert (H : after_last f (front ++ c :: name) = Some name).
  { induction front as [|x front IH]; cbn [app after_last].
    - by rewrite (after_last_none f name Hname), Hc.
    - by rewrite IH. }
  by rewrite H.
Qed.

Lemma abspath_of_snoc (k : list ustr) (name : ustr) :
  abspath_of (k ++ [name]) = abspath_of k ++ 47 :: name.
Proof.
  unfold abspath_of. rewrite map_app, concat_app. cbn [map concat].
  by rewrite app_nil_r.
Qed.

Lemma abspath_of_absolute (k : list ustr) :
  k ≠ [] -> starts_with N.eqb [47] (abspath_of k) = true.
Proof. by destruct k. Qed.

(** The base name of a listed path is the name of the file. *)
Lemma basename_listed (c : list ustr) (top : ustr) (k : list ustr) :
  k ≠ [] -> resolve c (abspath_of k) = k ->
  get_filename_and_extension (spelled top k) = default [] (last k).
Proof.
  intros Hne Hres.
  destruct (exists_last Hne) as (k0 & name & ->).
  rewrite last_snoc. cbn [default].
  assert (Hname : forallb (fun a => negb (is_uslash a)) name = true).
  { apply (resolve_absolute_names c (abspath_of (k0 ++ [name]))).
    - by apply abspath_of_absolute.
    - rewrite Hres. apply elem_of_app. right. by left. }
  unfold get_filename_and_extension, spelled. rewrite abspath_of_snoc.
  destruct (two_slashes top).
  - by apply (basename_app_sep is_uslash (47 :: abspath_of k0)).
  - by apply basename_app_sep.
Qed.

Lemma spelled_absolute (top : ustr) (k : list ustr) :
  k ≠ [] -> starts_with N.eqb [47] (spelled top k) = true.
Proof.
  intros Hk. unfold spelled. destruct (two_slashes top); [done|].
  by apply abspath_of_absolute.
Qed.

(** X16. [walk_directory_and_extract_given_file_extension] changes
    nothing.  It raises [ValueError] for a path with a NUL character and
    lists nothing for a path that does not lead to a directory.  Every
    path it lists is absolute and names a regular file below the folder,
    and its base name, which is what the uppercase check reads, ends with
    the extension. *)
Theorem walk_lists_files_of_the_extension
    (system_path extension : ustr) (w : world) :
  exists files,
    walk_directory_and_extract_given_file_extension system_path extension w
    = ((if has_nul system_path then Raise ValueError else Ok files), w) /\
    (stat w system_path ≠ Some Dir -> files = []) /\
    Forall (fun p =>
              starts_with N.eqb [47] p = true /\
              isfile w p = true /\
              ends_with N.eqb extension (get_filename_and_extension p) = true /\
              resolve (cwd w) system_path `prefix_of` resolve (cwd w) p /\
              resolve (cwd w) p ≠ resolve (cwd w) system_path)
           files.
Proof.
  destruct (has_nul system_path) eqn:Hnul.
  { exists []. split; [|split; [done|constructor]].
    unfold walk_directory_and_extract_given_file_extension, bind, get_world.
    by rewrite Hnul. }
  destruct (walk_listing system_path extension w Hnul) as (files & Hwalk & Hfiles).
  exists files. split; [done|]. split.
  - intros Hst. destruct files as [|p files]; [done|].
    destruct (proj1 (Hfiles p)) as [Hdir _]; [by left|done].
  - apply Forall_forall. intros p Hp.
    apply Hfiles in Hp as (_ & k & -> & _ & Hl).
    destruct (listed_inv _ _ _ _ Hl) as (Hpre & Hne & Hext & Hfile & Hres).
    pose proof (listed_nonempty _ _ _ _ Hl) as Hk.
    destruct (listed_spelled w system_path _ _ _ Hl) as [Hst Hres'].
    rewrite (basename_listed (cwd w) system_path k Hk Hres), Hres'.
    unfold isfile. rewrite Hst. fold (isfile w (abspath_of k)).
    repeat split; try done. by apply spelled_absolute.
Qed.

(** ** The requests of a run *)

Section Requests.

Variable bracketed_host_ok : str -> bool.
Variable net : list str -> str -> http_result.





End Requests.


Lemma process_unselected (bracketed_host_ok : str -> bool)
    (net : list str -> str -> http_result) (url_lines : list str) (w : world) :
  selected_urls url_lines = [] ->
  process_lines bracketed_host_ok net url_lines w = (Ok tt, w).
Proof.
  unfold selected_urls, process_lines.
  induction url_lines as [|line rest IH]; [done|].
  rewrite filter_cons. cbn [for_each]. unfold bind, process_line.
  destruct (selected line); [by rewrite decide_True|].
  rewrite decide_False by (by intros []). exact IH.
Qed.

(** X18. When no normalized match holds [.pdf] or [.docx], lines 202 to
    229 of [main] do nothing: no folder is made, no request is sent, no
    manifest is written. *)
Theorem nothing_selected_nothing_done
    (bracketed_host_ok : str -> bool) (net : list str -> str -> http_result)
    (file_content : str) (w : world) :
  selected_urls (normalize (extract_url_lines file_content)) = [] ->
  main_download bracketed_host_ok net file_content w = (Ok tt, w).
Proof. apply process_unselected. Qed.

Lemma nothing_selected_nothing_done_witness :
  main_download any_brackets net_pdf
    (qlit "  'url': 'https://example.com/logo.png',") w_empty
  = (Ok tt, w_empty).
Proof.
  apply (nothing_selected_nothing_done any_brackets net_pdf).
  vm_compute. reflexivity.
Defined.

(** X19. A URL without an uppercase letter and without a percent sign
    gives a file name that [check_upper_case_letter] does not flag. *)
Theorem lowercase_url_gives_unflagged_name
    (bracketed_host_ok : str -> bool) (isupper_wide : N -> bool)
    (url : str) (f : ustr) :
  existsb isupper url = false ->
  char_in url "%"%char = false ->
  url_to_filename bracketed_host_ok url = Ok f ->
  check_upper_case_letter isupper_wide f = false.
Proof.
  intros Hlow Hpc Hname. unfold url_to_filename in Hname.
  pose proof (urlparse_path_cases bracketed_host_ok url) as Hchars.
  destruct (urlparse_path bracketed_host_ok url) as [path|e]; [|done].
  injection Hname as <-.
  assert (Hb : char_in (basename is_slash path) "%"%char = false).
  { apply not_true_is_false. intros Hin.
    apply char_in_elem, basename_elem, Hchars, char_in_elem in Hin.
    congruence. }
  unfold unquote. rewrite Hb. cbn [negb]. rewrite check_upper_widen.
  apply existsb_false_forall. intros c Hc.
  apply basename_elem, Hchars in Hc.
  by apply (proj1 (existsb_false_forall isupper url) Hlow).
Qed.

Lemma lowercase_url_gives_unflagged_name_witness :
  check_upper_case_letter no_wide_upper (ulit "a.pdf") = false.
Proof.
  apply (lowercase_url_gives_unflagged_name any_brackets no_wide_upper url_a);
    vm_compute; reflexivity.
Defined.

(** An escape brings the uppercase letter back. *)
Example escaped_uppercase_is_flagged :
  existsb isupper (lit "https://example.com/%41.pdf") = false /\
  url_to_filename any_brackets (lit "https://example.com/%41.pdf")
  = Ok (ulit "A.pdf") /\
  check_upper_case_letter no_wide_upper (ulit "A.pdf") = true.
Proof. vm_compute. done. Qed.

(** ** A target that is a directory *)

(** The empty file name stands for the folder itself. *)
Lemma stat_target_empty (w : world) :
  folder_ok w = true -> stat (after_makedirs w) (target []) = Some Dir.
Proof.
  intros Hok. pose proof (after_makedirs_stat w Hok) as Hs.
  rewrite (stat_plain _ _ plain_save_folder) in Hs.
  assert (He : entry_at (cwd (after_makedirs w)) (fs (after_makedirs w))
                 (cwd (after_makedirs w) ++ [save_folder]) = Some Dir).
  { unfold entry_at. by destruct (bool_decide _). }
  unfold stat, reachable, resolve.
  change (components (target [])) with [save_folder; []].
  change (base_of (cwd (after_makedirs w)) (target []))
    with (rev (cwd (after_makedirs w))).
  change (negb (is_empty (target [])) && negb (has_nul (target []))) with true.
  cbn [andb walkable is_empty fold_left].
  change (step (rev (cwd (after_makedirs w))) save_folder)
    with (save_folder :: rev (cwd (after_makedirs w))).
  change (step (save_folder :: rev (cwd (after_makedirs w))) [])
    with (save_folder :: rev (cwd (after_makedirs w))).
  cbn [rev]. rewrite rev_involutive, He. reflexivity.
Qed.

(** X20. When the target is a directory, as it is for a URL whose path
    ends in a slash (the empty file name stands for the folder itself),
    [download_pdf] sends the request and, the answer being no error,
    raises [OSError] when it opens the target: nothing is written or
    printed, and the exception is not caught. *)
Theorem directory_target_ends_in_os_error
    (bracketed_host_ok : str -> bool) (net : list str -> str -> http_result)
    (pdf_url : str) (local_file_path f : ustr) (w : world)
    (status : N) (chunks : list str) (broken : bool) :
  folder_ok w = true ->
  url_to_filename bracketed_host_ok pdf_url = Ok f ->
  f = [] \/ stat (after_makedirs w) (target f) = Some Dir ->
  net (requests w) pdf_url = Response status chunks broken ->
  is_http_error status = false ->
  download_pdf bracketed_host_ok net pdf_url local_file_path w
  = (Raise OSError,
     World (cwd w) (fs (after_makedirs w)) (requests w ++ [pdf_url]) (stdout w)).
Proof.
  intros Hok Hname Hdir Hnet Hst.
  assert (Hs : stat (after_makedirs w) (target f) = Some Dir).
  { destruct Hdir as [->|Hs]; [by apply stat_target_empty|done]. }
  assert (Hnul : has_nul (target f) = false).
  { unfold stat, reachable in Hs. destruct (has_nul (target f)); [|done].
    by rewrite andb_false_r in Hs. }
  rewrite (download_cannot_open_exn bracketed_host_ok net pdf_url local_file_path
             f w status chunks broken Hok Hname).
  - by rewrite Hnul.
  - unfold isfile. by rewrite Hs.
  - done.
  - done.
  - unfold can_open. rewrite Hs. apply andb_false_r.
Qed.

Lemma directory_target_ends_in_os_error_witness :
  download_pdf any_brackets net_pdf (lit "https://example.com/a.pdf/") [] w_empty
  = (Raise OSError,
     World (cwd w_empty) (fs (after_makedirs w_empty))
           (requests w_empty ++ [lit "https://example.com/a.pdf/"])
           (stdout w_empty)).
Proof.
  apply (directory_target_ends_in_os_error any_brackets net_pdf
           (lit "https://example.com/a.pdf/") [] [] w_empty
           200 [lit "%PDF"; []; lit "-1.4"] false).
  - vm_compute. reflexivity.
  - vm_compute. reflexivity.
  - left. reflexivity.
  - reflexivity.
  - vm_compute. reflexivity.
Defined.

(** ** A listed path that is no file *)

(** X21. A turn of the sweep on a path that is no regular file (missing,
    or a directory): the validator returns [False], the path is reported
    as invalid, and the removal raises [OSError] ([ValueError] for a path
    with a NUL character).  The uppercase check of that turn is not
    reached, and the loop ends there, leaving the later paths unvisited. *)
Theorem sweep_stops_at_a_missing_file
    (pdf_pages : ustr -> str -> option N) (isupper_wide : N -> bool)
    (pdf_file : ustr) (rest : list ustr) (w : world) :
  isfile w pdf_file = false ->
  exists (e : exn) (log : list msg),
    (e = OSError \/ e = ValueError) /\
    sweep_file pdf_pages isupper_wide pdf_file w
    = (Raise e, World (cwd w) (fs w) (requests w)
                      (stdout w ++ log ++ [MInvalid pdf_file])) /\
    flagged log = [] /\ reported_invalid log = [] /\
    sweep pdf_pages isupper_wide (pdf_file :: rest) w
    = sweep_file pdf_pages isupper_wide pdf_file w.
Proof.
  intros Hfile.
  destruct (validate_pdf_file_outcome pdf_pages pdf_file w) as (log & Hv & Hf & Hr).
  assert (Hopened : match opened pdf_pages w pdf_file with
                    | Ok page_count => negb (page_count =? 0)
                    | Raise _ => false
                    end = false).
  { unfold opened, fitz_page_count, bind, get_world, ret, raise.
    destruct (is_empty pdf_file); [done|].
    unfold isfile in Hfile.
    destruct (stat w pdf_file) as [[d|]|]; done. }
  rewrite Hopened in Hv.
  set (w1 := World (cwd w) (fs w) (requests w) (stdout w ++ log)) in *.
  assert (Hfile1 : isfile w1 pdf_file = false).
  { rewrite <- Hfile. unfold isfile. by rewrite (stat_ext w1 w). }
  assert (Hturn : exists e,
    (e = OSError \/ e = ValueError) /\
    sweep_file pdf_pages isupper_wide pdf_file w
    = (Raise e, World (cwd w) (fs w) (requests w)
                      (stdout w ++ log ++ [MInvalid pdf_file]))).
  { unfold sweep_file. unfold bind at 1. rewrite Hv. cbn [negb].
    unfold bind at 1 2. unfold print at 1.
    unfold remove_system_file, os_remove, bind, get_world, raise.
    subst w1. cbn [cwd fs requests stdout]. rewrite <- app_assoc.
    destruct (has_nul pdf_file).
    - exists ValueError. split; [by right|done].
    - unfold isfile in *.
      rewrite (stat_ext _ w pdf_file) by done.
      destruct (stat w pdf_file) as [[d|]|]; try done;
        exists OSError; (split; [by left|done]). }
  destruct Hturn as (e & He & Hturn).
  exists e, log. split; [done|]. split; [done|]. split; [done|]. split; [done|].
  unfold sweep. cbn [for_each]. unfold bind. by rewrite Hturn.
Qed.

Lemma sweep_stops_at_a_missing_file_witness :
  exists (e : exn) (log : list msg),
    (e = OSError \/ e = ValueError) /\
    sweep_file pages_sample no_wide_upper (ulit "/srv/job/PDFs/Gone.pdf") w_three
    = (Raise e, World (cwd w_three) (fs w_three) (requests w_three)
                      (stdout w_three ++ log
                       ++ [MInvalid (ulit "/srv/job/PDFs/Gone.pdf")])) /\
    flagged log = [] /\ reported_invalid log = [] /\
    sweep pages_sample no_wide_upper
      (ulit "/srv/job/PDFs/Gone.pdf" :: three_files) w_three
    = sweep_file pages_sample no_wide_upper (ulit "/srv/job/PDFs/Gone.pdf") w_three.
Proof.
  apply (sweep_stops_at_a_missing_file pages_sample no_wide_upper
           (ulit "/srv/job/PDFs/Gone.pdf") three_files w_three).
  vm_compute. reflexivity.
Defined.
